(** * A shallow embedding of [shell.c]

    The development follows the source file top-down: C strings and the
    small part of the C library the shell relies on ([strtok], [strcat],
    [strcpy], [strcmp], [strlen]), then [tokenize], the built-in [cd], and one
    pass through the body of the [while(1)] loop of [main].

    Conventions.
    - A byte is an [ascii]; a buffer is a [list ascii] holding every byte of
      the C object, terminators included.  A string value (what a NUL-free
      C string denotes) is a [list ascii] without its terminator.
    - A [char*] is [option cptr]: [None] is [NULL]; [PBuf off] points [off]
      bytes into the buffer being tokenized, [PLit s] points to a string
      literal of the program text.
    - An [int] is a [Z].  The only arithmetic on them is [limit - 1],
      [count + 1] and [arg_count - 1]; none of it leaves the range of [int]
      for the capacities the program uses (2048 and 4096).
    - Undefined behaviour of the C program is an explicit result,
      [Undefined], tagged with its cause. *)

From Stdlib Require Import Ascii String List ZArith Lia Bool DecimalString.
Import ListNotations.

Local Open Scope Z_scope.

(** ** Results of running C code *)

Inductive ub : Type :=
| NullDeref        (* a NULL pointer handed to a function that reads it *)
| BufferOverflow   (* a write past the end of an array *)
| OutOfBounds      (* a read outside the object a pointer belongs to *)
| Uninitialised.   (* a read of a buffer nothing was written to *)

Inductive outcome (A : Type) : Type :=
| Done (a : A)
| Undefined (why : ub)
| OutOfFuel.

Arguments Done {A} a.
Arguments Undefined {A} why.
Arguments OutOfFuel {A}.

Definition bind {A B : Type} (m : outcome A) (k : A -> outcome B) : outcome B :=
  match m with
  | Done a => k a
  | Undefined u => Undefined u
  | OutOfFuel => OutOfFuel
  end.

Notation "x <- m ;; k" := (bind m (fun x => k))
  (at level 61, m at next level, right associativity).
Notation "' pat <- m ;; k" := (bind m (fun x => match x with pat => k end))
  (at level 61, pat pattern, m at next level, right associativity).

(** ** Bytes, C strings and pointers *)

Definition bytes : Type := list ascii.

Definition NUL : ascii := "000"%char.
Definition LF : ascii := "010"%char.
Definition ESC : ascii := "027"%char.

Definition str (s : string) : bytes := list_ascii_of_string s.

Definition is_nul (c : ascii) : bool := Ascii.eqb c NUL.

Fixpoint bytes_eqb (a b : bytes) : bool :=
  match a, b with
  | [], [] => true
  | x :: a', y :: b' => Ascii.eqb x y && bytes_eqb a' b'
  | _, _ => false
  end.

Definition nul_free (s : bytes) : bool := forallb (fun c => negb (is_nul c)) s.

Inductive cptr : Type :=
| PBuf (off : nat)
| PLit (lit : bytes).

(** The bytes from the head of [s] up to the first NUL: what a function
    reading a C string sees.  Running off the object is undefined. *)
Fixpoint c_str (s : bytes) : outcome bytes :=
  match s with
  | [] => Undefined OutOfBounds
  | c :: s' => if is_nul c then Done [] else r <- c_str s' ;; Done (c :: r)
  end.

Definition load (buf : bytes) (p : cptr) : outcome bytes :=
  match p with
  | PBuf off => c_str (skipn off buf)
  | PLit s => Done s
  end.

(** Reading through a [char*] that may be NULL, as [strcmp], [strcat],
    [strcpy] and [strlen] do with their arguments. *)
Definition load_arg (buf : bytes) (p : option cptr) : outcome bytes :=
  match p with
  | None => Undefined NullDeref
  | Some q => load buf q
  end.

(** [a[i] = v] on an array of [length a] slots. *)
Fixpoint upd {A : Type} (i : nat) (v : A) (a : list A) : list A :=
  match a, i with
  | [], _ => []
  | _ :: a', O => v :: a'
  | x :: a', S i' => x :: upd i' v a'
  end.

Definition store {A : Type} (a : list A) (i : Z) (v : A) : outcome (list A) :=
  if (0 <=? i) && (i <? Z.of_nat (length a))
  then Done (upd (Z.to_nat i) v a)
  else Undefined BufferOverflow.

Definition fetch {A : Type} (a : list A) (i : Z) : outcome A :=
  if 0 <=? i
  then match nth_error a (Z.to_nat i) with
       | Some v => Done v
       | None => Undefined OutOfBounds
       end
  else Undefined OutOfBounds.

(** ** [strtok]

    The C library function, kept as the library has it: the saved position
    is threaded explicitly.  [strspn] and [strcspn] work on the bytes at
    and after the pointer. *)

Definition is_delim (delim : bytes) (c : ascii) : bool :=
  existsb (Ascii.eqb c) delim.

Fixpoint strspn (delim s : bytes) : outcome nat :=
  match s with
  | [] => Undefined OutOfBounds
  | c :: s' =>
      if is_nul c then Done O
      else if is_delim delim c then n <- strspn delim s' ;; Done (S n)
      else Done O
  end.

Fixpoint strcspn (delim s : bytes) : outcome nat :=
  match s with
  | [] => Undefined OutOfBounds
  | c :: s' =>
      if is_nul c then Done O
      else if is_delim delim c then Done O
      else n <- strcspn delim s' ;; Done (S n)
  end.

Definition peek (buf : bytes) (p : nat) : outcome ascii :=
  match nth_error buf p with
  | Some c => Done c
  | None => Undefined OutOfBounds
  end.

(** One call of [strtok] continuing at [save]: the token found (or NULL),
    the buffer with the token's closing delimiter overwritten, and the
    position the next call continues from. *)
Definition strtok (delim buf : bytes) (save : nat)
  : outcome (option cptr * bytes * nat) :=
  n <- strspn delim (skipn save buf) ;;
  let s := (save + n)%nat in
  c <- peek buf s ;;
  if is_nul c then Done (None, buf, s)
  else
    m <- strcspn delim (skipn s buf) ;;
    let e := (s + m)%nat in
    d <- peek buf e ;;
    if is_nul d then Done (Some (PBuf s), buf, e)
    else Done (Some (PBuf s), upd e NUL buf, S e).

(** ** [tokenize] (shell.c, lines 31-52) *)

Record tokenized : Type := mkTokenized {
  tk_ret : Z;                       (* the value returned *)
  tk_buf : bytes;                   (* [string] after the call *)
  tk_tokens : list (option cptr);   (* [tokens] after the call *)
  tk_count : Z                      (* [*token_count] after the call *)
}.

(** The [while] loop.  Each round is preceded by a [strtok] call that moved
    the saved position at least one byte forward, so the length of the
    buffer bounds the number of rounds. *)
Fixpoint tokenize_loop (fuel : nat) (delimiter : bytes) (limit : Z)
    (word : option cptr) (buf : bytes) (save : nat)
    (tokens : list (option cptr)) (token_count : Z)
  : outcome (bytes * list (option cptr) * Z) :=
  match word with
  | Some w =>
      if token_count <? limit - 1 then
        match fuel with
        | O => OutOfFuel
        | S fuel' =>
            tokens' <- store tokens token_count (Some w) ;;
            '(word', buf', save') <- strtok delimiter buf save ;;
            tokenize_loop fuel' delimiter limit word' buf' save'
                          tokens' (token_count + 1)
        end
      else Done (buf, tokens, token_count)
  | None => Done (buf, tokens, token_count)
  end.

(** [string] is the buffer the first argument points to the start of;
    [token_count] is the value of [*token_count] on entry. *)
Definition tokenize (string delimiter : bytes) (tokens : list (option cptr))
    (token_count : Z) : outcome tokenized :=
  '(word, buf, save) <- strtok delimiter string O ;;
  let limit := token_count in
  '(buf', tokens', count) <-
     tokenize_loop (length string) delimiter limit word buf save tokens 0 ;;
  tokens'' <- store tokens' count None ;;
  Done (mkTokenized (if count <? limit - 1 then 0 else -1) buf' tokens'' count).

(** ** The process and its surroundings *)

Definition BIG_NUM : Z := 2048.        (* the most arguments a user can enter *)
Definition PATH_MAX : Z := 4096.       (* the longest a path can be *)
Definition EXIT_SUCCESS : Z := 0.
Definition EXIT_FAILURE : Z := 1.

(** What the process does that can be seen from outside, in order. *)
Inductive event : Type :=
| Stdout (text : bytes)                          (* printf, puts *)
| Stderr (text : bytes)                          (* fprintf(stderr, ...) *)
| Perror (prefix : bytes) (errno : Z)            (* perror(prefix) *)
| Chdir (path : bytes) (errno : Z)               (* chdir(path) *)
| Setenv (name value : bytes) (errno : Z)        (* setenv(name, value, 1) *)
| Fork (ret : Z)                                 (* fork() *)
| IgnoreSigchld                                  (* signal(SIGCHLD, SIG_IGN) *)
| Wait                                           (* wait(NULL) *)
| Execvp (file : bytes) (argv : list bytes) (errno : Z)
| Free.                                          (* free(input) *)

Definition environ : Type := list (bytes * bytes).

Record world : Type := mkWorld {
  w_env : environ;        (* the environment variables *)
  w_cwd : bytes;          (* the working directory, as getcwd reports it *)
  w_trace : list event    (* what happened so far, oldest first *)
}.

(** The operating system, as far as the shell can tell: which [chdir],
    [setenv], [fork] and [execvp] calls fail and with which [errno], where a
    successful [chdir] leads, and who and where the user is.  A failure
    carries its [errno] as a [positive], so that it is not zero. *)
Record OS : Type := mkOS {
  os_chdir : bytes -> bytes -> positive + bytes;   (* from, path *)
  os_setenv : environ -> bytes -> bytes -> option positive;
  os_fork : positive + Z;      (* fork() fails, or returns 0 or the child's pid *)
  os_execvp : bytes -> list bytes -> option positive;
  os_user : option bytes;                          (* pw_name, if getpwuid finds one *)
  os_host : bytes
}.

Fixpoint getenv (name : bytes) (e : environ) : option bytes :=
  match e with
  | [] => None
  | (n, v) :: e' => if bytes_eqb n name then Some v else getenv name e'
  end.

Fixpoint putenv (name value : bytes) (e : environ) : environ :=
  match e with
  | [] => [(name, value)]
  | (n, v) :: e' =>
      if bytes_eqb n name then (n, value) :: e' else (n, v) :: putenv name value e'
  end.

Definition emit (ev : event) (w : world) : world :=
  mkWorld (w_env w) (w_cwd w) (w_trace w ++ [ev]).

(** [getcwd(cur_path, PATH_MAX)]: the buffer is filled when the directory
    and its terminator fit and is left as it was otherwise. *)
Definition getcwd (w : world) : option bytes :=
  if Z.of_nat (length (w_cwd w)) <? PATH_MAX then Some (w_cwd w) else None.

Definition read_buffer (b : option bytes) : outcome bytes :=
  match b with
  | Some s => Done s
  | None => Undefined Uninitialised
  end.

(** [errno = 0; chdir(path)]: the value of [errno] afterwards. *)
Definition chdir (os : OS) (path : bytes) (w : world) : Z * world :=
  match os_chdir os (w_cwd w) path with
  | inl e => (Zpos e, emit (Chdir path (Zpos e)) w)
  | inr d => (0, emit (Chdir path 0) (mkWorld (w_env w) d (w_trace w)))
  end.

(** [errno = 0; setenv(name, value, 1)]: the value of [errno] afterwards. *)
Definition setenv (os : OS) (name value : bytes) (w : world) : Z * world :=
  match os_setenv os (w_env w) name value with
  | Some e => (Zpos e, emit (Setenv name value (Zpos e)) w)
  | None =>
      (0, emit (Setenv name value 0)
               (mkWorld (putenv name value (w_env w)) (w_cwd w) (w_trace w)))
  end.

(** [strcat] and [strcpy] into [char dst[cap]]; [dst] is the string the
    buffer holds. *)
Definition strcat (cap : Z) (dst src : bytes) : outcome bytes :=
  if Z.of_nat (length dst + length src) <? cap
  then Done (dst ++ src)
  else Undefined BufferOverflow.

Definition strcpy (cap : Z) (src : bytes) : outcome bytes :=
  if Z.of_nat (length src) <? cap then Done src else Undefined BufferOverflow.

(** ** [cd] (shell.c, lines 58-158)

    [given_path] points into the line [main] read.  [strtok] writes only
    between that pointer and the terminator of the token, and [main] does
    not read the line again after [cd] returns, so the handler is run on
    the C string it is given, in a buffer of its own. *)

(** The slots of [char* path[PATH_MAX]].  They start indeterminate; none is
    read before [tokenize] or line 96 wrote it. *)
Definition path_slots : list (option cptr) := repeat None (Z.to_nat PATH_MAX).

(** The [for] loop of lines 117-121: [n] rounds are left, the next one with
    index [i]. *)
Fixpoint add_path_items (n : nat) (i : Z) (buf : bytes)
    (path : list (option cptr)) (new_path : bytes) : outcome bytes :=
  match n with
  | O => Done new_path
  | S n' =>
      p1 <- strcat PATH_MAX new_path (str "/") ;;
      item <- fetch path i ;;
      s <- load_arg buf item ;;
      p2 <- strcat PATH_MAX p1 s ;;
      add_path_items n' (i + 1) buf path p2
  end.

(** Lines 60-122: the path under construction when [chdir] is reached. *)
Definition cd_new_path (w : world) (given_path : option bytes)
  : outcome (bytes * world) :=
  let old_path := getenv (str "OLDPWD") (w_env w) in
  let home := getenv (str "HOME") (w_env w) in
  let path_delimiter := str "/" in
  let cur_path := getcwd w in
  let new_path : bytes := [] in
  match given_path with
  | None =>
      h <- load_arg [] (option_map PLit home) ;;
      p <- strcat PATH_MAX new_path h ;;
      Done (p, w)
  | Some given =>
      let buf := given ++ [NUL] in
      c0 <- peek buf O ;;
      let rooted := Ascii.eqb c0 "/"%char in
      t <- tokenize buf path_delimiter path_slots BIG_NUM ;;
      let buf := tk_buf t in
      let path := tk_tokens t in
      let path_count := tk_count t in
      p0 <- fetch path 0 ;;
      s0 <- load_arg buf p0 ;;
      '(new_path, path, path_count, w) <-
        (if bytes_eqb s0 (str "~") then
           h <- load_arg buf (option_map PLit home) ;;
           p <- strcpy PATH_MAX h ;;
           path' <- store path 0 (Some (PLit [])) ;;
           Done (p, path', path_count, w)
         else if bytes_eqb s0 (str "-") then
           o <- load_arg buf (option_map PLit old_path) ;;
           p <- strcpy PATH_MAX o ;;
           Done (p, path, 0, emit (Stdout (p ++ [LF])) w)
         else if rooted then
           p <- strcpy PATH_MAX path_delimiter ;;
           Done (p, path, path_count, w)
         else
           c <- read_buffer cur_path ;;
           p <- strcat PATH_MAX new_path c ;;
           Done (p, path, path_count, w)) ;;
      p <- add_path_items (Z.to_nat path_count) 0 buf path new_path ;;
      Done (p, w)
  end.

(** Lines 131-157: the directory change and the two environment updates. *)
Definition cd_apply (os : OS) (cur_path : option bytes) (new_path : bytes)
    (w : world) : outcome world :=
  let '(errno, w) := chdir os new_path w in
  if negb (errno =? 0) then Done (emit (Perror [] errno) w)
  else
    c <- read_buffer cur_path ;;
    let '(errno, w) := setenv os (str "OLDPWD") c w in
    if negb (errno =? 0) then Done (emit (Perror [] errno) w)
    else
      let '(errno, w) := setenv os (str "PWD") new_path w in
      if negb (errno =? 0) then Done (emit (Perror [] errno) w)
      else Done w.

Definition cd (os : OS) (w : world) (given_path : option bytes) : outcome world :=
  let cur_path := getcwd w in
  '(new_path, w) <- cd_new_path w given_path ;;
  cd_apply os cur_path new_path w.

(** ** One pass through the loop of [main] (shell.c, lines 185-324) *)

(** What [main] keeps from one pass to the next: the world and the argument
    array, declared outside the loop. *)
Record shell : Type := mkShell {
  sh_world : world;
  sh_args : list (option cptr)      (* char* command_args[BIG_NUM] *)
}.

Inductive status : Type :=
| Running                 (* the loop goes round again *)
| Exited (code : Z)       (* exit(code) was called *)
| Replaced.               (* execvp succeeded: another program runs now *)

Definition decimal (n : Z) : bytes := str (NilZero.string_of_int (Z.to_int n)).

Definition bold_on : bytes := ESC :: str "[1m".
Definition colour_off : bytes := ESC :: str "[0m".
Definition corner_top : bytes :=
  ["226"; "149"; "173"; "226"; "148"; "128"]%char.
Definition corner_bottom : bytes :=
  ["226"; "149"; "176"; "226"; "148"; "128"]%char.

(** Lines 187-209. *)
Definition show_prompt (os : OS) (w : world) : outcome world :=
  let home := getenv (str "HOME") (w_env w) in
  let username := match os_user os with Some n => n | None => str "ERROR" end in
  let prompt := if bytes_eqb username (str "root") then "#"%char else "%"%char in
  let hostname := os_host os in
  c <- read_buffer (getcwd w) ;;
  h <- load_arg [] (option_map PLit home) ;;
  let cur_path := if bytes_eqb c h then str "~" else c in
  let w := emit (Stdout (bold_on ++ corner_top ++ colour_off)) w in
  let w := emit (Stdout (ESC :: str "[92;1m" ++ username ++ str "@" ++ hostname
                          ++ colour_off ++ str " ")) w in
  let w := emit (Stdout (ESC :: str "[34;1m" ++ cur_path ++ colour_off
                          ++ str " " ++ [LF])) w in
  let w := emit (Stdout (bold_on ++ corner_bottom ++ colour_off)) w in
  let w := emit (Stdout (bold_on ++ [prompt] ++ colour_off ++ str " ")) w in
  Done w.

(** The strings [execvp] finds in its argument vector, up to the first
    NULL. *)
Fixpoint read_argv (buf : bytes) (args : list (option cptr))
  : outcome (list bytes) :=
  match args with
  | [] => Undefined OutOfBounds
  | None :: _ => Done []
  | Some p :: rest =>
      s <- load buf p ;; l <- read_argv buf rest ;; Done (s :: l)
  end.

(** [p - 1] and [p[n]] on a [char*]. *)
Definition ptr_pred (p : option cptr) : outcome (option cptr) :=
  match p with
  | None => Undefined NullDeref
  | Some (PBuf (S off)) => Done (Some (PBuf off))
  | Some (PBuf O) => Undefined OutOfBounds
  | Some (PLit _) => Undefined OutOfBounds
  end.

Definition index (buf : bytes) (p : option cptr) (n : nat) : outcome ascii :=
  match p with
  | None => Undefined NullDeref
  | Some (PBuf off) => peek buf (off + n)
  | Some (PLit s) => peek (s ++ [NUL]) n
  end.

Definition strlen (buf : bytes) (p : option cptr) : outcome nat :=
  s <- load_arg buf p ;; Done (length s).

(** Lines 264-286: the child after [fork]. *)
Definition run_child (os : OS) (w : world) (buf : bytes)
    (command : option cptr) (command_args : list (option cptr))
    (arg_count : Z) : outcome (world * status) :=
  last <- fetch command_args (arg_count - 1) ;;
  s <- load_arg buf last ;;
  command_args <-
    (if bytes_eqb s (str "&") then store command_args (arg_count - 1) None
     else Done command_args) ;;
  file <- load_arg buf command ;;
  argv <- read_argv buf command_args ;;
  match os_execvp os file argv with
  | None => Done (emit (Execvp file argv 0) w, Replaced)
  | Some e =>
      let ret := -1 in
      let w := emit (Execvp file argv (Zpos e)) w in
      let w := emit (Perror [] (Zpos e)) w in
      Done (w, Exited ret)
  end.

(** Lines 293-312: the parent after [fork]. *)
Definition run_parent (w : world) (buf : bytes)
    (command_args : list (option cptr)) (arg_count : Z) (child_pid : Z)
  : outcome world :=
  let w := emit IgnoreSigchld w in
  final_arg <- fetch command_args (arg_count - 1) ;;
  before <- ptr_pred final_arg ;;
  n <- strlen buf before ;;
  c <- index buf final_arg n ;;
  if negb (Ascii.eqb c "&"%char) then Done (emit Wait w)
  else Done (emit (Stdout (str "Job " ++ decimal child_pid ++ [LF])) w).

(** Lines 318-321. *)
Fixpoint clear_args (n : nat) (i : Z) (command_args : list (option cptr))
  : outcome (list (option cptr)) :=
  match n with
  | O => Done command_args
  | S n' =>
      a <- store command_args i None ;;
      clear_args n' (i + 1) a
  end.

(** Lines 222-313: what is done with the line [getline] delivered. *)
Definition dispatch (os : OS) (sh : shell) (line : bytes)
  : outcome (world * list (option cptr) * Z * status) :=
  let w := sh_world sh in
  let delimiter := str " " ++ [LF] in
  let input := line ++ [NUL] in
  t <- tokenize input delimiter (sh_args sh) BIG_NUM ;;
  let input := tk_buf t in
  let command_args := tk_tokens t in
  let '(w, arg_count) :=
    if negb (tk_ret t =? 0)
    then (emit (Stderr (str "Exceeded length" ++ [LF])) w, 0)
    else (w, tk_count t) in
  command <- fetch command_args 0 ;;
  if arg_count =? 0 then Done (w, command_args, arg_count, Running)
  else
    cmd <- load_arg input command ;;
    if bytes_eqb cmd (str "exit")
    then Done (w, command_args, arg_count, Exited EXIT_SUCCESS)
    else
      too_long <-
        (if bytes_eqb cmd (str "cd") && (1 <? arg_count) then
           a1 <- fetch command_args 1 ;;
           n <- strlen input a1 ;;
           Done (PATH_MAX <? Z.of_nat n)
         else Done false) ;;
      if too_long
      then Done (emit (Stderr (str "ERROR: Path Invalid: too long")) w,
                 command_args, arg_count, Running)
      else if bytes_eqb cmd (str "cd") then
        a1 <- fetch command_args 1 ;;
        given_path <-
          match a1 with
          | None => Done None
          | Some p => s <- load input p ;; Done (Some s)
          end ;;
        w <- cd os w given_path ;;
        Done (w, command_args, arg_count, Running)
      else
        let '(errno, child_pid) :=
          match os_fork os with
          | inl e => (Zpos e, -1)
          | inr pid => (0, pid)
          end in
        let w := emit (Fork child_pid) w in
        if child_pid =? 0 then
          '(w, st) <- run_child os w input command command_args arg_count ;;
          Done (w, command_args, arg_count, st)
        else if child_pid =? -1 then
          Done (emit (Perror (str "Fork failed: ") errno) w,
                command_args, arg_count, Exited EXIT_FAILURE)
        else
          w <- run_parent w input command_args arg_count child_pid ;;
          Done (w, command_args, arg_count, Running).

(** The whole pass: prompt, [getline] (which delivers [line]), dispatch,
    and the clean-up of lines 315-323 when the process is still the shell. *)
Definition shell_iteration (os : OS) (sh : shell) (line : bytes)
  : outcome (shell * status) :=
  w <- show_prompt os (sh_world sh) ;;
  '(w, command_args, arg_count, st) <-
     dispatch os (mkShell w (sh_args sh)) line ;;
  match st with
  | Running =>
      command_args <- clear_args (Z.to_nat arg_count) 0 command_args ;;
      Done (mkShell (emit Free w) command_args, Running)
  | _ => Done (mkShell w command_args, st)
  end.

(** ** Words of a line, segments of a path

    The specification speaks of the whitespace-separated words of a line
    and of the segments of a path.  Both are the non-empty fields between
    delimiters; this definition does not look at [strtok]. *)

Fixpoint fields (delim s : bytes) : list bytes :=
  match s with
  | [] => [[]]
  | c :: s' =>
      if is_delim delim c then [] :: fields delim s'
      else match fields delim s' with
           | f :: fs => (c :: f) :: fs
           | [] => [[c]]
           end
  end.

Definition non_empty (s : bytes) : bool :=
  match s with [] => false | _ :: _ => true end.

Definition words (delim s : bytes) : list bytes :=
  filter non_empty (fields delim s).

Definition whitespace : bytes := str " " ++ [LF].

(** ** A small operating system to run examples on

    Directories are known by their canonical path.  Resolving a path drops
    empty and [.] components and steps back on [..], as path resolution
    does; a path resolves when the directory it names exists. *)

Fixpoint walk (stack comps : list bytes) : list bytes :=
  match comps with
  | [] => stack
  | c :: rest =>
      if bytes_eqb c (str ".") then walk stack rest
      else if bytes_eqb c (str "..") then walk (tl stack) rest
      else walk (c :: stack) rest
  end.

Definition canonical (cwd path : bytes) : bytes :=
  let start :=
    match path with
    | "/"%char :: _ => []
    | _ => rev (words (str "/") cwd)
    end in
  match rev (walk start (words (str "/") path)) with
  | [] => str "/"
  | comps => concat (map (fun c => str "/" ++ c) comps)
  end.

Definition ENOENT : positive := 2%positive.
Definition ENOMEM : positive := 12%positive.

Definition demo_chdir (dirs : list bytes) (cwd path : bytes) : positive + bytes :=
  match path with
  | [] => inl ENOENT
  | _ => let d := canonical cwd path in
         if existsb (bytes_eqb d) dirs then inr d else inl ENOENT
  end.

Definition demo_dirs : list bytes :=
  map str ["/"; "/tmp"; "/home"; "/home/u"; "/x"; "/x/a"; "/x/a/b"]%string.

(** Every call the file system allows succeeds; [fork] returns [pid]. *)
Definition demo_os (pid : Z) : OS :=
  mkOS (demo_chdir demo_dirs) (fun _ _ _ => None) (inr pid)
       (fun _ _ => None) (Some (str "u")) (str "box").

(** The same, except that [setenv] fails on the variable [broken]. *)
Definition demo_os_setenv_fails (broken : bytes) : OS :=
  mkOS (demo_chdir demo_dirs)
       (fun _ name _ => if bytes_eqb name broken then Some ENOMEM else None)
       (inr 4242) (fun _ _ => None) (Some (str "u")) (str "box").

Definition demo_env : environ :=
  [(str "HOME", str "/home/u"); (str "PWD", str "/home/u");
   (str "OLDPWD", str "/")].

Definition demo_world (cwd : bytes) : world := mkWorld demo_env cwd [].

Definition fresh_args : list (option cptr) := repeat None (Z.to_nat BIG_NUM).

Definition demo_shell (cwd : bytes) : shell := mkShell (demo_world cwd) fresh_args.

(** ** Notions the proofs use *)

Definition all_delims (delim s : bytes) : bool := forallb (is_delim delim) s.
Definition no_delims (delim s : bytes) : bool :=
  forallb (fun c => negb (is_delim delim c)) s.

(** How a string starts: delimiters only; or delimiters and a last word; or
    delimiters, a word, a delimiter and the rest. *)
Inductive shape (delim : bytes) (s : bytes) : Prop :=
| ShapeBlank : all_delims delim s = true -> shape delim s
| ShapeLast (ds w : bytes) :
    s = ds ++ w -> all_delims delim ds = true -> w <> [] ->
    no_delims delim w = true -> shape delim s
| ShapeMore (ds w : bytes) (c : ascii) (rest : bytes) :
    s = ds ++ w ++ c :: rest -> all_delims delim ds = true -> w <> [] ->
    no_delims delim w = true -> is_delim delim c = true -> shape delim s.

(** [after pre rem post b]: buffer [b] still starts with [pre] and ends
    with the terminator and [post]; only the [length rem] bytes in between
    may have been overwritten. *)
Definition after (pre rem post b : bytes) : Prop :=
  exists rem', length rem' = length rem /\ b = pre ++ rem' ++ NUL :: post.

Definition ptrs (qs : list nat) : list (option cptr) :=
  map (fun q => Some (PBuf q)) qs.

(** [reads b qs ws]: in buffer [b], the pointers [qs] read as the strings
    [ws], one by one. *)
Definition reads (b : bytes) (qs : list nat) (ws : list bytes) : Prop :=
  Forall2 (fun q w => load b (PBuf q) = Done w) qs ws.

(** ** The path [cd] builds, read off the segments

    The same decisions as [cd_new_path], taken on the segments of the
    argument instead of on pointers into it.  [cd_new_path_segments] below
    shows that the two agree. *)

Fixpoint append_items (new_path : bytes) (items : list bytes) : outcome bytes :=
  match items with
  | [] => Done new_path
  | s :: rest =>
      p1 <- strcat PATH_MAX new_path (str "/") ;;
      p2 <- strcat PATH_MAX p1 s ;;
      append_items p2 rest
  end.

(** The segments [tokenize] hands to [cd]: at most [BIG_NUM - 1] of them. *)
Definition segments (given : bytes) : list bytes :=
  firstn (Z.to_nat (BIG_NUM - 1)) (words (str "/") given).

Definition rooted (given : bytes) : bool :=
  match given with
  | c :: _ => Ascii.eqb c "/"%char
  | [] => false
  end.

Definition new_path_of_segments (w : world) (given_path : option bytes)
  : outcome (bytes * world) :=
  let old_path := getenv (str "OLDPWD") (w_env w) in
  let home := getenv (str "HOME") (w_env w) in
  match given_path with
  | None =>
      h <- load_arg [] (option_map PLit home) ;;
      p <- strcat PATH_MAX [] h ;;
      Done (p, w)
  | Some given =>
      match segments given with
      | [] => Undefined NullDeref
      | s0 :: rest =>
          if bytes_eqb s0 (str "~") then
            h <- load_arg [] (option_map PLit home) ;;
            p <- strcpy PATH_MAX h ;;
            p <- append_items p ([] :: rest) ;;
            Done (p, w)
          else if bytes_eqb s0 (str "-") then
            o <- load_arg [] (option_map PLit old_path) ;;
            p <- strcpy PATH_MAX o ;;
            Done (p, emit (Stdout (p ++ [LF])) w)
          else if rooted given then
            p <- strcpy PATH_MAX (str "/") ;;
            p <- append_items p (s0 :: rest) ;;
            Done (p, w)
          else
            c <- read_buffer (getcwd w) ;;
            p <- strcat PATH_MAX [] c ;;
            p <- append_items p (s0 :: rest) ;;
            Done (p, w)
      end
  end.

(** The segments joined the way the loop of lines 117-121 joins them. *)
Definition joined (items : list bytes) : bytes :=
  concat (map (fun s => str "/" ++ s) items).

(** The environment variable a call of [cd] depends on, as the
    specification has it: [HOME] for no argument and for a path whose first
    segment is [~], [OLDPWD] for a path whose first segment is [-]. *)
Definition required_variable (given_path : option bytes) : option bytes :=
  match given_path with
  | None => Some (str "HOME")
  | Some g =>
      match words (str "/") g with
      | s0 :: _ =>
          if bytes_eqb s0 (str "~") then Some (str "HOME")
          else if bytes_eqb s0 (str "-") then Some (str "OLDPWD")
          else None
      | [] => None
      end
  end.

Definition no_null_deref {A : Type} (o : outcome A) : Prop :=
  o <> Undefined NullDeref.

(** A world without [HOME]. *)
Definition no_home_world : world :=
  mkWorld [(str "OLDPWD", str "/")] (str "/x") [].

(** [cd /tmp] followed by 2046 more words: 2048 words in all, one more
    than [command_args] holds beside its terminating NULL. *)
Definition long_cd_line : bytes :=
  str "cd /tmp" ++ concat (repeat (str " &") 2046) ++ [LF].

(** A line of [n] words. *)
Definition line_of_words (n : nat) : bytes :=
  concat (repeat (str "x ") n) ++ [LF].

(** Evaluates the comparisons of closed strings in the goal. *)
Ltac eval_eqb :=
  repeat match goal with
         | |- context [bytes_eqb ?a ?b] =>
             let v := eval vm_compute in (bytes_eqb a b) in
             change (bytes_eqb a b) with v
         end;
  cbv iota.

(** [overwritten delim old new]: buffer [new] is buffer [old] with some of
    its delimiter bytes replaced by NUL, and no other change. *)
Definition overwritten (delim old new : bytes) : Prop :=
  Forall2 (fun o n => n = o \/ (is_delim delim o = true /\ n = NUL)) old new.

(** Where [cd] starts the path of an argument that begins with neither
    [~] nor [-]. *)
Definition anchor (w : world) (given : bytes) : bytes :=
  if rooted given then str "/" else w_cwd w.

(** A name of 4095 bytes: short enough for the check on line 243. *)
Definition long_name : bytes := repeat "a"%char 4095.

(** The argument vector the child hands to [execvp]: the words of the
    line, without the last one when that is [&]. *)
Definition child_argv (ws : list bytes) : list bytes :=
  if bytes_eqb (last ws []) (str "&") then removelast ws else ws.

Definition EAGAIN : positive := 11%positive.

(** An operating system in which [fork] fails. *)
Definition demo_os_fork_fails : OS :=
  mkOS (demo_chdir demo_dirs) (fun _ _ _ => None) (inl EAGAIN)
       (fun _ _ => None) (Some (str "u")) (str "box").

(** The child's side of [fork], with an [execvp] that finds only [echo]. *)
Definition demo_os_child : OS :=
  mkOS (demo_chdir demo_dirs) (fun _ _ _ => None) (inr 0)
       (fun file _ => if bytes_eqb file (str "echo") then None else Some ENOENT)
       (Some (str "u")) (str "box").

(** ** The line after [tokenize], byte by byte

    [closed delim inword s] is [s] with each delimiter that follows a word
    replaced by NUL; [starts delim inword off s] lists the offsets at which
    the words of [s] begin, [off] being the offset of [s] itself.  [inword]
    tells whether the byte before [s] belongs to a word. *)
Fixpoint closed (delim : bytes) (inword : bool) (s : bytes) : bytes :=
  match s with
  | [] => []
  | c :: s' =>
      if is_delim delim c
      then (if inword then NUL else c) :: closed delim false s'
      else c :: closed delim true s'
  end.

Fixpoint starts (delim : bytes) (inword : bool) (off : nat) (s : bytes)
  : list nat :=
  match s with
  | [] => []
  | c :: s' =>
      if is_delim delim c then starts delim false (S off) s'
      else if inword then starts delim true (S off) s'
      else off :: starts delim true (S off) s'
  end.

Fixpoint ends_in_word (delim : bytes) (inword : bool) (s : bytes) : bool :=
  match s with
  | [] => inword
  | c :: s' => ends_in_word delim (negb (is_delim delim c)) s'
  end.

(** * Properties *)

(** ** Bytes and arrays *)

Lemma bytes_eqb_eq (a b : bytes) : bytes_eqb a b = true <-> a = b.
Proof.
  revert b; induction a as [|x a IH]; intros [|y b]; simpl; split;
    try congruence; try reflexivity.
  - intros H. apply andb_true_iff in H as [Hx Hab].
    apply Ascii.eqb_eq in Hx. apply IH in Hab. congruence.
  - intros H. injection H as -> ->.
    rewrite Ascii.eqb_refl. simpl. now apply IH.
Qed.

Lemma bytes_eqb_refl (a : bytes) : bytes_eqb a a = true.
Proof. now apply bytes_eqb_eq. Qed.

Lemma bytes_eqb_neq (a b : bytes) : bytes_eqb a b = false <-> a <> b.
Proof.
  split.
  - intros H E. apply bytes_eqb_eq in E. congruence.
  - intros H. destruct (bytes_eqb a b) eqn:E; [|reflexivity].
    apply bytes_eqb_eq in E. contradiction.
Qed.

Lemma upd_length {A : Type} (i : nat) (v : A) (a : list A) :
  length (upd i v a) = length a.
Proof.
  revert i; induction a as [|x a IH]; intros [|i]; simpl; auto.
Qed.

Lemma upd_app {A : Type} (pre : list A) (x v : A) (post : list A) :
  upd (length pre) v (pre ++ x :: post) = pre ++ v :: post.
Proof. induction pre as [|y pre IH]; simpl; congruence. Qed.

Lemma skipn_length_app {A : Type} (pre post : list A) :
  skipn (length pre) (pre ++ post) = post.
Proof. induction pre; simpl; auto. Qed.

Lemma peek_app (pre : bytes) (c : ascii) (post : bytes) :
  peek (pre ++ c :: post) (length pre) = Done c.
Proof.
  unfold peek. rewrite nth_error_app2 by lia.
  now rewrite Nat.sub_diag.
Qed.

Lemma store_app {A : Type} (pre : list A) (x v : A) (post : list A) :
  store (pre ++ x :: post) (Z.of_nat (length pre)) v = Done (pre ++ v :: post).
Proof.
  unfold store. rewrite length_app. simpl length.
  replace (0 <=? Z.of_nat (length pre)) with true by (symmetry; apply Z.leb_le; lia).
  replace (Z.of_nat (length pre) <? Z.of_nat (length pre + S (length post)))
    with true by (symmetry; apply Z.ltb_lt; lia).
  simpl. now rewrite Nat2Z.id, upd_app.
Qed.

Lemma fetch_app {A : Type} (pre : list A) (x : A) (post : list A) :
  fetch (pre ++ x :: post) (Z.of_nat (length pre)) = Done x.
Proof.
  unfold fetch.
  replace (0 <=? Z.of_nat (length pre)) with true by (symmetry; apply Z.leb_le; lia).
  rewrite Nat2Z.id, nth_error_app2 by lia. now rewrite Nat.sub_diag.
Qed.

Lemma store_head {A : Type} (x v : A) (post : list A) :
  store (x :: post) 0 v = Done (v :: post).
Proof. apply (store_app [] x v post). Qed.

Lemma fetch_head {A : Type} (x : A) (post : list A) :
  fetch (x :: post) 0 = Done x.
Proof. reflexivity. Qed.

Lemma firstn_min_length {A : Type} (n : nat) (l : list A) :
  firstn (Nat.min (length l) n) l = firstn n l.
Proof.
  destruct (Nat.le_ge_cases n (length l)) as [H|H].
  - now rewrite Nat.min_r.
  - rewrite Nat.min_l, firstn_all by assumption.
    symmetry. now apply firstn_all2.
Qed.

(** ** C strings *)

Lemma nul_free_app (a b : bytes) :
  nul_free (a ++ b) = nul_free a && nul_free b.
Proof. apply forallb_app. Qed.

(** A NUL-free string followed by its terminator reads back as itself,
    whatever comes after. *)
Lemma c_str_app (s rest : bytes) :
  nul_free s = true -> c_str (s ++ NUL :: rest) = Done s.
Proof.
  induction s as [|c s IH]; simpl; intros H; [reflexivity|].
  apply andb_true_iff in H as [Hc Hs].
  apply negb_true_iff in Hc. rewrite Hc, (IH Hs). reflexivity.
Qed.

Lemma load_app (pre s rest : bytes) :
  nul_free s = true -> load (pre ++ s ++ NUL :: rest) (PBuf (length pre)) = Done s.
Proof. intros H. simpl. rewrite skipn_length_app. now apply c_str_app. Qed.

(** ** Words *)

Lemma fields_word (delim w : bytes) :
  no_delims delim w = true -> fields delim w = [w].
Proof.
  induction w as [|c w IH]; simpl; intros H; [reflexivity|].
  apply andb_true_iff in H as [Hc Hw]. apply negb_true_iff in Hc.
  now rewrite Hc, (IH Hw).
Qed.

Lemma fields_word_app (delim w : bytes) (c : ascii) (rest : bytes) :
  no_delims delim w = true -> is_delim delim c = true ->
  fields delim (w ++ c :: rest) = w :: fields delim rest.
Proof.
  intros Hw Hc. induction w as [|x w IH]; simpl.
  - now rewrite Hc.
  - simpl in Hw. apply andb_true_iff in Hw as [Hx Hw].
    apply negb_true_iff in Hx. now rewrite Hx, (IH Hw).
Qed.

Lemma words_delims_app (delim ds s : bytes) :
  all_delims delim ds = true -> words delim (ds ++ s) = words delim s.
Proof.
  unfold words. induction ds as [|c ds IH]; simpl; intros H; [reflexivity|].
  apply andb_true_iff in H as [Hc Hds]. rewrite Hc. simpl. now apply IH.
Qed.

Lemma words_all_delims (delim ds : bytes) :
  all_delims delim ds = true -> words delim ds = [].
Proof.
  intros H. rewrite <- (app_nil_r ds), words_delims_app by assumption.
  reflexivity.
Qed.

Lemma words_word (delim w : bytes) :
  w <> [] -> no_delims delim w = true -> words delim w = [w].
Proof.
  intros Hne Hw. unfold words. rewrite fields_word by assumption.
  destruct w; [contradiction|reflexivity].
Qed.

Lemma words_word_app (delim w : bytes) (c : ascii) (rest : bytes) :
  w <> [] -> no_delims delim w = true -> is_delim delim c = true ->
  words delim (w ++ c :: rest) = w :: words delim rest.
Proof.
  intros Hne Hw Hc. unfold words. rewrite fields_word_app by assumption.
  destruct w; [contradiction|reflexivity].
Qed.

Lemma shape_word (delim s : bytes) :
  (exists w, s = w /\ no_delims delim w = true) \/
  (exists w c rest, s = w ++ c :: rest /\ no_delims delim w = true /\
                    is_delim delim c = true).
Proof.
  induction s as [|x s IH].
  - left. now exists [].
  - destruct (is_delim delim x) eqn:Hx.
    + right. exists [], x, s. auto.
    + destruct IH as [(w & -> & Hw) | (w & c & rest & -> & Hw & Hc)].
      * left. exists (x :: w). split; [reflexivity|]. simpl. now rewrite Hx.
      * right. exists (x :: w), c, rest. repeat split; auto.
        simpl. now rewrite Hx.
Qed.

Lemma shape_total (delim s : bytes) : shape delim s.
Proof.
  induction s as [|x s IH].
  - now apply ShapeBlank.
  - destruct (is_delim delim x) eqn:Hx.
    + destruct IH as [Hb | ds w E Hds Hne Hw | ds w c rest E Hds Hne Hw Hc].
      * apply ShapeBlank. simpl. now rewrite Hx.
      * apply (ShapeLast _ _ (x :: ds) w); auto.
        -- now rewrite E.
        -- simpl. now rewrite Hx.
      * apply (ShapeMore _ _ (x :: ds) w c rest); auto.
        -- now rewrite E.
        -- simpl. now rewrite Hx.
    + destruct (shape_word delim s) as [(w & -> & Hw) | (w & c & rest & -> & Hw & Hc)].
      * apply (ShapeLast _ _ [] (x :: w)); auto; try discriminate.
        simpl. now rewrite Hx.
      * apply (ShapeMore _ _ [] (x :: w) c rest); auto; try discriminate.
        simpl. now rewrite Hx.
Qed.

(** ** [strtok] *)

Lemma strspn_app (delim ds : bytes) (x : ascii) (rest : bytes) :
  all_delims delim ds = true -> nul_free ds = true ->
  is_nul x || negb (is_delim delim x) = true ->
  strspn delim (ds ++ x :: rest) = Done (length ds).
Proof.
  intros Hds Hnf Hx. induction ds as [|c ds IH]; simpl.
  - destruct (is_nul x); [reflexivity|]. simpl in Hx.
    apply negb_true_iff in Hx. now rewrite Hx.
  - simpl in Hds, Hnf.
    apply andb_true_iff in Hds as [Hc Hds].
    apply andb_true_iff in Hnf as [Hn Hnf]. apply negb_true_iff in Hn.
    now rewrite Hn, Hc, (IH Hds Hnf).
Qed.

Lemma strcspn_app (delim w : bytes) (x : ascii) (rest : bytes) :
  no_delims delim w = true -> nul_free w = true ->
  is_nul x || is_delim delim x = true ->
  strcspn delim (w ++ x :: rest) = Done (length w).
Proof.
  intros Hw Hnf Hx. induction w as [|c w IH]; simpl.
  - destruct (is_nul x); [reflexivity|]. simpl in Hx. now rewrite Hx.
  - simpl in Hw, Hnf.
    apply andb_true_iff in Hw as [Hc Hw]. apply negb_true_iff in Hc.
    apply andb_true_iff in Hnf as [Hn Hnf]. apply negb_true_iff in Hn.
    now rewrite Hn, Hc, (IH Hw Hnf).
Qed.

Lemma after_refl (pre rem post : bytes) :
  after pre rem post (pre ++ rem ++ NUL :: post).
Proof. now exists rem. Qed.

Lemma is_nul_NUL : is_nul NUL = true.
Proof. reflexivity. Qed.

Lemma skipn_app_plus {A : Type} (pre t : list A) (n : nat) :
  skipn (length pre + n) (pre ++ t) = skipn n t.
Proof. induction pre; simpl; auto. Qed.

Lemma peek_app_plus (pre t : bytes) (n : nat) :
  peek (pre ++ t) (length pre + n) = peek t n.
Proof. unfold peek. induction pre; simpl; auto. Qed.

Lemma upd_app_plus {A : Type} (pre t : list A) (n : nat) (v : A) :
  upd (length pre + n) v (pre ++ t) = pre ++ upd n v t.
Proof. induction pre; simpl; congruence. Qed.

(** [strtok] on a buffer that continues with delimiters [ds], a word [w]
    and a byte [x] closing the word. *)
Lemma strtok_word (delim pre ds w : bytes) (x : ascii) (post : bytes) :
  all_delims delim ds = true -> nul_free ds = true ->
  w <> [] -> no_delims delim w = true -> nul_free w = true ->
  is_nul x || is_delim delim x = true ->
  strtok delim (pre ++ ds ++ w ++ x :: post) (length pre)
  = Done (Some (PBuf (length pre + length ds)),
          pre ++ ds ++ w ++ NUL :: post,
          if is_nul x then (length pre + length ds + length w)%nat
          else S (length pre + length ds + length w)).
Proof.
  intros Hds Hnds Hne Hw Hnw Hx. unfold strtok.
  rewrite skipn_length_app.
  assert (Hy : exists y w', w = y :: w' /\ is_nul y = false
                            /\ is_delim delim y = false).
  { destruct w as [|y w']; [contradiction|]. exists y, w'.
    simpl in Hw, Hnw.
    apply andb_true_iff in Hw as [Hy _]. apply andb_true_iff in Hnw as [Hny _].
    now apply negb_true_iff in Hy; apply negb_true_iff in Hny. }
  destruct Hy as (y & w' & Ew & Hny & Hdy).
  assert (Espn : strspn delim (ds ++ w ++ x :: post) = Done (length ds)).
  { rewrite Ew. apply strspn_app; auto. rewrite Hdy. apply orb_true_r. }
  rewrite Espn. cbn [bind].
  assert (Epk : peek (pre ++ ds ++ w ++ x :: post) (length pre + length ds)
                = Done y).
  { rewrite peek_app_plus, Ew. apply (peek_app ds y). }
  rewrite Epk. cbn [bind]. rewrite Hny.
  assert (Eskip : skipn (length pre + length ds) (pre ++ ds ++ w ++ x :: post)
                  = w ++ x :: post).
  { rewrite skipn_app_plus. apply skipn_length_app. }
  rewrite Eskip, strcspn_app by assumption. cbn [bind].
  assert (Epk2 : peek (pre ++ ds ++ w ++ x :: post)
                      (length pre + length ds + length w) = Done x).
  { rewrite <- Nat.add_assoc, !peek_app_plus. apply peek_app. }
  rewrite Epk2. cbn [bind].
  destruct (is_nul x) eqn:Hnx.
  - apply Ascii.eqb_eq in Hnx. now subst x.
  - rewrite <- Nat.add_assoc, !upd_app_plus, upd_app. reflexivity.
Qed.

(** [strtok] on a buffer with nothing but delimiters left. *)
Lemma strtok_blank (delim pre ds post : bytes) :
  all_delims delim ds = true -> nul_free ds = true ->
  strtok delim (pre ++ ds ++ NUL :: post) (length pre)
  = Done (None, pre ++ ds ++ NUL :: post, (length pre + length ds)%nat).
Proof.
  intros Hds Hnds. unfold strtok. rewrite skipn_length_app.
  rewrite strspn_app by auto. cbn [bind].
  rewrite peek_app_plus, peek_app. reflexivity.
Qed.

(** One call of [strtok] on a buffer whose unread part is [rem]: either no
    word is left, or the first word of [rem] is returned, readable at the
    returned pointer from then on, and the unread part got shorter. *)
Lemma strtok_spec (delim pre rem post : bytes) :
  nul_free rem = true ->
  (words delim rem = [] /\
   exists save,
     strtok delim (pre ++ rem ++ NUL :: post) (length pre)
     = Done (None, pre ++ rem ++ NUL :: post, save))
  \/
  (exists w rem1 pre1 q,
     words delim rem = w :: words delim rem1 /\
     strtok delim (pre ++ rem ++ NUL :: post) (length pre)
     = Done (Some (PBuf q), pre1 ++ rem1 ++ NUL :: post, length pre1) /\
     nul_free rem1 = true /\ (length rem1 < length rem)%nat /\
     forall b, after pre1 rem1 post b ->
               after pre rem post b /\ load b (PBuf q) = Done w).
Proof.
  intros Hnf.
  destruct (shape_total delim rem)
    as [Hb | ds w E Hds Hne Hw | ds w c rest E Hds Hne Hw Hc].
  - (* only delimiters are left *)
    left. split; [now apply words_all_delims|].
    rewrite strtok_blank by assumption. eauto.
  - (* the last word, closed by the terminator of the buffer *)
    right. subst rem.
    rewrite !nul_free_app in Hnf. apply andb_true_iff in Hnf as [Hnds Hnw].
    exists w, [], (pre ++ ds ++ w), (length pre + length ds)%nat.
    split.
    { rewrite words_delims_app, words_word by auto. reflexivity. }
    split.
    { rewrite <- app_assoc, strtok_word by auto.
      rewrite is_nul_NUL, !length_app, <- !app_assoc, Nat.add_assoc.
      reflexivity. }
    split; [reflexivity|].
    split.
    { rewrite length_app. destruct w; [contradiction|simpl; lia]. }
    intros b (rem' & Hlen & ->).
    destruct rem'; [|discriminate]. simpl app.
    split.
    + exists (ds ++ w). split; [reflexivity|].
      now rewrite <- !app_assoc.
    + rewrite <- length_app.
      replace ((pre ++ ds ++ w) ++ NUL :: post)
        with ((pre ++ ds) ++ w ++ NUL :: post)
        by now rewrite <- !app_assoc.
      now apply load_app.
  - (* a word closed by a delimiter, which is overwritten *)
    right. subst rem.
    rewrite !nul_free_app in Hnf. apply andb_true_iff in Hnf as [Hnds Hnw].
    apply andb_true_iff in Hnw as [Hnw Hnr].
    simpl in Hnr. apply andb_true_iff in Hnr as [Hnc Hnr].
    apply negb_true_iff in Hnc.
    exists w, rest, (pre ++ ds ++ w ++ [NUL]), (length pre + length ds)%nat.
    split.
    { rewrite words_delims_app, words_word_app by auto. reflexivity. }
    split.
    { replace (pre ++ (ds ++ w ++ c :: rest) ++ NUL :: post)
        with (pre ++ ds ++ w ++ c :: (rest ++ NUL :: post))
        by (rewrite <- !app_assoc; simpl; rewrite <- ?app_assoc; reflexivity).
      rewrite strtok_word by (auto; rewrite Hc; apply orb_true_r).
      rewrite Hnc.
      replace (length (pre ++ ds ++ w ++ [NUL]))
        with (S (length pre + length ds + length w))
        by (rewrite !length_app; simpl; lia).
      rewrite <- !app_assoc. reflexivity. }
    split; [assumption|].
    split; [rewrite !length_app; simpl; lia|].
    intros b (rem' & Hlen & ->).
    split.
    + exists (ds ++ w ++ NUL :: rem'). split.
      * rewrite !length_app. simpl. rewrite ?length_app. simpl. lia.
      * rewrite <- !app_assoc. simpl. rewrite <- ?app_assoc. reflexivity.
    + rewrite <- length_app.
      replace ((pre ++ ds ++ w ++ [NUL]) ++ rem' ++ NUL :: post)
        with ((pre ++ ds) ++ w ++ NUL :: (rem' ++ NUL :: post))
        by (rewrite <- !app_assoc; simpl; rewrite <- ?app_assoc; reflexivity).
      now apply load_app.
Qed.

(** ** [tokenize] *)

Lemma tokenize_loop_none (fuel : nat) (delim : bytes) (limit : Z)
    (buf : bytes) (save : nat) (tokens : list (option cptr)) (count : Z) :
  tokenize_loop fuel delim limit None buf save tokens count
  = Done (buf, tokens, count).
Proof. destruct fuel; reflexivity. Qed.

(** The loop, entered with a word in hand: [w], found at [q]; [rem] is the
    part of the buffer no call of [strtok] has looked at; [done] are the
    slots filled so far.  It stores [k] more tokens, as many as there are
    words left or as the limit allows. *)
Lemma tokenize_loop_spec (delim : bytes) (limit : Z) (post : bytes) :
  forall (fuel : nat) (rem pre : bytes) (q : nat) (w : bytes)
         (done todo : list (option cptr)),
    (length rem < fuel)%nat ->
    nul_free rem = true ->
    (forall b, after pre rem post b -> load b (PBuf q) = Done w) ->
    let ws := w :: words delim rem in
    let k := Nat.min (length ws)
                     (Z.to_nat (limit - 1 - Z.of_nat (length done))) in
    (k <= length todo)%nat ->
    exists b qs,
      tokenize_loop fuel delim limit (Some (PBuf q))
                    (pre ++ rem ++ NUL :: post) (length pre)
                    (done ++ todo) (Z.of_nat (length done))
      = Done (b, done ++ ptrs qs ++ skipn k todo,
              Z.of_nat (length done + k))
      /\ length qs = k
      /\ reads b qs (firstn k ws)
      /\ after pre rem post b.
Proof.
  induction fuel as [|fuel IH]; intros rem pre q w done todo Hfuel Hnf Hq ws k Hk;
    [lia|].
  cbn [tokenize_loop].
  destruct (Z.of_nat (length done) <? limit - 1) eqn:Hlt.
  - (* a slot is left: store the word, look for the next one *)
    apply Z.ltb_lt in Hlt.
    assert (Hk1 : (1 <= k)%nat) by (subst k ws; simpl length; lia).
    destruct todo as [|x todo]; [simpl in Hk; lia|].
    rewrite store_app. cbn [bind].
    destruct (strtok_spec delim pre rem post Hnf)
      as [(Hws & save & E) | (w1 & rem1 & pre1 & q1 & Hws & E & Hnf1 & Hlen1 & Hb)].
    + (* that was the last word *)
      rewrite E. cbn [bind]. rewrite tokenize_loop_none.
      exists (pre ++ rem ++ NUL :: post), [q].
      assert (Ek : k = 1%nat) by (subst k ws; rewrite Hws; simpl length; lia).
      rewrite Ek. subst ws. rewrite Hws. simpl.
      repeat split.
      * now rewrite Nat2Z.inj_add.
      * constructor; [apply Hq, after_refl | constructor].
      * apply after_refl.
    + (* another word is in hand *)
      rewrite E. cbn [bind].
      assert (Hq1 : forall b, after pre1 rem1 post b -> load b (PBuf q1) = Done w1)
        by (intros b Hb'; now apply Hb).
      assert (Hlen : Z.of_nat (length (done ++ [Some (PBuf q)]))
                     = Z.of_nat (length done) + 1)
        by (rewrite length_app; simpl; lia).
      set (k' := Nat.min (length (w1 :: words delim rem1))
                   (Z.to_nat (limit - 1
                              - Z.of_nat (length (done ++ [Some (PBuf q)]))))).
      assert (Ek : k = S k').
      { subst k k' ws. rewrite Hws, Hlen. simpl length. lia. }
      destruct (IH rem1 pre1 q1 w1 (done ++ [Some (PBuf q)]) todo)
        as (b & qs & Eloop & Hqs & Hreads & Hafter);
        try assumption; try lia.
      { fold k'. simpl in Hk. lia. }
      fold k' in Eloop, Hqs, Hreads.
      exists b, (q :: qs).
      rewrite Hlen in Eloop.
      replace (done ++ Some (PBuf q) :: todo)
        with ((done ++ [Some (PBuf q)]) ++ todo)
        by now rewrite <- app_assoc.
      rewrite Eloop, Ek. repeat split.
      * replace (length (done ++ [Some (PBuf q)]) + k')%nat
          with (length done + S k')%nat by (rewrite length_app; simpl; lia).
        rewrite <- app_assoc. reflexivity.
      * simpl. now rewrite Hqs.
      * subst ws. rewrite Hws. simpl. constructor; [|assumption].
        apply Hq. now apply Hb.
      * now apply Hb.
  - (* the limit is reached *)
    apply Z.ltb_ge in Hlt.
    assert (Ek : k = 0%nat) by (subst k; lia).
    exists (pre ++ rem ++ NUL :: post), []. rewrite Ek. simpl.
    rewrite Nat.add_0_r. repeat split.
    + constructor.
    + apply after_refl.
Qed.

(** What [tokenize] does to a NUL-free string [s] in a buffer that goes on
    with the terminator and [post]: it fills [k] slots with pointers that
    read as the first [k] words of [s], puts NULL into the slot after
    them, leaves the other slots alone, and returns 0 when [k] stayed
    below [limit - 1] and -1 otherwise. *)
Lemma tokenize_spec (delim s post : bytes) (limit : Z)
    (tokens : list (option cptr)) :
  nul_free s = true ->
  let ws := words delim s in
  let k := Nat.min (length ws) (Z.to_nat (limit - 1)) in
  (k < length tokens)%nat ->
  exists b qs,
    tokenize (s ++ NUL :: post) delim tokens limit
    = Done (mkTokenized (if Z.of_nat k <? limit - 1 then 0 else -1) b
                        (ptrs qs ++ None :: skipn (S k) tokens)
                        (Z.of_nat k))
    /\ length qs = k
    /\ reads b qs (firstn k ws)
    /\ after [] s post b.
Proof.
  intros Hnf ws k Hk. unfold tokenize.
  destruct (strtok_spec delim [] s post Hnf)
    as [(Hws & save & E) | (w1 & rem1 & pre1 & q1 & Hws & E & Hnf1 & Hlen1 & Hb)];
    simpl app in E; simpl length in E; rewrite E; cbn [bind].
  - (* no word at all *)
    assert (Ek : k = 0%nat) by (subst k ws; rewrite Hws; simpl; lia).
    rewrite tokenize_loop_none. cbn [bind].
    destruct tokens as [|x tokens]; [simpl in Hk; lia|].
    exists (s ++ NUL :: post), []. rewrite Ek. simpl.
    repeat split.
    + constructor.
    + apply (after_refl [] s post).
  - destruct (tokenize_loop_spec delim limit post (length (s ++ NUL :: post))
                rem1 pre1 q1 w1 [] tokens)
      as (b & qs & Eloop & Hqs & Hreads & Hafter); try assumption.
    { rewrite length_app. simpl. lia. }
    { intros b Hb'. now apply Hb. }
    { simpl length. rewrite Z.sub_0_r. fold ws in Hws. subst k.
      rewrite Hws in Hk. simpl length in Hk. lia. }
    simpl length in Eloop, Hqs, Hreads. rewrite Z.sub_0_r in Eloop, Hqs, Hreads.
    assert (Ek : Nat.min (S (length (words delim rem1))) (Z.to_nat (limit - 1)) = k).
    { subst k ws. rewrite Hws. reflexivity. }
    rewrite Ek in Eloop, Hqs, Hreads. simpl in Eloop.
    rewrite Eloop. cbn [bind].
    assert (Hsplit : skipn k tokens
                     = nth k tokens None :: skipn (S k) tokens).
    { clear -Hk. revert tokens Hk. induction k as [|k IHk]; intros [|x t] H;
        simpl in H; try lia; [reflexivity|].
      simpl. apply IHk. lia. }
    rewrite Hsplit.
    replace (Z.of_nat k) with (Z.of_nat (length (ptrs qs)))
      by (unfold ptrs; now rewrite length_map, Hqs).
    rewrite store_app. cbn [bind].
    replace (Z.of_nat (length (ptrs qs))) with (Z.of_nat k)
      by (unfold ptrs; now rewrite length_map, Hqs).
    exists b, qs. repeat split; try assumption.
    + subst ws. now rewrite Hws.
    + now apply (Hb b).
Qed.

(** ** [cd]: the path under construction *)

Lemma reads_load_arg (b : bytes) (qs : list nat) (ws : list bytes) :
  reads b qs ws ->
  Forall2 (fun it v => load_arg b it = Done v) (ptrs qs) ws.
Proof.
  induction 1; simpl; constructor; auto.
Qed.

Lemma add_path_items_spec (buf : bytes) (items : list (option cptr))
    (vs : list bytes) :
  Forall2 (fun it v => load_arg buf it = Done v) items vs ->
  forall (done rest : list (option cptr)) (p : bytes),
    add_path_items (length items) (Z.of_nat (length done)) buf
                   (done ++ items ++ rest) p
    = append_items p vs.
Proof.
  induction 1 as [|it v items vs Hit _ IH]; intros done rest p; [reflexivity|].
  cbn [length add_path_items append_items].
  destruct (strcat PATH_MAX p (str "/")) as [p1| |]; cbn [bind]; try reflexivity.
  change ((it :: items) ++ rest) with (it :: items ++ rest).
  rewrite fetch_app. cbn [bind]. rewrite Hit. cbn [bind].
  destruct (strcat PATH_MAX p1 v) as [p2| |]; cbn [bind]; try reflexivity.
  replace (done ++ it :: items ++ rest) with ((done ++ [it]) ++ items ++ rest)
    by now rewrite <- app_assoc.
  replace (Z.of_nat (length done) + 1) with (Z.of_nat (length (done ++ [it])))
    by (rewrite length_app; simpl; lia).
  apply IH.
Qed.

Lemma append_items_fits (items : list bytes) :
  forall p : bytes,
    Z.of_nat (length (p ++ joined items)) < PATH_MAX ->
    append_items p items = Done (p ++ joined items).
Proof.
  unfold joined.
  induction items as [|s items IH]; intros p Hfit; simpl.
  - now rewrite app_nil_r.
  - simpl in Hfit. rewrite !length_app in Hfit. simpl in Hfit.
    rewrite length_app in Hfit.
    unfold strcat at 1. simpl length.
    replace (Z.of_nat (length p + 1) <? PATH_MAX) with true
      by (symmetry; apply Z.ltb_lt; lia).
    cbn [bind]. unfold strcat at 1. rewrite length_app. simpl length.
    replace (Z.of_nat (length p + 1 + length s) <? PATH_MAX) with true
      by (symmetry; apply Z.ltb_lt; lia).
    cbn [bind]. rewrite IH.
    + rewrite <- !app_assoc. reflexivity.
    + rewrite !length_app. simpl. lia.
Qed.

Lemma path_slots_length : length path_slots = Z.to_nat PATH_MAX.
Proof. apply repeat_length. Qed.

(** [cd_new_path] builds what [new_path_of_segments] says. *)
Lemma cd_new_path_segments (w : world) (given_path : option bytes) :
  match given_path with Some g => nul_free g = true | None => True end ->
  cd_new_path w given_path = new_path_of_segments w given_path.
Proof.
  destruct given_path as [g|]; [|reflexivity].
  intros Hnf. unfold cd_new_path, new_path_of_segments.
  assert (Hpeek : peek (g ++ [NUL]) 0
                  = Done (match g with c :: _ => c | [] => NUL end))
    by (destruct g; reflexivity).
  rewrite Hpeek. cbn [bind].
  assert (Hrooted : Ascii.eqb (match g with c :: _ => c | [] => NUL end) "/"
                    = rooted g) by (destruct g; reflexivity).
  rewrite Hrooted. clear Hpeek Hrooted.
  destruct (tokenize_spec (str "/") g [] BIG_NUM path_slots Hnf)
    as (b & qs & Etok & Hqs & Hreads & _).
  { rewrite path_slots_length. unfold BIG_NUM, PATH_MAX. lia. }
  rewrite Etok. cbn [bind tk_buf tk_tokens tk_count].
  rewrite firstn_min_length in Hreads. fold (segments g) in Hreads.
  set (k := Nat.min (length (words (str "/") g)) (Z.to_nat (BIG_NUM - 1))) in *.
  set (rest_slots := skipn (S k) path_slots).
  destruct Hreads as [|q0 s0 qs' segs' Hq0 Hreads'].
  - (* no segment: path[0] is NULL *)
    reflexivity.
  - simpl ptrs. simpl app. rewrite fetch_head. cbn [bind load_arg]. rewrite Hq0. cbn [bind].
    simpl in Hqs.
    assert (Hitems : Forall2 (fun it v => load_arg b it = Done v)
                             (ptrs qs') segs')
      by now apply reads_load_arg.
    assert (Hlen : length (ptrs qs') = length qs')
      by (unfold ptrs; apply length_map).
    destruct (bytes_eqb s0 (str "~")).
    { destruct (getenv (str "HOME") (w_env w)) as [h|]; [|reflexivity].
      cbn [option_map load_arg load bind].
      destruct (strcpy PATH_MAX h) as [p| |]; cbn [bind]; try reflexivity.
      rewrite store_head. cbn [bind app]. rewrite <- Hqs, Nat2Z.id.
      pose proof (add_path_items_spec b (Some (PLit []) :: ptrs qs')
                    ([] :: segs')
                    (Forall2_cons _ _ (eq_refl : load_arg b (Some (PLit [])) = Done [])
                                  Hitems)
                    [] (None :: rest_slots) p) as Hadd.
      cbn [length app] in Hadd. rewrite Hlen in Hadd.
      change (Z.of_nat 0) with 0 in Hadd. simpl app in Hadd.
      rewrite Hadd. reflexivity. }
    destruct (bytes_eqb s0 (str "-")).
    { destruct (getenv (str "OLDPWD") (w_env w)) as [o|]; [|reflexivity].
      cbn [option_map load_arg load bind].
      destruct (strcpy PATH_MAX o) as [p| |]; reflexivity. }
    pose proof (add_path_items_spec b (Some (PBuf q0) :: ptrs qs')
                  (s0 :: segs')
                  (Forall2_cons _ _ (Hq0 : load_arg b (Some (PBuf q0)) = Done s0)
                                Hitems)
                  [] (None :: rest_slots)) as Hadd.
    cbn [length app] in Hadd. rewrite Hlen in Hadd.
    change (Z.of_nat 0) with 0 in Hadd. simpl app in Hadd.
    destruct (rooted g).
    + destruct (strcpy PATH_MAX (str "/")) as [p| |]; cbn [bind]; try reflexivity.
      rewrite <- Hqs, Nat2Z.id, Hadd. reflexivity.
    + destruct (read_buffer (getcwd w)) as [c| |]; cbn [bind]; try reflexivity.
      destruct (strcat PATH_MAX [] c) as [p| |]; cbn [bind]; try reflexivity.
      rewrite <- Hqs, Nat2Z.id, Hadd. reflexivity.
Qed.

(** ** [tokenize] returns

    Whatever the buffer holds, the rounds of the loop never use up the
    length of the buffer: every [strtok] call that finds a word moves the
    saved position forward, and it stays inside the buffer. *)

Section Progress.

Variable delim : bytes.

Lemma strspn_stops (s : bytes) :
  forall n c, strspn delim s = Done n -> nth_error s n = Some c ->
              is_nul c = true \/ is_delim delim c = false.
Proof.
  induction s as [|x s IH]; intros n c; simpl; [discriminate|].
  destruct (is_nul x) eqn:Hn.
  - intros E. injection E as <-. simpl. intros E. injection E as <-. auto.
  - destruct (is_delim delim x) eqn:Hd.
    + destruct (strspn delim s) as [m| |]; simpl; try discriminate.
      intros E. injection E as <-. simpl. now apply IH.
    + intros E. injection E as <-. simpl. intros E. injection E as <-. auto.
Qed.

Lemma strcspn_word (c : ascii) (s : bytes) (m : nat) :
  is_nul c = false -> is_delim delim c = false ->
  strcspn delim (c :: s) = Done m -> (1 <= m)%nat.
Proof.
  intros Hn Hd. simpl. rewrite Hn, Hd.
  destruct (strcspn delim s); simpl; try discriminate.
  intros E. injection E as <-. lia.
Qed.

Lemma peek_inside (buf : bytes) (p : nat) (c : ascii) :
  peek buf p = Done c -> nth_error buf p = Some c /\ (p < length buf)%nat.
Proof.
  unfold peek. destruct (nth_error buf p) eqn:E; [|discriminate].
  intros H. injection H as <-. split; [reflexivity|].
  apply nth_error_Some. congruence.
Qed.

(** A call that finds a word leaves the saved position further on, still
    inside the buffer, whose length it does not change. *)
Lemma strtok_progress (buf : bytes) (save : nat) (p : cptr) (buf' : bytes)
    (save' : nat) :
  strtok delim buf save = Done (Some p, buf', save') ->
  (save < save')%nat /\ (save' <= length buf')%nat
  /\ length buf' = length buf.
Proof.
  unfold strtok.
  destruct (strspn delim (skipn save buf)) as [n| |] eqn:En; simpl;
    try discriminate.
  destruct (peek buf (save + n)) as [c| |] eqn:Ec; simpl; try discriminate.
  destruct (is_nul c) eqn:Hc; [discriminate|].
  destruct (strcspn delim (skipn (save + n) buf)) as [m| |] eqn:Em; simpl;
    try discriminate.
  destruct (peek buf (save + n + m)) as [d| |] eqn:Ed; simpl; try discriminate.
  apply peek_inside in Ec as [Ec Hin]. apply peek_inside in Ed as [Ed Hin'].
  assert (Hm : (1 <= m)%nat).
  { assert (Hc' : nth_error (skipn save buf) n = Some c)
      by now rewrite nth_error_skipn.
    destruct (strspn_stops _ _ _ En Hc') as [H|H]; [congruence|].
    assert (Hsk : skipn (save + n) buf = c :: skipn (S (save + n)) buf).
    { rewrite <- (firstn_skipn_middle _ _ Ec) at 1.
      assert (Hl : length (firstn (save + n) buf) = (save + n)%nat)
        by (rewrite length_firstn; lia).
      rewrite <- Hl at 1. apply skipn_length_app. }
    rewrite Hsk in Em. exact (strcspn_word c _ m Hc H Em). }
  destruct (is_nul d); intros E; injection E as _ <- <-.
  - repeat split; lia.
  - rewrite upd_length. repeat split; lia.
Qed.

Lemma store_no_fuel {A : Type} (a : list A) (i : Z) (v : A) :
  store a i v <> OutOfFuel.
Proof. unfold store. destruct (_ && _); discriminate. Qed.

Lemma peek_no_fuel (buf : bytes) (p : nat) : peek buf p <> OutOfFuel.
Proof. unfold peek. destruct (nth_error buf p); discriminate. Qed.

Lemma strspn_no_fuel (s : bytes) : strspn delim s <> OutOfFuel.
Proof.
  induction s as [|c s IH]; simpl; [discriminate|].
  destruct (is_nul c); [discriminate|].
  destruct (is_delim delim c); [|discriminate].
  destruct (strspn delim s); simpl; congruence.
Qed.

Lemma strcspn_no_fuel (s : bytes) : strcspn delim s <> OutOfFuel.
Proof.
  induction s as [|c s IH]; simpl; [discriminate|].
  destruct (is_nul c); [discriminate|].
  destruct (is_delim delim c); [discriminate|].
  destruct (strcspn delim s); simpl; congruence.
Qed.

Lemma strtok_no_fuel (buf : bytes) (save : nat) :
  strtok delim buf save <> OutOfFuel.
Proof.
  unfold strtok.
  pose proof (strspn_no_fuel (skipn save buf)) as H1.
  destruct (strspn delim (skipn save buf)) as [n| |]; simpl;
    try discriminate; try contradiction.
  pose proof (peek_no_fuel buf (save + n)) as H2.
  destruct (peek buf (save + n)) as [c| |]; simpl;
    try discriminate; try contradiction.
  destruct (is_nul c); [discriminate|].
  pose proof (strcspn_no_fuel (skipn (save + n) buf)) as H3.
  destruct (strcspn delim (skipn (save + n) buf)) as [m| |]; simpl;
    try discriminate; try contradiction.
  pose proof (peek_no_fuel buf (save + n + m)) as H4.
  destruct (peek buf (save + n + m)) as [d| |]; simpl;
    try discriminate; try contradiction.
  destruct (is_nul d); discriminate.
Qed.

Lemma tokenize_loop_fuel (limit : Z) :
  forall (fuel : nat) (word : option cptr) (buf : bytes) (save : nat)
         (tokens : list (option cptr)) (count : Z),
    (length buf - save < fuel)%nat -> (save <= length buf)%nat ->
    tokenize_loop fuel delim limit word buf save tokens count <> OutOfFuel.
Proof.
  induction fuel as [|fuel IH]; intros word buf save tokens count Hf Hs;
    [lia|].
  cbn [tokenize_loop]. destruct word as [w|]; [|discriminate].
  destruct (count <? limit - 1); [|discriminate].
  pose proof (store_no_fuel tokens count (Some w)) as Hst.
  destruct (store tokens count (Some w)) as [tokens'| |]; cbn [bind];
    try discriminate; try contradiction.
  pose proof (strtok_no_fuel buf save) as Htk.
  destruct (strtok delim buf save) as [[[word' buf'] save']| |] eqn:E;
    cbn [bind]; try discriminate; try contradiction.
  destruct word' as [p|].
  - apply strtok_progress in E as (H1 & H2 & H3). apply IH; lia.
  - rewrite tokenize_loop_none. discriminate.
Qed.

(** X2.  The loop of [tokenize] ends, whatever the buffer, the delimiters,
    the array and the limit are: the rounds the model allows, one for
    every byte of the buffer, are never used up. *)
Lemma tokenize_returns (string : bytes) (tokens : list (option cptr))
    (token_count : Z) :
  tokenize string delim tokens token_count <> OutOfFuel.
Proof.
  unfold tokenize.
  pose proof (strtok_no_fuel string 0) as Htk.
  destruct (strtok delim string 0) as [[[word buf] save]| |] eqn:E;
    cbn [bind]; try discriminate; try contradiction.
  assert (Hloop : tokenize_loop (length string) delim token_count word buf
                                save tokens 0 <> OutOfFuel).
  { destruct word as [p|].
    - apply strtok_progress in E as (H1 & H2 & H3).
      rewrite <- H3. apply tokenize_loop_fuel; lia.
    - rewrite tokenize_loop_none. discriminate. }
  destruct (tokenize_loop _ _ _ _ _ _ _ _) as [[[buf' tokens'] count]| |];
    cbn [bind]; try contradiction; try discriminate.
  pose proof (store_no_fuel tokens' count None) as Hst.
  destruct (store tokens' count None); cbn [bind];
    try discriminate; contradiction.
Qed.

End Progress.

(** ** What [tokenize] delivers *)

Lemma read_argv_ptrs (b : bytes) (qs : list nat) (ws : list bytes)
    (rest : list (option cptr)) :
  reads b qs ws -> read_argv b (ptrs qs ++ None :: rest) = Done ws.
Proof.
  induction 1 as [|q w qs ws Hq _ IH]; simpl; [reflexivity|].
  simpl in Hq. now rewrite Hq, IH.
Qed.

Lemma fetch_ptrs_end (qs : list nat) (rest : list (option cptr)) :
  fetch (ptrs qs ++ None :: rest) (Z.of_nat (length qs)) = Done None.
Proof.
  replace (length qs) with (length (ptrs qs))
    by (unfold ptrs; apply length_map).
  apply fetch_app.
Qed.

(** X1.  [tokenize] on any string, with room for [limit] slots: it returns -1
    exactly when the words of the string are at least [limit - 1], that
    is, also when they all fit; it stores the first [limit - 1] words at
    most, closes them with NULL, and leaves the slots from [limit] on as
    they were. *)
Lemma tokenize_ret (delim s : bytes) (limit : Z) (tokens : list (option cptr)) :
  nul_free s = true -> 1 <= limit -> limit <= Z.of_nat (length tokens) ->
  exists t,
    tokenize (s ++ [NUL]) delim tokens limit = Done t
    /\ (tk_ret t = -1 <-> limit - 1 <= Z.of_nat (length (words delim s)))
    /\ (tk_ret t = 0 <-> Z.of_nat (length (words delim s)) < limit - 1)
    /\ tk_count t = Z.min (Z.of_nat (length (words delim s))) (limit - 1)
    /\ read_argv (tk_buf t) (tk_tokens t)
       = Done (firstn (Z.to_nat (limit - 1)) (words delim s))
    /\ length (tk_tokens t) = length tokens
    /\ skipn (Z.to_nat limit) (tk_tokens t) = skipn (Z.to_nat limit) tokens.
Proof.
  intros Hnf Hlim Hcap.
  destruct (tokenize_spec delim s [] limit tokens Hnf)
    as (b & qs & E & Hqs & Hreads & _); [lia|].
  set (k := Nat.min (length (words delim s)) (Z.to_nat (limit - 1))) in *.
  eexists. split; [exact E|]. cbn [tk_ret tk_count tk_tokens tk_buf].
  assert (Hlen : length (ptrs qs ++ None :: skipn (S k) tokens) = length tokens).
  { rewrite length_app. unfold ptrs. rewrite length_map, Hqs.
    cbn [length]. rewrite length_skipn. lia. }
  assert (Hskip : skipn (Z.to_nat limit) (ptrs qs ++ None :: skipn (S k) tokens)
                  = skipn (Z.to_nat limit) tokens).
  { replace (ptrs qs ++ None :: skipn (S k) tokens)
      with ((ptrs qs ++ [None]) ++ skipn (S k) tokens)
      by now rewrite <- app_assoc.
    assert (Hpre : length (ptrs qs ++ [None]) = S k)
      by (rewrite length_app; unfold ptrs; rewrite length_map, Hqs;
          simpl; lia).
    replace (Z.to_nat limit) with (length (ptrs qs ++ [None])
                                   + (Z.to_nat limit - S k))%nat by lia.
    rewrite skipn_app_plus, skipn_skipn. f_equal. lia. }
  assert (Hread : read_argv b (ptrs qs ++ None :: skipn (S k) tokens)
                  = Done (firstn (Z.to_nat (limit - 1)) (words delim s))).
  { rewrite <- firstn_min_length. now apply read_argv_ptrs. }
  destruct (Z.of_nat k <? limit - 1) eqn:Hk.
  - apply Z.ltb_lt in Hk. repeat split; intros; try lia; try discriminate;
      assumption.
  - apply Z.ltb_ge in Hk. repeat split; intros; try lia; try discriminate;
      assumption.
Qed.

Lemma tokenize_ret_witness :
  nul_free (str "a  b c d") = true
  /\ 1 <= 3
  /\ 3 <= Z.of_nat (length [@None cptr; None; None; Some (PLit (str "old"))])
  /\ exists t,
       tokenize (str "a  b c d" ++ [NUL]) whitespace
                [None; None; None; Some (PLit (str "old"))] 3 = Done t
       /\ tk_ret t = -1
       /\ tk_count t = 2
       /\ read_argv (tk_buf t) (tk_tokens t) = Done [str "a"; str "b"]
       /\ skipn 3 (tk_tokens t) = [Some (PLit (str "old"))].
Proof.
  split; [reflexivity|].
  split; [discriminate|].
  split; [vm_compute; discriminate|].
  destruct (tokenize_ret whitespace (str "a  b c d") 3
              [None; None; None; Some (PLit (str "old"))])
    as (t & E & Hret & _ & Hcount & Hread & _ & Hskip).
  - reflexivity.
  - discriminate.
  - vm_compute. discriminate.
  - exists t. split; [exact E|].
    split; [apply Hret; vm_compute; discriminate|].
    split; [exact Hcount|]. split; [exact Hread|exact Hskip].
Defined.

(** With no slot at all, the closing NULL lands outside the array. *)
Example tokenize_without_slots :
  tokenize (str "a" ++ [NUL]) whitespace [] 0 = Undefined BufferOverflow.
Proof. reflexivity. Qed.

(** C4.  A string of N words, N below the capacity, is tokenized into
    exactly its N words, in order: reading the token array up to its first
    NULL gives the words of the string, the count is N and the slot at
    index N holds NULL.  A string of delimiters only, the empty string
    included, gives no token and NULL in slot 0. *)
Theorem tokenize_yields_words (delim s : bytes) (limit : Z)
    (tokens : list (option cptr)) :
  nul_free s = true ->
  Z.of_nat (length (words delim s)) < limit ->
  limit <= Z.of_nat (length tokens) ->
  exists t,
    tokenize (s ++ [NUL]) delim tokens limit = Done t
    /\ tk_count t = Z.of_nat (length (words delim s))
    /\ read_argv (tk_buf t) (tk_tokens t) = Done (words delim s)
    /\ fetch (tk_tokens t) (Z.of_nat (length (words delim s))) = Done None
    /\ (all_delims delim s = true ->
        tk_count t = 0 /\ fetch (tk_tokens t) 0 = Done None).
Proof.
  intros Hnf HN Hcap.
  destruct (tokenize_spec delim s [] limit tokens Hnf)
    as (b & qs & E & Hqs & Hreads & _); [lia|].
  assert (Ek : Nat.min (length (words delim s)) (Z.to_nat (limit - 1))
               = length (words delim s)) by lia.
  rewrite Ek in E, Hqs, Hreads. rewrite firstn_all in Hreads.
  eexists. split; [exact E|]. cbn [tk_count tk_buf tk_tokens].
  split; [reflexivity|].
  split; [now apply read_argv_ptrs|].
  split; [rewrite <- Hqs; apply fetch_ptrs_end|].
  intros Hblank. rewrite (words_all_delims _ _ Hblank) in *.
  destruct qs; [|discriminate]. split; reflexivity.
Qed.

Lemma tokenize_yields_words_witness :
  nul_free (str "ls  -l /tmp") = true
  /\ Z.of_nat (length (words whitespace (str "ls  -l /tmp"))) < 4
  /\ 4 <= Z.of_nat (length [@None cptr; None; None; None; None])
  /\ exists t,
       tokenize (str "ls  -l /tmp" ++ [NUL]) whitespace
                [None; None; None; None; None] 4 = Done t
       /\ tk_count t = Z.of_nat (length (words whitespace (str "ls  -l /tmp")))
       /\ read_argv (tk_buf t) (tk_tokens t)
          = Done (words whitespace (str "ls  -l /tmp"))
       /\ fetch (tk_tokens t)
                (Z.of_nat (length (words whitespace (str "ls  -l /tmp"))))
          = Done None
       /\ (all_delims whitespace (str "ls  -l /tmp") = true ->
           tk_count t = 0 /\ fetch (tk_tokens t) 0 = Done None).
Proof.
  split; [reflexivity|].
  split; [vm_compute; reflexivity|].
  split; [vm_compute; discriminate|].
  apply (tokenize_yields_words whitespace (str "ls  -l /tmp") 4
                               [None; None; None; None; None]).
  - reflexivity.
  - vm_compute. reflexivity.
  - vm_compute. discriminate.
Defined.

(** C3.  Two words and capacity three: both words and the NULL after them
    fit into the three slots, and [tokenize] stores them, yet it returns
    -1.  In the shell the same happens to a line of 2047 words, which fits
    the 2048 slots of [command_args]: it is answered with "Exceeded
    length" and nothing is run. *)
Theorem tokenize_full_is_overflow :
  words whitespace (str "a b") = [str "a"; str "b"]
  /\ tokenize (str "a b" ++ [NUL]) whitespace [None; None; None] 3
     = Done (mkTokenized (-1) (str "a" ++ NUL :: str "b" ++ [NUL])
                         [Some (PBuf 0); Some (PBuf 2); None] 2)
  /\ Z.of_nat (length (words whitespace (line_of_words 2047))) = BIG_NUM - 1
  /\ exists sh,
       shell_iteration (demo_os 4242) (demo_shell (str "/home/u"))
                       (line_of_words 2047) = Done (sh, Running)
       /\ skipn 5 (w_trace (sh_world sh))
          = [Stderr (str "Exceeded length" ++ [LF]); Free].
Proof.
  split; [reflexivity|].
  split; [reflexivity|].
  split; [vm_compute; reflexivity|].
  eexists. split; [vm_compute; reflexivity|]. reflexivity.
Qed.

(** ** [cd]: the directory change and the environment *)

Lemma getenv_putenv_same (name value : bytes) (e : environ) :
  getenv name (putenv name value e) = Some value.
Proof.
  induction e as [|[n v] e IH]; simpl.
  - now rewrite bytes_eqb_refl.
  - destruct (bytes_eqb n name) eqn:E; simpl; now rewrite E.
Qed.

Lemma getenv_putenv_other (name other value : bytes) (e : environ) :
  name <> other -> getenv name (putenv other value e) = getenv name e.
Proof.
  intros Hne. induction e as [|[n v] e IH]; simpl.
  - apply not_eq_sym in Hne. apply bytes_eqb_neq in Hne. now rewrite Hne.
  - destruct (bytes_eqb n other) eqn:E; simpl.
    + apply bytes_eqb_eq in E. subst n.
      apply not_eq_sym in Hne. apply bytes_eqb_neq in Hne. now rewrite Hne.
    + destruct (bytes_eqb n name); [reflexivity|apply IH].
Qed.

Lemma getcwd_fits (w : world) :
  Z.of_nat (length (w_cwd w)) < PATH_MAX -> getcwd w = Some (w_cwd w).
Proof.
  intros H. unfold getcwd. apply Z.ltb_lt in H. now rewrite H.
Qed.

(** [chdir] fails: a diagnostic and nothing else. *)
Lemma cd_apply_chdir_fails (os : OS) (cur : option bytes) (p : bytes)
    (w : world) (e : positive) :
  os_chdir os (w_cwd w) p = inl e ->
  cd_apply os cur p w
  = Done (mkWorld (w_env w) (w_cwd w)
                  (w_trace w ++ [Chdir p (Zpos e); Perror [] (Zpos e)])).
Proof.
  intros H. unfold cd_apply, chdir. rewrite H. simpl.
  unfold emit. simpl. now rewrite <- app_assoc.
Qed.

(** [chdir] succeeds: the three ways the environment updates can go. *)
Lemma cd_apply_chdir_ok (os : OS) (c p : bytes) (w : world) (d : bytes) :
  os_chdir os (w_cwd w) p = inr d ->
  cd_apply os (Some c) p w
  = Done
      match os_setenv os (w_env w) (str "OLDPWD") c with
      | Some e =>
          mkWorld (w_env w) d
            (w_trace w ++ [Chdir p 0; Setenv (str "OLDPWD") c (Zpos e);
                           Perror [] (Zpos e)])
      | None =>
          let env1 := putenv (str "OLDPWD") c (w_env w) in
          match os_setenv os env1 (str "PWD") p with
          | Some e =>
              mkWorld env1 d
                (w_trace w ++ [Chdir p 0; Setenv (str "OLDPWD") c 0;
                               Setenv (str "PWD") p (Zpos e);
                               Perror [] (Zpos e)])
          | None =>
              mkWorld (putenv (str "PWD") p env1) d
                (w_trace w ++ [Chdir p 0; Setenv (str "OLDPWD") c 0;
                               Setenv (str "PWD") p 0])
          end
      end.
Proof.
  intros H. unfold cd_apply, chdir. rewrite H.
  cbn [negb Z.eqb read_buffer bind].
  unfold setenv, emit. cbn [w_env w_cwd w_trace].
  destruct (os_setenv os (w_env w) (str "OLDPWD") c) as [e|].
  - cbn [negb Z.eqb w_env w_cwd w_trace]. now rewrite <- ?app_assoc.
  - cbn [negb Z.eqb w_env w_cwd w_trace].
    destruct (os_setenv os _ (str "PWD") p) as [e|];
      cbn [negb Z.eqb w_env w_cwd w_trace]; now rewrite <- ?app_assoc.
Qed.

(** Building the path touches neither the environment nor the working
    directory; the only thing it may do is print the path, for [cd -]. *)
Lemma cd_new_path_world (w : world) (given_path : option bytes)
    (p : bytes) (w1 : world) :
  cd_new_path w given_path = Done (p, w1) ->
  w1 = w \/ w1 = emit (Stdout (p ++ [LF])) w.
Proof.
  unfold cd_new_path. destruct given_path as [g|].
  - destruct (peek (g ++ [NUL]) 0) as [c0| |]; cbn [bind]; try discriminate.
    destruct (tokenize _ _ _ _) as [t| |]; cbn [bind]; try discriminate.
    destruct (fetch (tk_tokens t) 0) as [p0| |]; cbn [bind]; try discriminate.
    destruct (load_arg (tk_buf t) p0) as [s0| |]; cbn [bind]; try discriminate.
    destruct (bytes_eqb s0 (str "~")).
    { destruct (load_arg _ _) as [h| |]; cbn [bind]; try discriminate.
      destruct (strcpy PATH_MAX h) as [q| |]; cbn [bind]; try discriminate.
      destruct (store _ _ _) as [path'| |]; cbn [bind]; try discriminate.
      destruct (add_path_items _ _ _ _ _) as [q'| |]; cbn [bind];
        try discriminate.
      intros H. injection H as <- <-. now left. }
    destruct (bytes_eqb s0 (str "-")).
    { destruct (load_arg _ _) as [o| |]; cbn [bind]; try discriminate.
      destruct (strcpy PATH_MAX o) as [q| |]; cbn [bind]; try discriminate.
      cbn [Z.to_nat add_path_items bind].
      intros H. injection H as <- <-. now right. }
    destruct (Ascii.eqb c0 "/").
    { destruct (strcpy PATH_MAX (str "/")) as [q| |]; cbn [bind];
        try discriminate.
      destruct (add_path_items _ _ _ _ _) as [q'| |]; cbn [bind];
        try discriminate.
      intros H. injection H as <- <-. now left. }
    destruct (read_buffer (getcwd w)) as [c| |]; cbn [bind]; try discriminate.
    destruct (strcat PATH_MAX [] c) as [q| |]; cbn [bind]; try discriminate.
    destruct (add_path_items _ _ _ _ _) as [q'| |]; cbn [bind];
      try discriminate.
    intros H. injection H as <- <-. now left.
  - destruct (load_arg _ _) as [h| |]; cbn [bind]; try discriminate.
    destruct (strcat PATH_MAX [] h) as [q| |]; cbn [bind]; try discriminate.
    intros H. injection H as <- <-. now left.
Qed.

Lemma cd_new_path_keeps (w : world) (given_path : option bytes)
    (p : bytes) (w1 : world) :
  cd_new_path w given_path = Done (p, w1) ->
  w_env w1 = w_env w /\ w_cwd w1 = w_cwd w
  /\ exists out, w_trace w1 = w_trace w ++ out
                 /\ (out = [] \/ out = [Stdout (p ++ [LF])]).
Proof.
  intros H. destruct (cd_new_path_world _ _ _ _ H) as [-> | ->].
  - repeat split. exists []. rewrite app_nil_r. auto.
  - repeat split. exists [Stdout (p ++ [LF])]. auto.
Qed.

(** C6.  When [chdir] refuses the path [cd] built, the environment (so
    [PWD] and [OLDPWD]) and the working directory are as before, the cause
    is reported through [perror], and no [setenv] is attempted: the call
    added to the trace only the echo of [cd -] (if any), the failed
    [chdir] and the diagnostic. *)
Theorem cd_failure_changes_nothing (os : OS) (w : world)
    (given_path : option bytes) (p : bytes) (w1 : world) (e : positive) :
  cd_new_path w given_path = Done (p, w1) ->
  os_chdir os (w_cwd w) p = inl e ->
  exists w' out,
    cd os w given_path = Done w'
    /\ w_env w' = w_env w
    /\ getenv (str "PWD") (w_env w') = getenv (str "PWD") (w_env w)
    /\ getenv (str "OLDPWD") (w_env w') = getenv (str "OLDPWD") (w_env w)
    /\ w_cwd w' = w_cwd w
    /\ w_trace w'
       = w_trace w ++ out ++ [Chdir p (Zpos e); Perror [] (Zpos e)]
    /\ (out = [] \/ out = [Stdout (p ++ [LF])]).
Proof.
  intros Hp Hch. unfold cd. rewrite Hp. cbn [bind].
  destruct (cd_new_path_keeps _ _ _ _ Hp) as (Henv & Hcwd & out & Htr & Hout).
  rewrite cd_apply_chdir_fails with (e := e) by now rewrite Hcwd.
  eexists. exists out. split; [reflexivity|]. cbn [w_env w_cwd w_trace].
  rewrite Henv, Hcwd, Htr, <- app_assoc. repeat split; assumption.
Qed.

Lemma cd_failure_changes_nothing_witness :
  cd_new_path (demo_world (str "/x")) (Some (str "nope"))
  = Done (str "/x/nope", demo_world (str "/x"))
  /\ os_chdir (demo_os 4242) (w_cwd (demo_world (str "/x"))) (str "/x/nope")
     = inl ENOENT
  /\ exists w' out,
       cd (demo_os 4242) (demo_world (str "/x")) (Some (str "nope")) = Done w'
       /\ w_env w' = w_env (demo_world (str "/x"))
       /\ getenv (str "PWD") (w_env w')
          = getenv (str "PWD") (w_env (demo_world (str "/x")))
       /\ getenv (str "OLDPWD") (w_env w')
          = getenv (str "OLDPWD") (w_env (demo_world (str "/x")))
       /\ w_cwd w' = w_cwd (demo_world (str "/x"))
       /\ w_trace w'
          = w_trace (demo_world (str "/x")) ++ out
            ++ [Chdir (str "/x/nope") (Zpos ENOENT); Perror [] (Zpos ENOENT)]
       /\ (out = [] \/ out = [Stdout (str "/x/nope" ++ [LF])]).
Proof.
  split; [vm_compute; reflexivity|].
  split; [vm_compute; reflexivity|].
  apply (cd_failure_changes_nothing (demo_os 4242) (demo_world (str "/x"))
           (Some (str "nope")) (str "/x/nope") (demo_world (str "/x")) ENOENT).
  - vm_compute. reflexivity.
  - vm_compute. reflexivity.
Defined.

(** What a call leaves behind once [chdir] accepted the path. *)
Lemma cd_after_chdir (os : OS) (w : world) (given_path : option bytes)
    (p : bytes) (w1 : world) (d : bytes) :
  cd_new_path w given_path = Done (p, w1) ->
  Z.of_nat (length (w_cwd w)) < PATH_MAX ->
  os_chdir os (w_cwd w) p = inr d ->
  cd os w given_path
  = Done
      match os_setenv os (w_env w) (str "OLDPWD") (w_cwd w) with
      | Some e =>
          mkWorld (w_env w) d
            (w_trace w1 ++ [Chdir p 0; Setenv (str "OLDPWD") (w_cwd w) (Zpos e);
                            Perror [] (Zpos e)])
      | None =>
          let env1 := putenv (str "OLDPWD") (w_cwd w) (w_env w) in
          match os_setenv os env1 (str "PWD") p with
          | Some e =>
              mkWorld env1 d
                (w_trace w1 ++ [Chdir p 0; Setenv (str "OLDPWD") (w_cwd w) 0;
                                Setenv (str "PWD") p (Zpos e);
                                Perror [] (Zpos e)])
          | None =>
              mkWorld (putenv (str "PWD") p env1) d
                (w_trace w1 ++ [Chdir p 0; Setenv (str "OLDPWD") (w_cwd w) 0;
                                Setenv (str "PWD") p 0])
          end
      end.
Proof.
  intros Hp Hfit Hch. unfold cd. rewrite Hp. cbn [bind].
  destruct (cd_new_path_keeps _ _ _ _ Hp) as (Henv & Hcwd & _).
  rewrite (getcwd_fits w Hfit).
  rewrite cd_apply_chdir_ok with (d := d) by now rewrite Hcwd.
  now rewrite Henv.
Qed.

(** The path for a relative argument of two segments. *)
Lemma cd_new_path_a_b (w : world) :
  Z.of_nat (length (w_cwd w)) + 4 < PATH_MAX ->
  cd_new_path w (Some (str "a/b")) = Done (w_cwd w ++ str "/a/b", w).
Proof.
  intros Hfit. rewrite cd_new_path_segments by reflexivity.
  unfold new_path_of_segments.
  assert (Hseg : segments (str "a/b") = [str "a"; str "b"])
    by (vm_compute; reflexivity).
  rewrite Hseg. eval_eqb. cbn [rooted str list_ascii_of_string].
  change (Ascii.eqb "a" "/") with false. cbv iota.
  rewrite getcwd_fits by lia. cbn [read_buffer bind].
  unfold strcat at 1. cbn [length Nat.add app].
  replace (Z.of_nat (length (w_cwd w)) <? PATH_MAX) with true
    by (symmetry; apply Z.ltb_lt; lia).
  cbn [bind]. rewrite append_items_fits.
  - reflexivity.
  - rewrite length_app.
    change (length (joined [["a"%char]; ["b"%char]])) with 4%nat. lia.
Qed.

(** C7.  [cd a/b] from any directory [x], [/x] for one, every system
    call succeeding: the path handed to [chdir] is [x/a/b] and the
    directory it leads to becomes the working directory, [OLDPWD] is set to
    [x] and then [PWD] to [x/a/b], in that order. *)
Theorem cd_relative_sets_oldpwd_then_pwd (os : OS) (w : world) (x : bytes) :
  w_cwd w = x ->
  Z.of_nat (length x) + 4 < PATH_MAX ->
  os_chdir os x (x ++ str "/a/b") = inr (x ++ str "/a/b") ->
  os_setenv os (w_env w) (str "OLDPWD") x = None ->
  os_setenv os (putenv (str "OLDPWD") x (w_env w)) (str "PWD")
            (x ++ str "/a/b") = None ->
  exists w',
    cd os w (Some (str "a/b")) = Done w'
    /\ w_cwd w' = x ++ str "/a/b"
    /\ getenv (str "OLDPWD") (w_env w') = Some x
    /\ getenv (str "PWD") (w_env w') = Some (x ++ str "/a/b")
    /\ w_trace w'
       = w_trace w ++ [Chdir (x ++ str "/a/b") 0;
                       Setenv (str "OLDPWD") x 0;
                       Setenv (str "PWD") (x ++ str "/a/b") 0].
Proof.
  intros Hcwd Hfit Hch Hold Hpwd. subst x.
  rewrite (cd_after_chdir os w (Some (str "a/b")) (w_cwd w ++ str "/a/b") w
                          (w_cwd w ++ str "/a/b"));
    [|now apply cd_new_path_a_b|lia|assumption].
  rewrite Hold. cbv zeta. rewrite Hpwd.
  eexists. split; [reflexivity|]. cbn [w_env w_cwd w_trace].
  repeat split.
  - rewrite getenv_putenv_other by discriminate. apply getenv_putenv_same.
  - apply getenv_putenv_same.
Qed.

Lemma cd_relative_sets_oldpwd_then_pwd_witness :
  w_cwd (demo_world (str "/x")) = str "/x"
  /\ Z.of_nat (length (str "/x")) + 4 < PATH_MAX
  /\ os_chdir (demo_os 4242) (str "/x") (str "/x" ++ str "/a/b")
     = inr (str "/x" ++ str "/a/b")
  /\ os_setenv (demo_os 4242) (w_env (demo_world (str "/x"))) (str "OLDPWD")
               (str "/x") = None
  /\ os_setenv (demo_os 4242)
               (putenv (str "OLDPWD") (str "/x") (w_env (demo_world (str "/x"))))
               (str "PWD") (str "/x" ++ str "/a/b") = None
  /\ exists w',
       cd (demo_os 4242) (demo_world (str "/x")) (Some (str "a/b")) = Done w'
       /\ w_cwd w' = str "/x" ++ str "/a/b"
       /\ getenv (str "OLDPWD") (w_env w') = Some (str "/x")
       /\ getenv (str "PWD") (w_env w') = Some (str "/x" ++ str "/a/b")
       /\ w_trace w'
          = w_trace (demo_world (str "/x"))
            ++ [Chdir (str "/x" ++ str "/a/b") 0;
                Setenv (str "OLDPWD") (str "/x") 0;
                Setenv (str "PWD") (str "/x" ++ str "/a/b") 0].
Proof.
  split; [reflexivity|].
  split; [vm_compute; reflexivity|].
  split; [vm_compute; reflexivity|].
  split; [reflexivity|].
  split; [reflexivity|].
  apply (cd_relative_sets_oldpwd_then_pwd (demo_os 4242)
           (demo_world (str "/x")) (str "/x")).
  - reflexivity.
  - vm_compute. reflexivity.
  - vm_compute. reflexivity.
  - reflexivity.
  - reflexivity.
Defined.

(** C10.  Once [chdir] has succeeded, what happens to the environment is
    decided by the two [setenv] calls in turn.  If the one for [OLDPWD]
    fails, its failure is reported, the environment is untouched and no
    call for [PWD] is made.  If it succeeds and the one for [PWD] fails,
    [OLDPWD] is updated and [PWD] is not.  There is no third way to fail:
    [PWD] is never set without [OLDPWD] having been set before. *)
Theorem cd_pwd_only_after_oldpwd (os : OS) (w : world)
    (given_path : option bytes) (p : bytes) (w1 : world) (d : bytes) :
  cd_new_path w given_path = Done (p, w1) ->
  Z.of_nat (length (w_cwd w)) < PATH_MAX ->
  os_chdir os (w_cwd w) p = inr d ->
  exists w',
    cd os w given_path = Done w'
    /\ w_cwd w' = d
    /\ match os_setenv os (w_env w) (str "OLDPWD") (w_cwd w) with
       | Some e =>
           w_env w' = w_env w
           /\ getenv (str "PWD") (w_env w') = getenv (str "PWD") (w_env w)
           /\ w_trace w'
              = w_trace w1 ++ [Chdir p 0;
                               Setenv (str "OLDPWD") (w_cwd w) (Zpos e);
                               Perror [] (Zpos e)]
       | None =>
           getenv (str "OLDPWD") (w_env w') = Some (w_cwd w)
           /\ match os_setenv os (putenv (str "OLDPWD") (w_cwd w) (w_env w))
                              (str "PWD") p with
              | Some e =>
                  getenv (str "PWD") (w_env w') = getenv (str "PWD") (w_env w)
                  /\ w_trace w'
                     = w_trace w1 ++ [Chdir p 0;
                                      Setenv (str "OLDPWD") (w_cwd w) 0;
                                      Setenv (str "PWD") p (Zpos e);
                                      Perror [] (Zpos e)]
              | None =>
                  getenv (str "PWD") (w_env w') = Some p
                  /\ w_trace w'
                     = w_trace w1 ++ [Chdir p 0;
                                      Setenv (str "OLDPWD") (w_cwd w) 0;
                                      Setenv (str "PWD") p 0]
              end
       end.
Proof.
  intros Hp Hfit Hch.
  rewrite (cd_after_chdir os w given_path p w1 d Hp Hfit Hch).
  eexists. split; [reflexivity|].
  destruct (os_setenv os (w_env w) (str "OLDPWD") (w_cwd w)) as [e|].
  - cbn [w_env w_cwd w_trace]. repeat split.
  - cbv zeta.
    destruct (os_setenv os _ (str "PWD") p) as [e|];
      cbn [w_env w_cwd w_trace]; repeat split.
    + apply getenv_putenv_same.
    + now rewrite getenv_putenv_other by discriminate.
    + rewrite getenv_putenv_other by discriminate. apply getenv_putenv_same.
    + apply getenv_putenv_same.
Qed.

(** The partial state of C10, reached: [setenv] fails on [PWD] only, and
    [cd a] from [/x] leaves [OLDPWD = /x] while [PWD] keeps its old value. *)
Lemma cd_pwd_only_after_oldpwd_witness :
  cd_new_path (demo_world (str "/x")) (Some (str "a"))
  = Done (str "/x/a", demo_world (str "/x"))
  /\ Z.of_nat (length (w_cwd (demo_world (str "/x")))) < PATH_MAX
  /\ os_chdir (demo_os_setenv_fails (str "PWD"))
              (w_cwd (demo_world (str "/x"))) (str "/x/a") = inr (str "/x/a")
  /\ exists w',
       cd (demo_os_setenv_fails (str "PWD")) (demo_world (str "/x"))
          (Some (str "a")) = Done w'
       /\ w_cwd w' = str "/x/a"
       /\ getenv (str "OLDPWD") (w_env w') = Some (str "/x")
       /\ getenv (str "PWD") (w_env w') = Some (str "/home/u")
       /\ w_trace w'
          = [Chdir (str "/x/a") 0; Setenv (str "OLDPWD") (str "/x") 0;
             Setenv (str "PWD") (str "/x/a") (Zpos ENOMEM);
             Perror [] (Zpos ENOMEM)].
Proof.
  split; [vm_compute; reflexivity|].
  split; [vm_compute; reflexivity|].
  split; [vm_compute; reflexivity|].
  destruct (cd_pwd_only_after_oldpwd
              (demo_os_setenv_fails (str "PWD")) (demo_world (str "/x"))
              (Some (str "a")) (str "/x/a") (demo_world (str "/x")) (str "/x/a"))
    as (w' & Hcd & Hcwd & Hrest).
  - vm_compute. reflexivity.
  - vm_compute. reflexivity.
  - vm_compute. reflexivity.
  - exists w'. split; [exact Hcd|]. split; [exact Hcwd|].
    destruct Hrest as (Hold & Hpwd & Htrace).
    split; [exact Hold|]. split; [exact Hpwd|exact Htrace].
Defined.

(** ** [cd] and [HOME] *)

Lemma cd_new_path_none (w : world) (h : bytes) :
  getenv (str "HOME") (w_env w) = Some h ->
  Z.of_nat (length h) < PATH_MAX ->
  cd_new_path w None = Done (h, w).
Proof.
  intros Hh Hfit. unfold cd_new_path. rewrite Hh.
  cbn [option_map load_arg load bind]. unfold strcat. cbn [length Nat.add app].
  apply Z.ltb_lt in Hfit. now rewrite Hfit.
Qed.

Lemma cd_new_path_tilde (w : world) (h : bytes) :
  getenv (str "HOME") (w_env w) = Some h ->
  Z.of_nat (length h) + 1 < PATH_MAX ->
  cd_new_path w (Some (str "~")) = Done (h ++ str "/", w).
Proof.
  intros Hh Hfit. rewrite cd_new_path_segments by reflexivity.
  unfold new_path_of_segments. rewrite Hh.
  assert (Hseg : segments (str "~") = [str "~"]) by (vm_compute; reflexivity).
  rewrite Hseg. eval_eqb. cbn [option_map load_arg load bind].
  unfold strcpy.
  replace (Z.of_nat (length h) <? PATH_MAX) with true
    by (symmetry; apply Z.ltb_lt; lia).
  cbn [bind]. rewrite append_items_fits.
  - reflexivity.
  - rewrite length_app. change (length (joined [[]])) with 1%nat. lia.
Qed.

(** C5, as the code has it.  With [HOME = h], [cd ~] builds [h/]: the
    segment [~] is replaced by the empty string, and the separator that
    precedes every segment is still appended.  [cd] without an argument
    builds [h].  Each hands its own path to [chdir]; when the call and the
    two [setenv] calls succeed, both leave [OLDPWD] at the directory the
    call started in, [cd ~] leaves [PWD = h/] and [cd] leaves [PWD = h]. *)
Theorem cd_tilde_appends_separator (os : OS) (w : world) (h : bytes) :
  getenv (str "HOME") (w_env w) = Some h ->
  Z.of_nat (length h) + 1 < PATH_MAX ->
  Z.of_nat (length (w_cwd w)) < PATH_MAX ->
  (forall name value env, os_setenv os env name value = None) ->
  cd_new_path w (Some (str "~")) = Done (h ++ str "/", w)
  /\ cd_new_path w None = Done (h, w)
  /\ (forall d, os_chdir os (w_cwd w) (h ++ str "/") = inr d ->
      exists w',
        cd os w (Some (str "~")) = Done w'
        /\ w_cwd w' = d
        /\ getenv (str "OLDPWD") (w_env w') = Some (w_cwd w)
        /\ getenv (str "PWD") (w_env w') = Some (h ++ str "/"))
  /\ (forall d, os_chdir os (w_cwd w) h = inr d ->
      exists w',
        cd os w None = Done w'
        /\ w_cwd w' = d
        /\ getenv (str "OLDPWD") (w_env w') = Some (w_cwd w)
        /\ getenv (str "PWD") (w_env w') = Some h).
Proof.
  intros Hh Hfit Hcwd Hset.
  assert (H1 := cd_new_path_tilde w h Hh Hfit).
  assert (H2 : cd_new_path w None = Done (h, w))
    by (apply cd_new_path_none; [assumption|lia]).
  split; [exact H1|]. split; [exact H2|].
  split; intros d Hch.
  - rewrite (cd_after_chdir os w _ _ _ d H1 Hcwd Hch), !Hset. cbv zeta.
    rewrite Hset.
    eexists. split; [reflexivity|]. cbn [w_env w_cwd].
    split; [reflexivity|]. split.
    + rewrite getenv_putenv_other by discriminate. apply getenv_putenv_same.
    + apply getenv_putenv_same.
  - rewrite (cd_after_chdir os w _ _ _ d H2 Hcwd Hch), !Hset. cbv zeta.
    rewrite Hset.
    eexists. split; [reflexivity|]. cbn [w_env w_cwd].
    split; [reflexivity|]. split.
    + rewrite getenv_putenv_other by discriminate. apply getenv_putenv_same.
    + apply getenv_putenv_same.
Qed.

Lemma cd_tilde_appends_separator_witness :
  getenv (str "HOME") (w_env (demo_world (str "/x"))) = Some (str "/home/u")
  /\ Z.of_nat (length (str "/home/u")) + 1 < PATH_MAX
  /\ Z.of_nat (length (w_cwd (demo_world (str "/x")))) < PATH_MAX
  /\ (forall name value env, os_setenv (demo_os 4242) env name value = None)
  /\ cd_new_path (demo_world (str "/x")) (Some (str "~"))
     = Done (str "/home/u" ++ str "/", demo_world (str "/x"))
  /\ cd_new_path (demo_world (str "/x")) None
     = Done (str "/home/u", demo_world (str "/x")).
Proof.
  split; [reflexivity|].
  split; [vm_compute; reflexivity|].
  split; [vm_compute; reflexivity|].
  split; [reflexivity|].
  destruct (cd_tilde_appends_separator (demo_os 4242) (demo_world (str "/x"))
              (str "/home/u")) as (H1 & H2 & _).
  - reflexivity.
  - vm_compute. reflexivity.
  - vm_compute. reflexivity.
  - reflexivity.
  - split; [exact H1|exact H2].
Defined.

(** C5 as stated fails: with [HOME = /home/u], both calls succeed and end
    in the same directory, but [cd ~] asked [chdir] for [/home/u/] and left
    that in [PWD], while [cd] asked for [/home/u] and left that. *)
Lemma cd_tilde_differs_from_no_argument :
  exists w1 w2,
    cd (demo_os 4242) (demo_world (str "/x")) (Some (str "~")) = Done w1
    /\ cd (demo_os 4242) (demo_world (str "/x")) None = Done w2
    /\ w_cwd w1 = w_cwd w2
    /\ getenv (str "PWD") (w_env w1) = Some (str "/home/u/")
    /\ getenv (str "PWD") (w_env w2) = Some (str "/home/u")
    /\ getenv (str "PWD") (w_env w1) <> getenv (str "PWD") (w_env w2)
    /\ hd_error (w_trace w1) = Some (Chdir (str "/home/u/") 0)
    /\ hd_error (w_trace w2) = Some (Chdir (str "/home/u") 0).
Proof.
  eexists. eexists.
  split; [vm_compute; reflexivity|].
  split; [vm_compute; reflexivity|].
  repeat split; try reflexivity.
  vm_compute. discriminate.
Qed.

(** ** [cd] and the variables it reads *)

Lemma bind_no_null {A B : Type} (m : outcome A) (k : A -> outcome B) :
  no_null_deref m -> (forall a, no_null_deref (k a)) ->
  no_null_deref (bind m k).
Proof.
  unfold no_null_deref. intros Hm Hk.
  destruct m as [a|u|]; simpl.
  - apply Hk.
  - intros E. apply Hm. now injection E as ->.
  - discriminate.
Qed.

Lemma strcat_no_null (cap : Z) (a b : bytes) : no_null_deref (strcat cap a b).
Proof. unfold no_null_deref, strcat. destruct (_ <? _); discriminate. Qed.

Lemma strcpy_no_null (cap : Z) (a : bytes) : no_null_deref (strcpy cap a).
Proof. unfold no_null_deref, strcpy. destruct (_ <? _); discriminate. Qed.

Lemma append_items_no_null (items : list bytes) :
  forall p, no_null_deref (append_items p items).
Proof.
  induction items as [|s items IH]; intros p; simpl.
  - discriminate.
  - apply bind_no_null; [apply strcat_no_null|]. intros p1.
    apply bind_no_null; [apply strcat_no_null|]. intros p2. apply IH.
Qed.

Lemma cd_apply_no_null (os : OS) (cur : option bytes) (p : bytes) (w : world) :
  no_null_deref (cd_apply os cur p w).
Proof.
  unfold no_null_deref, cd_apply.
  destruct (chdir os p w) as [errno w1].
  destruct (negb (errno =? 0)); [discriminate|].
  destruct cur as [c|]; cbn [read_buffer bind]; [|discriminate].
  destruct (setenv os (str "OLDPWD") c w1) as [errno1 w2].
  destruct (negb (errno1 =? 0)); [discriminate|].
  destruct (setenv os (str "PWD") p w2) as [errno2 w3].
  destruct (negb (errno2 =? 0)); discriminate.
Qed.

Lemma segments_head (g s0 : bytes) (ws : list bytes) :
  words (str "/") g = s0 :: ws -> exists rest, segments g = s0 :: rest.
Proof.
  intros H. unfold segments. rewrite H.
  replace (Z.to_nat (BIG_NUM - 1)) with (S (Z.to_nat (BIG_NUM - 2)))
    by (unfold BIG_NUM; lia).
  cbn [firstn]. eauto.
Qed.

(** C9.  [cd] reads [HOME] (no argument, or first segment [~]) or [OLDPWD]
    (first segment [-]) and hands the result to [strcat] or [strcpy]
    unchecked.  When the variable is not set the call is undefined, a NULL
    pointer being read; when it is set, no NULL pointer is read. *)
Theorem cd_requires_variable (os : OS) (w : world)
    (given_path : option bytes) (v : bytes) :
  match given_path with Some g => nul_free g = true | None => True end ->
  required_variable given_path = Some v ->
  (getenv v (w_env w) = None -> cd os w given_path = Undefined NullDeref)
  /\ (getenv v (w_env w) <> None ->
      cd os w given_path <> Undefined NullDeref).
Proof.
  intros Hnf Hreq. unfold cd.
  rewrite cd_new_path_segments by assumption.
  unfold new_path_of_segments.
  destruct given_path as [g|]; cbn [required_variable] in Hreq.
  - destruct (words (str "/") g) as [|s0 ws] eqn:Hws; [discriminate|].
    destruct (segments_head g s0 ws Hws) as (rest & ->).
    destruct (bytes_eqb s0 (str "~")).
    + assert (Hv : v = str "HOME") by (now injection Hreq). subst v. split.
      * intros ->. reflexivity.
      * intros Hset.
        destruct (getenv (str "HOME") (w_env w)) as [h|]; [|contradiction].
        cbn [option_map load_arg load bind].
        apply bind_no_null.
        -- apply bind_no_null; [apply strcpy_no_null|]. intros p.
           apply bind_no_null; [apply append_items_no_null|]. discriminate.
        -- intros [p w1]. apply cd_apply_no_null.
    + destruct (bytes_eqb s0 (str "-")); [|discriminate].
      assert (Hv : v = str "OLDPWD") by (now injection Hreq). subst v. split.
      * intros ->. reflexivity.
      * intros Hset.
        destruct (getenv (str "OLDPWD") (w_env w)) as [o|]; [|contradiction].
        cbn [option_map load_arg load bind].
        apply bind_no_null.
        -- apply bind_no_null; [apply strcpy_no_null|]. discriminate.
        -- intros [p w1]. apply cd_apply_no_null.
  - assert (Hv : v = str "HOME") by (now injection Hreq). subst v. split.
    + intros ->. reflexivity.
    + intros Hset.
      destruct (getenv (str "HOME") (w_env w)) as [h|]; [|contradiction].
      cbn [option_map load_arg load bind].
      apply bind_no_null.
      * apply bind_no_null; [apply strcat_no_null|]. discriminate.
      * intros [p w1]. apply cd_apply_no_null.
Qed.

Lemma cd_requires_variable_witness :
  nul_free (str "~/src") = true
  /\ required_variable (Some (str "~/src")) = Some (str "HOME")
  /\ cd (demo_os 4242) no_home_world (Some (str "~/src")) = Undefined NullDeref
  /\ cd (demo_os 4242) (demo_world (str "/x")) (Some (str "~/src"))
     <> Undefined NullDeref.
Proof.
  split; [reflexivity|].
  split; [reflexivity|].
  split.
  - apply (cd_requires_variable (demo_os 4242) no_home_world
             (Some (str "~/src")) (str "HOME")); reflexivity.
  - apply (cd_requires_variable (demo_os 4242) (demo_world (str "/x"))
             (Some (str "~/src")) (str "HOME"));
      [reflexivity|reflexivity|discriminate].
Defined.

(** ** The loop: lines that begin with [cd] *)

Lemma clear_args_length (n : nat) :
  forall (i : Z) (args : list (option cptr)),
    0 <= i -> i + Z.of_nat n <= Z.of_nat (length args) ->
    exists args', clear_args n i args = Done args'
                  /\ length args' = length args.
Proof.
  induction n as [|n IH]; intros i args Hi Hn; cbn [clear_args].
  - eauto.
  - unfold store.
    replace (0 <=? i) with true by (symmetry; apply Z.leb_le; lia).
    replace (i <? Z.of_nat (length args)) with true
      by (symmetry; apply Z.ltb_lt; lia).
    cbn [andb bind].
    destruct (IH (i + 1) (upd (Z.to_nat i) None args)) as (args' & E & Hlen).
    + lia.
    + rewrite upd_length. lia.
    + exists args'. split; [exact E|]. now rewrite Hlen, upd_length.
Qed.

(** A line the tokenizer accepts and whose first word is [cd] is handed to
    [cd] with its second word, or with NULL when there is none; nothing
    else of the line reaches [cd]. *)
Lemma dispatch_cd (os : OS) (sh : shell) (line : bytes) (rest : list bytes) :
  nul_free line = true ->
  words whitespace line = str "cd" :: rest ->
  Z.of_nat (length rest) + 1 < BIG_NUM - 1 ->
  length (sh_args sh) = Z.to_nat BIG_NUM ->
  (forall a, hd_error rest = Some a -> Z.of_nat (length a) <= PATH_MAX) ->
  exists args,
    length args = length (sh_args sh)
    /\ dispatch os sh line
       = (w <- cd os (sh_world sh) (hd_error rest) ;;
          Done (w, args, Z.of_nat (length rest) + 1, Running)).
Proof.
  intros Hnf Hws Hcount Hargs Hlen. unfold dispatch.
  change (str " " ++ [LF]) with whitespace.
  destruct (tokenize_spec whitespace line [] BIG_NUM (sh_args sh) Hnf)
    as (b & qs & Etok & Hqs & Hreads & _).
  { rewrite Hws, Hargs. unfold BIG_NUM in *. simpl length. lia. }
  assert (Ek : Nat.min (length (words whitespace line))
                       (Z.to_nat (BIG_NUM - 1)) = S (length rest))
    by (rewrite Hws; simpl length; lia).
  rewrite Ek in Etok, Hqs, Hreads.
  rewrite Hws in Hreads.
  replace (firstn (S (length rest)) (str "cd" :: rest)) with (str "cd" :: rest)
    in Hreads by (symmetry; apply (firstn_all (str "cd" :: rest))).
  rewrite Etok. cbn [bind tk_ret tk_buf tk_tokens tk_count].
  replace (Z.of_nat (S (length rest)) <? BIG_NUM - 1) with true
    by (symmetry; apply Z.ltb_lt; lia).
  cbn [Z.eqb negb].
  replace (Z.of_nat (S (length rest)) =? 0) with false
    by (symmetry; apply Z.eqb_neq; lia).
  replace (Z.of_nat (S (length rest))) with (Z.of_nat (length rest) + 1) by lia.
  set (tail := skipn (S (S (length rest))) (sh_args sh)).
  exists (ptrs qs ++ None :: tail).
  split.
  { rewrite length_app. unfold ptrs. rewrite length_map, Hqs.
    cbn [length]. subst tail. rewrite length_skipn, Hargs.
    unfold BIG_NUM in *. lia. }
  inversion Hreads as [|q0 s0 qs' ws' Hq0 Hreads' Eqs Ews]. subst.
  cbn [ptrs map app]. rewrite fetch_head. cbn [bind load_arg].
  rewrite Hq0. cbn [bind]. eval_eqb. cbn [andb].
  destruct rest as [|a rest'].
  - (* [cd] alone *)
    inversion Hreads'. subst. cbn [length map app hd_error].
    change (1 <? Z.of_nat 0 + 1) with false. cbn [bind].
    change (fetch (Some (PBuf q0) :: None :: tail) 1) with (Done (@None cptr)).
    cbn [bind]. reflexivity.
  - (* [cd] and an argument *)
    inversion Hreads' as [|q1 s1 qs'' ws'' Hq1 Hreads'' Eqs Ews]. subst.
    cbn [length map app hd_error].
    replace (1 <? Z.of_nat (S (length rest')) + 1) with true
      by (symmetry; apply Z.ltb_lt; lia).
    change (fetch (Some (PBuf q0) :: Some (PBuf q1) :: map _ qs'' ++ None :: tail) 1)
      with (Done (Some (PBuf q1))).
    cbn [bind]. unfold strlen. cbn [load_arg]. rewrite Hq1. cbn [bind].
    replace (PATH_MAX <? Z.of_nat (length a)) with false
      by (symmetry; apply Z.ltb_ge; now apply Hlen).
    reflexivity.
Qed.

Lemma show_prompt_ok (os : OS) (w : world) (h : bytes) :
  getenv (str "HOME") (w_env w) = Some h ->
  Z.of_nat (length (w_cwd w)) < PATH_MAX ->
  exists out,
    show_prompt os w = Done (mkWorld (w_env w) (w_cwd w) (w_trace w ++ out)).
Proof.
  intros Hh Hfit. unfold show_prompt.
  rewrite (getcwd_fits w Hfit), Hh.
  cbn [read_buffer option_map load_arg load bind].
  unfold emit. cbn [w_env w_cwd w_trace].
  eexists. rewrite <- !app_assoc. reflexivity.
Qed.

(** One pass of the loop over such a line, when [cd] returns: the world is
    the one [cd] leaves, with the line freed. *)
Lemma shell_iteration_cd (os : OS) (sh : shell) (line : bytes)
    (rest : list bytes) (w1 w2 : world) :
  nul_free line = true ->
  words whitespace line = str "cd" :: rest ->
  Z.of_nat (length rest) + 1 < BIG_NUM - 1 ->
  length (sh_args sh) = Z.to_nat BIG_NUM ->
  (forall a, hd_error rest = Some a -> Z.of_nat (length a) <= PATH_MAX) ->
  show_prompt os (sh_world sh) = Done w1 ->
  cd os w1 (hd_error rest) = Done w2 ->
  exists args,
    shell_iteration os sh line = Done (mkShell (emit Free w2) args, Running).
Proof.
  intros Hnf Hws Hcount Hargs Hlen Hprompt Hcd. unfold shell_iteration.
  rewrite Hprompt. cbn [bind].
  destruct (dispatch_cd os (mkShell w1 (sh_args sh)) line rest)
    as (args & Hlenargs & E); try assumption.
  rewrite E. cbn [sh_world sh_args] in *. rewrite Hcd. cbn [bind].
  destruct (clear_args_length (Z.to_nat (Z.of_nat (length rest) + 1)) 0 args)
    as (args' & Eclear & _).
  - lia.
  - rewrite Hlenargs, Hargs. unfold BIG_NUM in *. lia.
  - rewrite Eclear. cbn [bind]. eauto.
Qed.

(** A line that [tokenize] accepts into [command_args] (return value 0)
    has left room for the terminating NULL below the limit. *)
Lemma tokenize_accepts_room (line : bytes) (tokens : list (option cptr))
    (t : tokenized) :
  nul_free line = true ->
  length tokens = Z.to_nat BIG_NUM ->
  tokenize (line ++ [NUL]) whitespace tokens BIG_NUM = Done t ->
  tk_ret t = 0 ->
  Z.of_nat (length (words whitespace line)) < BIG_NUM - 1.
Proof.
  intros Hnf Hlen Etok Hret.
  destruct (tokenize_spec whitespace line [] BIG_NUM tokens Hnf)
    as (b & qs & E & _).
  { rewrite Hlen. unfold BIG_NUM. lia. }
  rewrite E in Etok.
  assert (Et : tk_ret t
               = if Z.of_nat (Nat.min (length (words whitespace line))
                                      (Z.to_nat (BIG_NUM - 1))) <? BIG_NUM - 1
                 then 0 else -1)
    by (injection Etok as Et'; now rewrite <- Et').
  rewrite Et in Hret.
  destruct (Z.ltb_spec
              (Z.of_nat (Nat.min (length (words whitespace line))
                                 (Z.to_nat (BIG_NUM - 1))))
              (BIG_NUM - 1)) as [Hlt | Hge]; [|discriminate].
  unfold BIG_NUM in *. lia.
Qed.

Lemma cd_new_path_tmp (w : world) :
  cd_new_path w (Some (str "/tmp")) = Done (str "//tmp", w).
Proof.
  rewrite cd_new_path_segments by reflexivity.
  unfold new_path_of_segments.
  assert (Hseg : segments (str "/tmp") = [str "tmp"])
    by (vm_compute; reflexivity).
  rewrite Hseg. eval_eqb. reflexivity.
Qed.

(** C1, as the code has it.  The line [cd /tmp], read in directory
    [/home/u] with [HOME] set: [cd] starts the path with [/] and puts a
    [/] before every segment, so it asks [chdir] for [//tmp].  When that
    leads to [/tmp] and the environment can be updated, the pass ends with
    the working directory [/tmp], [OLDPWD = /home/u] and [PWD = //tmp]. *)
Theorem cd_tmp_sets_pwd_with_two_slashes (os : OS) (sh : shell) (h : bytes) :
  w_cwd (sh_world sh) = str "/home/u" ->
  getenv (str "HOME") (w_env (sh_world sh)) = Some h ->
  length (sh_args sh) = Z.to_nat BIG_NUM ->
  os_chdir os (str "/home/u") (str "//tmp") = inr (str "/tmp") ->
  (forall name value env, os_setenv os env name value = None) ->
  exists sh',
    shell_iteration os sh (str "cd /tmp" ++ [LF]) = Done (sh', Running)
    /\ w_cwd (sh_world sh') = str "/tmp"
    /\ getenv (str "OLDPWD") (w_env (sh_world sh')) = Some (str "/home/u")
    /\ getenv (str "PWD") (w_env (sh_world sh')) = Some (str "//tmp").
Proof.
  intros Hcwd Hh Hargs Hch Hset.
  assert (Hfit : Z.of_nat (length (w_cwd (sh_world sh))) < PATH_MAX)
    by (rewrite Hcwd; vm_compute; reflexivity).
  destruct (show_prompt_ok os (sh_world sh) h Hh Hfit) as (out & Hprompt).
  set (w1 := mkWorld (w_env (sh_world sh)) (w_cwd (sh_world sh))
                     (w_trace (sh_world sh) ++ out)) in *.
  assert (Hcd := cd_after_chdir os w1 (Some (str "/tmp")) (str "//tmp") w1
                   (str "/tmp") (cd_new_path_tmp w1) Hfit).
  cbn [w1 w_cwd w_env w_trace] in Hcd. rewrite Hcwd in Hcd.
  specialize (Hcd Hch). rewrite !Hset in Hcd. cbv zeta in Hcd.
  rewrite ?Hset in Hcd.
  edestruct (shell_iteration_cd os sh (str "cd /tmp" ++ [LF]) [str "/tmp"] w1)
    as (args & E); [reflexivity|reflexivity| | | |exact Hprompt|exact Hcd|].
  - vm_compute. reflexivity.
  - exact Hargs.
  - intros a Ha. injection Ha as <-. vm_compute. discriminate.
  - rewrite E. eexists. split; [reflexivity|].
    cbn [sh_world emit w_env w_cwd]. split; [reflexivity|]. split.
    + rewrite getenv_putenv_other by discriminate. apply getenv_putenv_same.
    + apply getenv_putenv_same.
Qed.

Lemma cd_tmp_sets_pwd_with_two_slashes_witness :
  w_cwd (sh_world (demo_shell (str "/home/u"))) = str "/home/u"
  /\ getenv (str "HOME") (w_env (sh_world (demo_shell (str "/home/u"))))
     = Some (str "/home/u")
  /\ length (sh_args (demo_shell (str "/home/u"))) = Z.to_nat BIG_NUM
  /\ os_chdir (demo_os 4242) (str "/home/u") (str "//tmp") = inr (str "/tmp")
  /\ (forall name value env, os_setenv (demo_os 4242) env name value = None)
  /\ exists sh',
       shell_iteration (demo_os 4242) (demo_shell (str "/home/u"))
                       (str "cd /tmp" ++ [LF]) = Done (sh', Running)
       /\ w_cwd (sh_world sh') = str "/tmp"
       /\ getenv (str "OLDPWD") (w_env (sh_world sh')) = Some (str "/home/u")
       /\ getenv (str "PWD") (w_env (sh_world sh')) = Some (str "//tmp").
Proof.
  split; [reflexivity|].
  split; [reflexivity|].
  split; [vm_compute; reflexivity|].
  split; [vm_compute; reflexivity|].
  split; [reflexivity|].
  apply (cd_tmp_sets_pwd_with_two_slashes (demo_os 4242)
           (demo_shell (str "/home/u")) (str "/home/u")).
  - reflexivity.
  - reflexivity.
  - vm_compute. reflexivity.
  - vm_compute. reflexivity.
  - reflexivity.
Defined.

(** C1 as stated fails: in a file system where [/tmp] exists, the pass
    over [cd /tmp] from [/home/u] does end in [/tmp] with
    [OLDPWD = /home/u], but [PWD] holds [//tmp], not [/tmp]. *)
Lemma cd_tmp_pwd_is_not_tmp :
  exists sh',
    shell_iteration (demo_os 4242) (demo_shell (str "/home/u"))
                    (str "cd /tmp" ++ [LF]) = Done (sh', Running)
    /\ w_cwd (sh_world sh') = str "/tmp"
    /\ getenv (str "OLDPWD") (w_env (sh_world sh')) = Some (str "/home/u")
    /\ getenv (str "PWD") (w_env (sh_world sh')) = Some (str "//tmp")
    /\ getenv (str "PWD") (w_env (sh_world sh')) <> Some (str "/tmp").
Proof.
  eexists. split; [vm_compute; reflexivity|].
  repeat split; try reflexivity. vm_compute. discriminate.
Qed.

(** C8, as the code has it.  For a line that the tokenizer accepts
    ([tokenize] returns 0 on it, line 223), whose first word is [cd] and
    whose second word, if any, is no longer than [PATH_MAX], all that is
    done with the line is the call of [cd] on the second word (on NULL when
    there is none): the words after it, a trailing [&] included, do not
    reach [cd]. *)
Theorem cd_gets_second_word_only (os : OS) (sh : shell) (line : bytes)
    (rest : list bytes) (t : tokenized) :
  nul_free line = true ->
  words whitespace line = str "cd" :: rest ->
  tokenize (line ++ [NUL]) whitespace (sh_args sh) BIG_NUM = Done t ->
  tk_ret t = 0 ->
  length (sh_args sh) = Z.to_nat BIG_NUM ->
  (forall a, hd_error rest = Some a -> Z.of_nat (length a) <= PATH_MAX) ->
  exists args,
    dispatch os sh line
    = (w <- cd os (sh_world sh) (hd_error rest) ;;
       Done (w, args, Z.of_nat (length (words whitespace line)), Running)).
Proof.
  intros Hnf Hws Etok Hret Hargs Hlen.
  pose proof (tokenize_accepts_room line (sh_args sh) t Hnf Hargs Etok Hret)
    as Hcount.
  destruct (dispatch_cd os sh line rest) as (args & _ & E); try assumption.
  - rewrite Hws in Hcount. simpl length in Hcount. lia.
  - exists args. rewrite E, Hws. simpl length.
    now replace (Z.of_nat (S (length rest))) with (Z.of_nat (length rest) + 1)
      by lia.
Qed.

Lemma cd_gets_second_word_only_witness :
  nul_free (str "cd a b &" ++ [LF]) = true
  /\ words whitespace (str "cd a b &" ++ [LF])
     = str "cd" :: [str "a"; str "b"; str "&"]
  /\ (exists t,
        tokenize ((str "cd a b &" ++ [LF]) ++ [NUL]) whitespace
                 (sh_args (demo_shell (str "/x"))) BIG_NUM = Done t
        /\ tk_ret t = 0)
  /\ length (sh_args (demo_shell (str "/x"))) = Z.to_nat BIG_NUM
  /\ exists args,
       dispatch (demo_os 4242) (demo_shell (str "/x")) (str "cd a b &" ++ [LF])
       = (w <- cd (demo_os 4242) (sh_world (demo_shell (str "/x")))
                  (hd_error [str "a"; str "b"; str "&"]) ;;
          Done (w, args,
                Z.of_nat (length (words whitespace (str "cd a b &" ++ [LF]))),
                Running)).
Proof.
  split; [reflexivity|].
  split; [reflexivity|].
  split; [eexists; split; [vm_compute; reflexivity | reflexivity]|].
  split; [vm_compute; reflexivity|].
  eapply (cd_gets_second_word_only (demo_os 4242) (demo_shell (str "/x"))
            (str "cd a b &" ++ [LF]) [str "a"; str "b"; str "&"]).
  - reflexivity.
  - reflexivity.
  - vm_compute. reflexivity.
  - reflexivity.
  - vm_compute. reflexivity.
  - intros a Ha. injection Ha as <-. vm_compute. discriminate.
Defined.

(** C8 as stated fails on lines that do not fit: [long_cd_line] begins with
    the words [cd] and [/tmp], like the line [cd /tmp], but has
    [BIG_NUM] = 2048 words, one more than [command_args] can hold beside
    its terminating NULL.  The tokenizer reports it as too long,
    [arg_count] is set to 0 (lines 223-228), and the directory stays where
    it was, while [cd /tmp] changes it. *)
Lemma cd_long_line_changes_nothing :
  firstn 2 (words whitespace long_cd_line) = [str "cd"; str "/tmp"]
  /\ Z.of_nat (length (words whitespace long_cd_line)) = BIG_NUM
  /\ firstn 2 (words whitespace (str "cd /tmp" ++ [LF])) = [str "cd"; str "/tmp"]
  /\ (exists w args n,
        dispatch (demo_os 4242) (demo_shell (str "/home/u"))
                 (str "cd /tmp" ++ [LF]) = Done (w, args, n, Running)
        /\ w_cwd w = str "/tmp")
  /\ (exists w args,
        dispatch (demo_os 4242) (demo_shell (str "/home/u")) long_cd_line
        = Done (w, args, 0, Running)
        /\ w_cwd w = str "/home/u"
        /\ w_trace w = [Stderr (str "Exceeded length" ++ [LF])]).
Proof.
  split; [vm_compute; reflexivity|].
  split; [vm_compute; reflexivity|].
  split; [vm_compute; reflexivity|].
  split.
  - do 3 eexists. split; [vm_compute; reflexivity|]. reflexivity.
  - do 2 eexists. split; [vm_compute; reflexivity|]. split; reflexivity.
Qed.

(** ** The loop: background commands *)

(** C2.  What the parent does after [fork], on three lines.  The test of
    line 304 reads [final_arg[strlen(final_arg - 1)]].
    - [sleep 1 &]: the byte before the last word is the NUL [strtok] wrote,
      the test looks at the first byte of the word, and the job is
      announced.
    - [sleep 1  &], two blanks before the [&]: the byte before the last
      word is a blank, the test looks past the word's terminator, and the
      parent waits although the last word is [&]; the child has dropped
      the [&] and runs [sleep 1].
    - [echo &x]: the last word is not [&], yet its first byte is, and the
      parent does not wait. *)
Theorem background_test_reads_wrong_byte :
  (exists sh,
     shell_iteration (demo_os 4242) (demo_shell (str "/home/u"))
                     (str "sleep 1 &" ++ [LF]) = Done (sh, Running)
     /\ skipn 5 (w_trace (sh_world sh))
        = [Fork 4242; IgnoreSigchld; Stdout (str "Job 4242" ++ [LF]); Free])
  /\ last (words whitespace (str "sleep 1  &" ++ [LF])) [] = str "&"
  /\ (exists sh,
        shell_iteration (demo_os 4242) (demo_shell (str "/home/u"))
                        (str "sleep 1  &" ++ [LF]) = Done (sh, Running)
        /\ skipn 5 (w_trace (sh_world sh)) = [Fork 4242; IgnoreSigchld; Wait; Free])
  /\ (exists sh,
        shell_iteration (demo_os 0) (demo_shell (str "/home/u"))
                        (str "sleep 1  &" ++ [LF]) = Done (sh, Replaced)
        /\ skipn 5 (w_trace (sh_world sh))
           = [Fork 0; Execvp (str "sleep") [str "sleep"; str "1"] 0])
  /\ last (words whitespace (str "echo &x" ++ [LF])) [] = str "&x"
  /\ (exists sh,
        shell_iteration (demo_os 4242) (demo_shell (str "/home/u"))
                        (str "echo &x" ++ [LF]) = Done (sh, Running)
        /\ skipn 5 (w_trace (sh_world sh))
           = [Fork 4242; IgnoreSigchld; Stdout (str "Job 4242" ++ [LF]); Free]).
Proof.
  repeat split; try (vm_compute; reflexivity);
    eexists; (split; [vm_compute; reflexivity|reflexivity]).
Qed.

(** * Further properties of the code *)

(** ** [tokenize] and its buffer *)

Section Overwriting.

Variable delim : bytes.

Lemma overwritten_refl (b : bytes) : overwritten delim b b.
Proof. induction b; constructor; auto. Qed.

Lemma overwritten_trans (a b c : bytes) :
  overwritten delim a b -> overwritten delim b c -> overwritten delim a c.
Proof.
  intros Hab. revert c. induction Hab as [|x y a b Hxy _ IH]; intros c Hbc;
    inversion Hbc as [|y' z b' c' Hyz Hbc']; subst; constructor.
  - destruct Hyz as [-> | [Hy ->]]; [assumption|].
    destruct Hxy as [-> | [Hx ->]]; auto.
  - now apply IH.
Qed.

Lemma overwritten_upd (b : bytes) :
  forall (e : nat) (d : ascii),
    nth_error b e = Some d -> is_delim delim d = true ->
    overwritten delim b (upd e NUL b).
Proof.
  induction b as [|x b IH]; intros [|e] d; simpl; try discriminate.
  - intros E Hd. injection E as ->. constructor; [auto|apply overwritten_refl].
  - intros E Hd. constructor; [auto|]. now apply (IH e d).
Qed.

Lemma strcspn_stops (s : bytes) :
  forall m d, strcspn delim s = Done m -> nth_error s m = Some d ->
              is_nul d = true \/ is_delim delim d = true.
Proof.
  induction s as [|x s IH]; intros m d; simpl; [discriminate|].
  destruct (is_nul x) eqn:Hn.
  - intros E. injection E as <-. simpl. intros E. injection E as <-. auto.
  - destruct (is_delim delim x) eqn:Hd.
    + intros E. injection E as <-. simpl. intros E. injection E as <-. auto.
    + destruct (strcspn delim s) as [k| |]; simpl; try discriminate.
      intros E. injection E as <-. simpl. now apply IH.
Qed.

(** A call of [strtok] changes at most one byte: the delimiter that closes
    the word it returns. *)
Lemma strtok_overwrites (buf : bytes) (save : nat) (word : option cptr)
    (buf' : bytes) (save' : nat) :
  strtok delim buf save = Done (word, buf', save') ->
  overwritten delim buf buf'.
Proof.
  unfold strtok.
  destruct (strspn delim (skipn save buf)) as [n| |]; simpl; try discriminate.
  destruct (peek buf (save + n)) as [c| |]; simpl; try discriminate.
  destruct (is_nul c).
  { intros E. injection E as _ <- _. apply overwritten_refl. }
  destruct (strcspn delim (skipn (save + n) buf)) as [m| |] eqn:Em; simpl;
    try discriminate.
  destruct (peek buf (save + n + m)) as [d| |] eqn:Ed; simpl; try discriminate.
  destruct (is_nul d) eqn:Hd; intros E; injection E as _ <- _.
  - apply overwritten_refl.
  - apply peek_inside in Ed as [Ed _].
    apply (overwritten_upd buf _ d Ed).
    assert (Hd' : nth_error (skipn (save + n) buf) m = Some d)
      by now rewrite nth_error_skipn.
    destruct (strcspn_stops _ _ _ Em Hd') as [H|H]; congruence.
Qed.

Lemma tokenize_loop_overwrites (limit : Z) :
  forall (fuel : nat) (word : option cptr) (buf : bytes) (save : nat)
         (tokens : list (option cptr)) (count : Z)
         (buf' : bytes) (tokens' : list (option cptr)) (count' : Z),
    tokenize_loop fuel delim limit word buf save tokens count
    = Done (buf', tokens', count') ->
    overwritten delim buf buf'.
Proof.
  induction fuel as [|fuel IH];
    intros word buf save tokens count buf' tokens' count';
    cbn [tokenize_loop]; destruct word as [w|];
    try (intros E; injection E as <- _ _; apply overwritten_refl);
    destruct (count <? limit - 1);
    try discriminate;
    try (intros E; injection E as <- _ _; apply overwritten_refl).
  destruct (store tokens count (Some w)) as [tk| |]; cbn [bind];
    try discriminate.
  destruct (strtok delim buf save) as [[[word1 buf1] save1]| |] eqn:E1;
    cbn [bind]; try discriminate.
  intros E. apply overwritten_trans with (b := buf1).
  - now apply strtok_overwrites in E1.
  - now apply IH in E.
Qed.

(** X3.  Tokenizing is destructive, and only in one way: whenever
    [tokenize] returns, on any buffer at all, the buffer it leaves has the
    length of the one it got, and each of its bytes is the byte that was
    there before or a NUL in the place of a delimiter. *)
Theorem tokenize_overwrites_delimiters_only (string : bytes)
    (tokens : list (option cptr)) (token_count : Z) (t : tokenized) :
  tokenize string delim tokens token_count = Done t ->
  overwritten delim string (tk_buf t) /\ length (tk_buf t) = length string.
Proof.
  intros E.
  assert (H : overwritten delim string (tk_buf t)).
  { revert E. unfold tokenize.
    destruct (strtok delim string 0) as [[[word buf] save]| |] eqn:E0;
      cbn [bind]; try discriminate.
    destruct (tokenize_loop _ _ _ _ _ _ _ _) as [[[buf' tokens'] count]| |]
      eqn:E1; cbn [bind]; try discriminate.
    destruct (store tokens' count None) as [tokens''| |]; cbn [bind];
      try discriminate.
    intros E. injection E as <-. cbn [tk_buf].
    apply overwritten_trans with (b := buf).
    - now apply strtok_overwrites in E0.
    - now apply tokenize_loop_overwrites in E1. }
  split; [exact H|]. symmetry. exact (Forall2_length H).
Qed.

End Overwriting.

Lemma tokenize_overwrites_delimiters_only_witness :
  tokenize (str "ls -l  /tmp" ++ [LF; NUL]) whitespace
           [None; None; None; None; None] 5
  = Done (mkTokenized 0
            (str "ls" ++ NUL :: str "-l" ++ NUL :: str " /tmp" ++ [NUL; NUL])
            [Some (PBuf 0); Some (PBuf 3); Some (PBuf 7); None; None] 3)
  /\ overwritten whitespace (str "ls -l  /tmp" ++ [LF; NUL])
       (str "ls" ++ NUL :: str "-l" ++ NUL :: str " /tmp" ++ [NUL; NUL])
  /\ length (str "ls" ++ NUL :: str "-l" ++ NUL :: str " /tmp" ++ [NUL; NUL])
     = length (str "ls -l  /tmp" ++ [LF; NUL]).
Proof.
  split; [reflexivity|].
  apply (tokenize_overwrites_delimiters_only whitespace
           (str "ls -l  /tmp" ++ [LF; NUL]) [None; None; None; None; None] 5
           (mkTokenized 0
              (str "ls" ++ NUL :: str "-l" ++ NUL :: str " /tmp" ++ [NUL; NUL])
              [Some (PBuf 0); Some (PBuf 3); Some (PBuf 7); None; None] 3)).
  reflexivity.
Defined.

(** ** [cd]: which path for which argument *)

Lemma append_items_overflow (items : list bytes) :
  forall p : bytes,
    Z.of_nat (length p) < PATH_MAX ->
    PATH_MAX <= Z.of_nat (length (p ++ joined items)) ->
    append_items p items = Undefined BufferOverflow.
Proof.
  unfold joined.
  induction items as [|s items IH]; intros p Hp Hbig; simpl in *.
  - rewrite app_nil_r in Hbig. lia.
  - rewrite !length_app in Hbig. simpl in Hbig. rewrite length_app in Hbig.
    unfold strcat at 1. simpl length.
    destruct (Z.of_nat (length p + 1) <? PATH_MAX) eqn:H1; [|reflexivity].
    cbn [bind]. unfold strcat at 1. rewrite length_app. simpl length.
    destruct (Z.of_nat (length p + 1 + length s) <? PATH_MAX) eqn:H2;
      [|reflexivity].
    cbn [bind]. apply Z.ltb_lt in H2. apply IH.
    + rewrite !length_app. simpl. lia.
    + rewrite !length_app. simpl. lia.
Qed.

Lemma segments_of_words (g1 g2 : bytes) :
  words (str "/") g1 = words (str "/") g2 -> segments g1 = segments g2.
Proof. unfold segments. now intros ->. Qed.

Lemma bytes_eqb_false (a b : bytes) : a <> b -> bytes_eqb a b = false.
Proof. apply bytes_eqb_neq. Qed.

(** The path for an argument whose first segment is neither [~] nor [-],
    as long as it fits. *)
Lemma cd_new_path_plain (w : world) (g s0 : bytes) (rest : list bytes) :
  nul_free g = true ->
  segments g = s0 :: rest ->
  s0 <> str "~" -> s0 <> str "-" ->
  Z.of_nat (length (anchor w g ++ joined (segments g))) < PATH_MAX ->
  cd_new_path w (Some g) = Done (anchor w g ++ joined (segments g), w).
Proof.
  intros Hnf Hseg Htilde Hdash Hfit.
  rewrite cd_new_path_segments by assumption.
  unfold new_path_of_segments. rewrite Hseg in *.
  rewrite (bytes_eqb_false _ _ Htilde), (bytes_eqb_false _ _ Hdash).
  unfold anchor in *. destruct (rooted g).
  - change (strcpy PATH_MAX (str "/")) with (Done (str "/")). cbn [bind].
    now rewrite append_items_fits.
  - rewrite length_app in Hfit.
    rewrite getcwd_fits by lia. cbn [read_buffer bind].
    unfold strcat at 1. cbn [length Nat.add app].
    replace (Z.of_nat (length (w_cwd w)) <? PATH_MAX) with true
      by (symmetry; apply Z.ltb_lt; lia).
    cbn [bind]. rewrite append_items_fits; [reflexivity|].
    rewrite length_app. lia.
Qed.

(** X4.  An argument whose first segment is neither [~] nor [-] is turned
    into the anchor ([/] when the argument starts with [/], the working
    directory otherwise) followed by [/] and a segment, for every segment
    in turn.  Empty segments are gone, [.] and [..] are kept, and an
    absolute argument always starts with two slashes. *)
Theorem cd_joins_anchor_and_segments (w : world) (g s0 : bytes)
    (rest : list bytes) :
  nul_free g = true ->
  segments g = s0 :: rest ->
  s0 <> str "~" -> s0 <> str "-" ->
  Z.of_nat (length (anchor w g ++ joined (segments g))) < PATH_MAX ->
  cd_new_path w (Some g) = Done (anchor w g ++ joined (segments g), w)
  /\ (rooted g = true ->
      exists tail, cd_new_path w (Some g) = Done (str "//" ++ s0 ++ tail, w)).
Proof.
  intros Hnf Hseg Htilde Hdash Hfit.
  assert (E := cd_new_path_plain w g s0 rest Hnf Hseg Htilde Hdash Hfit).
  split; [exact E|].
  intros Hr. exists (joined rest). rewrite E. unfold anchor. rewrite Hr, Hseg.
  unfold joined. simpl. reflexivity.
Qed.

Lemma cd_joins_anchor_and_segments_witness :
  nul_free (str "/usr//local/../lib/") = true
  /\ segments (str "/usr//local/../lib/")
     = str "usr" :: [str "local"; str ".."; str "lib"]
  /\ cd_new_path (demo_world (str "/x")) (Some (str "/usr//local/../lib/"))
     = Done (str "//usr/local/../lib", demo_world (str "/x")).
Proof.
  split; [reflexivity|].
  split; [vm_compute; reflexivity|].
  destruct (cd_joins_anchor_and_segments (demo_world (str "/x"))
              (str "/usr//local/../lib/") (str "usr")
              [str "local"; str ".."; str "lib"]) as [E _].
  - reflexivity.
  - vm_compute. reflexivity.
  - discriminate.
  - discriminate.
  - vm_compute. reflexivity.
  - rewrite E. vm_compute. reflexivity.
Defined.

(** X5.  [cd] sees its argument through the segments and the first byte
    only: two arguments with the same segments that both start with [/],
    or both do not, are treated alike.  So [a//b/] is [a/b]. *)
Theorem cd_ignores_empty_segments (os : OS) (w : world) (g1 g2 : bytes) :
  nul_free g1 = true -> nul_free g2 = true ->
  words (str "/") g1 = words (str "/") g2 ->
  rooted g1 = rooted g2 ->
  cd os w (Some g1) = cd os w (Some g2).
Proof.
  intros H1 H2 Hw Hr. unfold cd.
  rewrite !cd_new_path_segments by assumption.
  unfold new_path_of_segments.
  now rewrite (segments_of_words g1 g2 Hw), Hr.
Qed.

Lemma cd_ignores_empty_segments_witness :
  nul_free (str "a//b/") = true /\ nul_free (str "a/b") = true
  /\ words (str "/") (str "a//b/") = words (str "/") (str "a/b")
  /\ rooted (str "a//b/") = rooted (str "a/b")
  /\ cd (demo_os 4242) (demo_world (str "/x")) (Some (str "a//b/"))
     = cd (demo_os 4242) (demo_world (str "/x")) (Some (str "a/b")).
Proof.
  split; [reflexivity|]. split; [reflexivity|].
  split; [reflexivity|]. split; [reflexivity|].
  apply (cd_ignores_empty_segments (demo_os 4242) (demo_world (str "/x"))
           (str "a//b/") (str "a/b")); reflexivity.
Defined.

(** X6.  Nothing checks the path against the 4096 bytes of [new_path]:
    when the anchor and the segments do not fit, [strcpy] or [strcat]
    writes past the end of the buffer.  The check [main] makes on the
    argument (at most 4096 bytes) does not prevent this. *)
Theorem cd_overflows_new_path (os : OS) (w : world) (g s0 : bytes)
    (rest : list bytes) :
  nul_free g = true ->
  segments g = s0 :: rest ->
  s0 <> str "~" -> s0 <> str "-" ->
  Z.of_nat (length (w_cwd w)) < PATH_MAX ->
  PATH_MAX <= Z.of_nat (length (anchor w g ++ joined (segments g))) ->
  cd os w (Some g) = Undefined BufferOverflow.
Proof.
  intros Hnf Hseg Htilde Hdash Hcwd Hbig. unfold cd.
  rewrite cd_new_path_segments by assumption.
  unfold new_path_of_segments. rewrite Hseg in *.
  rewrite (bytes_eqb_false _ _ Htilde), (bytes_eqb_false _ _ Hdash).
  unfold anchor in *. destruct (rooted g).
  - change (strcpy PATH_MAX (str "/")) with (Done (str "/")). cbn [bind].
    rewrite append_items_overflow; [reflexivity| |assumption].
    vm_compute. reflexivity.
  - rewrite getcwd_fits by lia. cbn [read_buffer bind].
    unfold strcat at 1. cbn [length Nat.add app].
    replace (Z.of_nat (length (w_cwd w)) <? PATH_MAX) with true
      by (symmetry; apply Z.ltb_lt; lia).
    cbn [bind]. rewrite append_items_overflow; [reflexivity|lia|assumption].
Qed.

Lemma cd_overflows_new_path_witness :
  nul_free long_name = true
  /\ segments long_name = long_name :: []
  /\ Z.of_nat (length long_name) <= PATH_MAX
  /\ Z.of_nat (length (w_cwd (demo_world (str "/x")))) < PATH_MAX
  /\ PATH_MAX <= Z.of_nat (length (anchor (demo_world (str "/x")) long_name
                                     ++ joined (segments long_name)))
  /\ cd (demo_os 4242) (demo_world (str "/x")) (Some long_name)
     = Undefined BufferOverflow.
Proof.
  split; [vm_compute; reflexivity|].
  split; [vm_compute; reflexivity|].
  split; [vm_compute; discriminate|].
  split; [vm_compute; reflexivity|].
  split; [vm_compute; discriminate|].
  apply (cd_overflows_new_path (demo_os 4242) (demo_world (str "/x"))
           long_name long_name []).
  - vm_compute. reflexivity.
  - vm_compute. reflexivity.
  - vm_compute. discriminate.
  - vm_compute. discriminate.
  - vm_compute. reflexivity.
  - vm_compute. discriminate.
Defined.

(** X7.  An argument without any segment ([/], [//], the empty string)
    leaves NULL in [path[0]], and line 93 hands it to [strcmp]: the call is
    undefined. *)
Theorem cd_without_segment_reads_null (os : OS) (w : world) (g : bytes) :
  nul_free g = true ->
  words (str "/") g = [] ->
  cd os w (Some g) = Undefined NullDeref.
Proof.
  intros Hnf Hw. unfold cd. rewrite cd_new_path_segments by assumption.
  unfold new_path_of_segments, segments. rewrite Hw.
  now rewrite firstn_nil.
Qed.

Lemma cd_without_segment_reads_null_witness :
  nul_free (str "/") = true
  /\ words (str "/") (str "/") = []
  /\ cd (demo_os 4242) (demo_world (str "/x")) (Some (str "/"))
     = Undefined NullDeref.
Proof.
  split; [reflexivity|]. split; [reflexivity|].
  apply (cd_without_segment_reads_null (demo_os 4242) (demo_world (str "/x"))
           (str "/")); reflexivity.
Defined.

(** ** [cd -] *)

Lemma cd_new_path_dash (w : world) (g : bytes) (rest : list bytes) (o : bytes) :
  nul_free g = true ->
  words (str "/") g = str "-" :: rest ->
  getenv (str "OLDPWD") (w_env w) = Some o ->
  Z.of_nat (length o) < PATH_MAX ->
  cd_new_path w (Some g) = Done (o, emit (Stdout (o ++ [LF])) w).
Proof.
  intros Hnf Hw Ho Hfit. rewrite cd_new_path_segments by assumption.
  unfold new_path_of_segments.
  destruct (segments_head g _ _ Hw) as (rest' & ->).
  eval_eqb. rewrite Ho. cbn [option_map load_arg load bind].
  unfold strcpy. apply Z.ltb_lt in Hfit. now rewrite Hfit.
Qed.

(** X8.  When the first segment of the argument is [-], the path is the
    value of [OLDPWD] and nothing else: the segments after the [-] are
    dropped, a leading [/] makes no difference, and the path is printed
    on standard output before [chdir] is called.  The call does what
    [cd -] does. *)
Theorem cd_dash_is_oldpwd_alone (os : OS) (w : world) (g : bytes)
    (rest : list bytes) (o : bytes) :
  nul_free g = true ->
  words (str "/") g = str "-" :: rest ->
  getenv (str "OLDPWD") (w_env w) = Some o ->
  Z.of_nat (length o) < PATH_MAX ->
  cd_new_path w (Some g) = Done (o, emit (Stdout (o ++ [LF])) w)
  /\ cd os w (Some g) = cd os w (Some (str "-")).
Proof.
  intros Hnf Hw Ho Hfit.
  assert (E := cd_new_path_dash w g rest o Hnf Hw Ho Hfit).
  split; [exact E|]. unfold cd. rewrite E.
  now rewrite (cd_new_path_dash w (str "-") [] o eq_refl eq_refl Ho Hfit).
Qed.

Lemma cd_dash_is_oldpwd_alone_witness :
  nul_free (str "/-/tmp") = true
  /\ words (str "/") (str "/-/tmp") = str "-" :: [str "tmp"]
  /\ getenv (str "OLDPWD") (w_env (demo_world (str "/x"))) = Some (str "/")
  /\ Z.of_nat (length (str "/")) < PATH_MAX
  /\ cd_new_path (demo_world (str "/x")) (Some (str "/-/tmp"))
     = Done (str "/", emit (Stdout (str "/" ++ [LF])) (demo_world (str "/x")))
  /\ cd (demo_os 4242) (demo_world (str "/x")) (Some (str "/-/tmp"))
     = cd (demo_os 4242) (demo_world (str "/x")) (Some (str "-")).
Proof.
  split; [reflexivity|]. split; [reflexivity|].
  split; [reflexivity|]. split; [vm_compute; reflexivity|].
  apply (cd_dash_is_oldpwd_alone (demo_os 4242) (demo_world (str "/x"))
           (str "/-/tmp") [str "tmp"] (str "/")).
  - reflexivity.
  - reflexivity.
  - reflexivity.
  - vm_compute. reflexivity.
Defined.

(** X9.  [cd -] twice leads back.  From directory [c] with [OLDPWD = o],
    both directories reachable and the environment writable, the first
    [cd -] ends in [o] with [OLDPWD = c], and the second ends in [c] with
    [OLDPWD = o] again and [PWD = c]. *)
Theorem cd_dash_twice_returns (os : OS) (w : world) (o : bytes) :
  getenv (str "OLDPWD") (w_env w) = Some o ->
  Z.of_nat (length o) < PATH_MAX ->
  Z.of_nat (length (w_cwd w)) < PATH_MAX ->
  os_chdir os (w_cwd w) o = inr o ->
  os_chdir os o (w_cwd w) = inr (w_cwd w) ->
  (forall name value env, os_setenv os env name value = None) ->
  exists w1 w2,
    cd os w (Some (str "-")) = Done w1
    /\ w_cwd w1 = o
    /\ getenv (str "OLDPWD") (w_env w1) = Some (w_cwd w)
    /\ cd os w1 (Some (str "-")) = Done w2
    /\ w_cwd w2 = w_cwd w
    /\ getenv (str "OLDPWD") (w_env w2) = Some o
    /\ getenv (str "PWD") (w_env w2) = Some (w_cwd w).
Proof.
  intros Ho Hfo Hfc Hch1 Hch2 Hset.
  assert (E1 := cd_new_path_dash w (str "-") [] o eq_refl eq_refl Ho Hfo).
  assert (C1 := cd_after_chdir os w _ _ _ o E1 Hfc Hch1).
  rewrite !Hset in C1. cbv zeta in C1. rewrite ?Hset in C1.
  set (w1 := mkWorld (putenv (str "PWD") o
                        (putenv (str "OLDPWD") (w_cwd w) (w_env w))) o
               (w_trace (emit (Stdout (o ++ [LF])) w)
                ++ [Chdir o 0; Setenv (str "OLDPWD") (w_cwd w) 0;
                    Setenv (str "PWD") o 0])) in *.
  assert (Hold1 : getenv (str "OLDPWD") (w_env w1) = Some (w_cwd w)).
  { cbn [w1 w_env]. rewrite getenv_putenv_other by discriminate.
    apply getenv_putenv_same. }
  assert (E2 := cd_new_path_dash w1 (str "-") [] (w_cwd w) eq_refl eq_refl
                  Hold1 Hfc).
  assert (C2 := cd_after_chdir os w1 _ _ _ (w_cwd w) E2 Hfo Hch2).
  rewrite !Hset in C2. cbv zeta in C2. rewrite ?Hset in C2.
  eexists. eexists.
  split; [exact C1|]. split; [reflexivity|]. split; [exact Hold1|].
  split; [exact C2|]. cbn [w_cwd w_env w1].
  split; [reflexivity|]. split.
  - rewrite getenv_putenv_other by discriminate. apply getenv_putenv_same.
  - apply getenv_putenv_same.
Qed.

Lemma cd_dash_twice_returns_witness :
  getenv (str "OLDPWD") (w_env (demo_world (str "/x"))) = Some (str "/")
  /\ os_chdir (demo_os 4242) (w_cwd (demo_world (str "/x"))) (str "/")
     = inr (str "/")
  /\ os_chdir (demo_os 4242) (str "/") (w_cwd (demo_world (str "/x")))
     = inr (w_cwd (demo_world (str "/x")))
  /\ exists w1 w2,
       cd (demo_os 4242) (demo_world (str "/x")) (Some (str "-")) = Done w1
       /\ w_cwd w1 = str "/"
       /\ getenv (str "OLDPWD") (w_env w1) = Some (w_cwd (demo_world (str "/x")))
       /\ cd (demo_os 4242) w1 (Some (str "-")) = Done w2
       /\ w_cwd w2 = w_cwd (demo_world (str "/x"))
       /\ getenv (str "OLDPWD") (w_env w2) = Some (str "/")
       /\ getenv (str "PWD") (w_env w2) = Some (w_cwd (demo_world (str "/x"))).
Proof.
  split; [reflexivity|].
  split; [vm_compute; reflexivity|].
  split; [vm_compute; reflexivity|].
  apply (cd_dash_twice_returns (demo_os 4242) (demo_world (str "/x")) (str "/")).
  - reflexivity.
  - vm_compute. reflexivity.
  - vm_compute. reflexivity.
  - vm_compute. reflexivity.
  - vm_compute. reflexivity.
  - reflexivity.
Defined.

(** ** [cd ~] *)

(** X19.  When the first segment of the argument is [~], the path is the
    value of [HOME], a [/] for the segment that was the [~], and then [/]
    and a segment for each further segment: [~/src] becomes [HOME//src].
    A [/] before the [~] makes no difference. *)
Theorem cd_tilde_keeps_a_separator (w : world) (g : bytes)
    (rest : list bytes) (h : bytes) :
  nul_free g = true ->
  segments g = str "~" :: rest ->
  getenv (str "HOME") (w_env w) = Some h ->
  Z.of_nat (length (h ++ str "/" ++ joined rest)) < PATH_MAX ->
  cd_new_path w (Some g) = Done (h ++ str "/" ++ joined rest, w).
Proof.
  intros Hnf Hseg Hh Hfit. rewrite cd_new_path_segments by assumption.
  unfold new_path_of_segments. rewrite Hseg, Hh. eval_eqb.
  cbn [option_map load_arg load bind]. unfold strcpy.
  rewrite length_app in Hfit.
  replace (Z.of_nat (length h) <? PATH_MAX) with true
    by (symmetry; apply Z.ltb_lt; lia).
  cbn [bind]. rewrite append_items_fits; [reflexivity|].
  rewrite length_app. exact Hfit.
Qed.

Lemma cd_tilde_keeps_a_separator_witness :
  nul_free (str "/~/src/") = true
  /\ segments (str "/~/src/") = str "~" :: [str "src"]
  /\ getenv (str "HOME") (w_env (demo_world (str "/x"))) = Some (str "/home/u")
  /\ cd_new_path (demo_world (str "/x")) (Some (str "/~/src/"))
     = Done (str "/home/u//src", demo_world (str "/x")).
Proof.
  split; [reflexivity|]. split; [vm_compute; reflexivity|].
  split; [reflexivity|].
  apply (cd_tilde_keeps_a_separator (demo_world (str "/x")) (str "/~/src/")
           [str "src"] (str "/home/u")).
  - reflexivity.
  - vm_compute. reflexivity.
  - reflexivity.
  - vm_compute. reflexivity.
Defined.

(** ** The loop: what is done with a line *)

Lemma app_eq_length_l {A : Type} (a b c d : list A) :
  length a = length b -> a ++ c = b ++ d -> a = b.
Proof.
  revert b. induction a as [|x a IH]; intros [|y b] Hl H;
    simpl in *; try discriminate; [reflexivity|].
  injection H as -> H. f_equal. apply IH; [lia|assumption].
Qed.

Lemma reads_length (b : bytes) (qs : list nat) (ws : list bytes) :
  reads b qs ws -> length qs = length ws.
Proof. apply Forall2_length. Qed.

Lemma ptrs_app (qs0 : list nat) (ql : nat) :
  ptrs (qs0 ++ [ql]) = ptrs qs0 ++ [Some (PBuf ql)].
Proof. unfold ptrs. now rewrite map_app. Qed.

Lemma ptrs_length (qs : list nat) : length (ptrs qs) = length qs.
Proof. unfold ptrs. apply length_map. Qed.

Lemma ptrs_inj (qs1 qs2 : list nat) : ptrs qs1 = ptrs qs2 -> qs1 = qs2.
Proof.
  revert qs2. induction qs1 as [|q qs1 IH]; intros [|q' qs2] H;
    simpl in H; try discriminate; [reflexivity|].
  injection H as -> H. f_equal. now apply IH.
Qed.


(** A line of fewer than 2047 words, tokenized into the argument array. *)
Lemma tokenize_accepted (sh : shell) (line : bytes) (ws : list bytes) :
  nul_free line = true ->
  words whitespace line = ws ->
  Z.of_nat (length ws) < BIG_NUM - 1 ->
  length (sh_args sh) = Z.to_nat BIG_NUM ->
  exists b qs tail,
    tokenize (line ++ [NUL]) (str " " ++ [LF]) (sh_args sh) BIG_NUM
    = Done (mkTokenized 0 b (ptrs qs ++ None :: tail) (Z.of_nat (length ws)))
    /\ reads b qs ws
    /\ tail = skipn (S (length ws)) (sh_args sh).
Proof.
  intros Hnf Hws Hcount Hargs.
  change (str " " ++ [LF]) with whitespace.
  destruct (tokenize_spec whitespace line [] BIG_NUM (sh_args sh) Hnf)
    as (b & qs & Etok & Hqs & Hreads & _).
  { rewrite Hws, Hargs. unfold BIG_NUM in *. lia. }
  assert (Ek : Nat.min (length (words whitespace line))
                       (Z.to_nat (BIG_NUM - 1)) = length ws)
    by (rewrite Hws; lia).
  rewrite Ek in Etok, Hqs, Hreads. rewrite Hws, firstn_all in Hreads.
  replace (Z.of_nat (length ws) <? BIG_NUM - 1) with true in Etok
    by (symmetry; apply Z.ltb_lt; lia).
  exists b, qs, (skipn (S (length ws)) (sh_args sh)). auto.
Qed.

(** X10.  [exit] ends the shell with status 0 whatever follows it on the
    line: the other words are not looked at, nothing is forked, and
    nothing is written. *)
Theorem exit_ignores_its_arguments (os : OS) (sh : shell) (line : bytes)
    (rest : list bytes) :
  nul_free line = true ->
  words whitespace line = str "exit" :: rest ->
  Z.of_nat (length (words whitespace line)) < BIG_NUM - 1 ->
  length (sh_args sh) = Z.to_nat BIG_NUM ->
  exists args,
    dispatch os sh line
    = Done (sh_world sh, args, Z.of_nat (length (words whitespace line)),
            Exited EXIT_SUCCESS).
Proof.
  intros Hnf Hws Hcount Hargs. rewrite Hws in *.
  destruct (tokenize_accepted sh line _ Hnf Hws Hcount Hargs)
    as (b & qs & tail & Etok & Hreads & _).
  unfold dispatch. rewrite Etok. cbn [bind tk_ret tk_buf tk_tokens tk_count].
  cbn [Z.eqb negb].
  inversion Hreads as [|q0 s0 qs' ws' Hq0 Hreads' Eqs Ews]. subst.
  cbn [ptrs map app]. rewrite fetch_head. cbn [bind load_arg].
  replace (Z.of_nat (length (str "exit" :: rest)) =? 0) with false
    by (symmetry; apply Z.eqb_neq; simpl length; lia).
  rewrite Hq0. cbn [bind]. eval_eqb. eauto.
Qed.

Lemma exit_ignores_its_arguments_witness :
  nul_free (str "exit now &" ++ [LF]) = true
  /\ words whitespace (str "exit now &" ++ [LF])
     = str "exit" :: [str "now"; str "&"]
  /\ exists args,
       dispatch (demo_os 4242) (demo_shell (str "/x")) (str "exit now &" ++ [LF])
       = Done (sh_world (demo_shell (str "/x")), args,
               Z.of_nat (length (words whitespace (str "exit now &" ++ [LF]))),
               Exited EXIT_SUCCESS).
Proof.
  split; [reflexivity|]. split; [reflexivity|].
  apply (exit_ignores_its_arguments (demo_os 4242) (demo_shell (str "/x"))
           (str "exit now &" ++ [LF]) [str "now"; str "&"]).
  - reflexivity.
  - reflexivity.
  - vm_compute. reflexivity.
  - vm_compute. reflexivity.
Defined.

(** X11.  A line without a word (empty, or blanks and newlines only) does
    nothing: the world is as before and the loop goes on. *)
Theorem blank_line_does_nothing (os : OS) (sh : shell) (line : bytes) :
  nul_free line = true ->
  all_delims whitespace line = true ->
  length (sh_args sh) = Z.to_nat BIG_NUM ->
  exists args, dispatch os sh line = Done (sh_world sh, args, 0, Running).
Proof.
  intros Hnf Hblank Hargs.
  destruct (tokenize_accepted sh line [] Hnf (words_all_delims _ _ Hblank))
    as (b & qs & tail & Etok & Hreads & _).
  { vm_compute. reflexivity. }
  { assumption. }
  unfold dispatch. rewrite Etok. cbn [bind tk_ret tk_buf tk_tokens tk_count].
  inversion Hreads. subst. cbn [Z.eqb negb ptrs map app length Z.of_nat].
  rewrite fetch_head. cbn [bind Z.eqb]. eauto.
Qed.

Lemma blank_line_does_nothing_witness :
  nul_free (str "   " ++ [LF]) = true
  /\ all_delims whitespace (str "   " ++ [LF]) = true
  /\ exists args,
       dispatch (demo_os 4242) (demo_shell (str "/x")) (str "   " ++ [LF])
       = Done (sh_world (demo_shell (str "/x")), args, 0, Running).
Proof.
  split; [reflexivity|]. split; [reflexivity|].
  apply (blank_line_does_nothing (demo_os 4242) (demo_shell (str "/x"))
           (str "   " ++ [LF])).
  - reflexivity.
  - reflexivity.
  - vm_compute. reflexivity.
Defined.

(** X12.  A line of 2047 words or more is given up whatever its first
    word is, [exit] and [cd] included: "Exceeded length" is written to the
    diagnostic stream, nothing else happens, and the loop goes on. *)
Theorem long_line_is_given_up (os : OS) (sh : shell) (line : bytes) :
  nul_free line = true ->
  BIG_NUM - 1 <= Z.of_nat (length (words whitespace line)) ->
  length (sh_args sh) = Z.to_nat BIG_NUM ->
  exists args,
    dispatch os sh line
    = Done (emit (Stderr (str "Exceeded length" ++ [LF])) (sh_world sh),
            args, 0, Running).
Proof.
  intros Hnf Hcount Hargs. unfold dispatch.
  change (str " " ++ [LF]) with whitespace.
  destruct (tokenize_spec whitespace line [] BIG_NUM (sh_args sh) Hnf)
    as (b & qs & Etok & Hqs & _ & _).
  { rewrite Hargs. unfold BIG_NUM in *. lia. }
  assert (Ek : Nat.min (length (words whitespace line))
                       (Z.to_nat (BIG_NUM - 1)) = Z.to_nat (BIG_NUM - 1))
    by lia.
  rewrite Ek in Etok, Hqs.
  replace (Z.of_nat (Z.to_nat (BIG_NUM - 1)) <? BIG_NUM - 1) with false in Etok
    by (symmetry; apply Z.ltb_ge; unfold BIG_NUM; lia).
  rewrite Etok. cbn [bind tk_ret tk_buf tk_tokens tk_count].
  change (negb (-1 =? 0)) with true. cbv iota.
  destruct qs as [|q0 qs].
  { unfold BIG_NUM in Hqs. simpl in Hqs. lia. }
  cbn [ptrs map app]. rewrite fetch_head. cbn [bind Z.eqb]. eauto.
Qed.

Lemma long_line_is_given_up_witness :
  nul_free (str "exit " ++ line_of_words 2046) = true
  /\ hd_error (words whitespace (str "exit " ++ line_of_words 2046))
     = Some (str "exit")
  /\ BIG_NUM - 1
     <= Z.of_nat (length (words whitespace (str "exit " ++ line_of_words 2046)))
  /\ exists args,
       dispatch (demo_os 4242) (demo_shell (str "/x"))
                (str "exit " ++ line_of_words 2046)
       = Done (emit (Stderr (str "Exceeded length" ++ [LF]))
                    (sh_world (demo_shell (str "/x"))),
               args, 0, Running).
Proof.
  split; [vm_compute; reflexivity|].
  split; [vm_compute; reflexivity|].
  split; [vm_compute; discriminate|].
  apply (long_line_is_given_up (demo_os 4242) (demo_shell (str "/x"))
           (str "exit " ++ line_of_words 2046)).
  - vm_compute. reflexivity.
  - vm_compute. discriminate.
  - vm_compute. reflexivity.
Defined.

(** X13.  [cd] with an argument of more than 4096 bytes is refused before
    [cd] is called: the complaint goes to the diagnostic stream, no
    [chdir] is tried, and the loop goes on. *)
Theorem cd_argument_too_long_is_refused (os : OS) (sh : shell) (line a : bytes)
    (rest : list bytes) :
  nul_free line = true ->
  words whitespace line = str "cd" :: a :: rest ->
  Z.of_nat (length (words whitespace line)) < BIG_NUM - 1 ->
  length (sh_args sh) = Z.to_nat BIG_NUM ->
  PATH_MAX < Z.of_nat (length a) ->
  exists args,
    dispatch os sh line
    = Done (emit (Stderr (str "ERROR: Path Invalid: too long")) (sh_world sh),
            args, Z.of_nat (length (words whitespace line)), Running).
Proof.
  intros Hnf Hws Hcount Hargs Hlong. rewrite Hws in *.
  destruct (tokenize_accepted sh line _ Hnf Hws Hcount Hargs)
    as (b & qs & tail & Etok & Hreads & _).
  unfold dispatch. rewrite Etok. cbn [bind tk_ret tk_buf tk_tokens tk_count].
  cbn [Z.eqb negb].
  inversion Hreads as [|q0 s0 qs' ws' Hq0 Hreads' Eqs Ews]. subst.
  inversion Hreads' as [|q1 s1 qs'' ws'' Hq1 Hreads'' Eqs Ews]. subst.
  cbn [ptrs map app]. rewrite fetch_head. cbn [bind load_arg].
  replace (Z.of_nat (length (str "cd" :: a :: rest)) =? 0) with false
    by (symmetry; apply Z.eqb_neq; simpl length; lia).
  rewrite Hq0. cbn [bind]. eval_eqb. cbn [andb].
  replace (1 <? Z.of_nat (length (str "cd" :: a :: rest))) with true
    by (symmetry; apply Z.ltb_lt; simpl length; lia).
  change (fetch (Some (PBuf q0) :: Some (PBuf q1) :: map _ qs'' ++ None :: tail) 1)
    with (Done (Some (PBuf q1))).
  cbn [bind]. unfold strlen. cbn [load_arg]. rewrite Hq1. cbn [bind].
  replace (PATH_MAX <? Z.of_nat (length a)) with true
    by (symmetry; now apply Z.ltb_lt).
  eauto.
Qed.

Lemma cd_argument_too_long_is_refused_witness :
  nul_free (str "cd " ++ repeat "a"%char 4097 ++ [LF]) = true
  /\ words whitespace (str "cd " ++ repeat "a"%char 4097 ++ [LF])
     = str "cd" :: repeat "a"%char 4097 :: []
  /\ PATH_MAX < Z.of_nat (length (repeat "a"%char 4097))
  /\ exists args,
       dispatch (demo_os 4242) (demo_shell (str "/x"))
                (str "cd " ++ repeat "a"%char 4097 ++ [LF])
       = Done (emit (Stderr (str "ERROR: Path Invalid: too long"))
                    (sh_world (demo_shell (str "/x"))),
               args,
               Z.of_nat (length (words whitespace
                                   (str "cd " ++ repeat "a"%char 4097 ++ [LF]))),
               Running).
Proof.
  split; [vm_compute; reflexivity|].
  split; [vm_compute; reflexivity|].
  split; [vm_compute; reflexivity|].
  apply (cd_argument_too_long_is_refused (demo_os 4242) (demo_shell (str "/x"))
           (str "cd " ++ repeat "a"%char 4097 ++ [LF]) (repeat "a"%char 4097) []).
  - vm_compute. reflexivity.
  - vm_compute. reflexivity.
  - vm_compute. reflexivity.
  - vm_compute. reflexivity.
  - vm_compute. reflexivity.
Defined.

(** ** The buffer and the pointers [tokenize] leaves, exactly *)

Section Exact.

Variable delim : bytes.

Lemma closed_app (a b : bytes) :
  forall st, closed delim st (a ++ b)
             = closed delim st a ++ closed delim (ends_in_word delim st a) b.
Proof.
  induction a as [|c a IH]; intros st; simpl; [reflexivity|].
  destruct (is_delim delim c); simpl; now rewrite IH.
Qed.

Lemma starts_app (a b : bytes) :
  forall st off,
    starts delim st off (a ++ b)
    = starts delim st off a
      ++ starts delim (ends_in_word delim st a) (off + length a) b.
Proof.
  induction a as [|c a IH]; intros st off; simpl.
  - now rewrite Nat.add_0_r.
  - replace (off + S (length a))%nat with (S off + length a)%nat by lia.
    destruct (is_delim delim c); simpl; [apply IH|].
    destruct st; simpl; now rewrite IH.
Qed.

Lemma closed_length (s : bytes) :
  forall st, length (closed delim st s) = length s.
Proof.
  induction s as [|c s IH]; intros st; simpl; [reflexivity|].
  destruct (is_delim delim c); simpl; now rewrite IH.
Qed.

Lemma closed_delims (ds : bytes) :
  all_delims delim ds = true -> closed delim false ds = ds.
Proof.
  induction ds as [|c ds IH]; simpl; intros H; [reflexivity|].
  apply andb_true_iff in H as [Hc Hds]. now rewrite Hc, IH.
Qed.

Lemma starts_delims (ds : bytes) :
  all_delims delim ds = true ->
  forall st off, starts delim st off ds = [].
Proof.
  induction ds as [|c ds IH]; simpl; intros H st off; [reflexivity|].
  apply andb_true_iff in H as [Hc Hds]. rewrite Hc. now apply IH.
Qed.

Lemma ends_delims (ds : bytes) :
  all_delims delim ds = true -> ds <> [] ->
  forall st, ends_in_word delim st ds = false.
Proof.
  induction ds as [|c ds IH]; simpl; intros H Hne st; [contradiction|].
  apply andb_true_iff in H as [Hc Hds]. rewrite Hc. simpl.
  destruct ds as [|c' ds']; [reflexivity|]. apply IH; [assumption|discriminate].
Qed.

Lemma ends_delims_false (ds : bytes) :
  all_delims delim ds = true -> ends_in_word delim false ds = false.
Proof.
  destruct ds as [|c ds]; [reflexivity|].
  intros H. apply ends_delims; [assumption|discriminate].
Qed.

Lemma closed_word (w : bytes) :
  no_delims delim w = true -> forall st, closed delim st w = w.
Proof.
  induction w as [|c w IH]; simpl; intros H st; [reflexivity|].
  apply andb_true_iff in H as [Hc Hw]. apply negb_true_iff in Hc.
  now rewrite Hc, IH.
Qed.

Lemma starts_word_inside (w : bytes) :
  no_delims delim w = true -> forall off, starts delim true off w = [].
Proof.
  induction w as [|c w IH]; simpl; intros H off; [reflexivity|].
  apply andb_true_iff in H as [Hc Hw]. apply negb_true_iff in Hc.
  rewrite Hc. now apply IH.
Qed.

Lemma starts_word (w : bytes) (off : nat) :
  no_delims delim w = true -> w <> [] -> starts delim false off w = [off].
Proof.
  destruct w as [|c w]; [contradiction|]. simpl. intros H _.
  apply andb_true_iff in H as [Hc Hw]. apply negb_true_iff in Hc.
  rewrite Hc. now rewrite starts_word_inside.
Qed.

Lemma ends_word (w : bytes) :
  no_delims delim w = true -> w <> [] ->
  forall st, ends_in_word delim st w = true.
Proof.
  induction w as [|c w IH]; simpl; intros H Hne st; [contradiction|].
  apply andb_true_iff in H as [Hc Hw]. rewrite Hc.
  destruct w as [|c' w']; [reflexivity|]. apply IH; [assumption|discriminate].
Qed.

(** [closed] and [starts] on the three shapes of a string. *)
Lemma closed_last (ds w : bytes) :
  all_delims delim ds = true -> no_delims delim w = true ->
  closed delim false (ds ++ w) = ds ++ w.
Proof.
  intros Hds Hw. now rewrite closed_app, closed_delims, closed_word.
Qed.

Lemma closed_more (ds w : bytes) (c : ascii) (rest : bytes) :
  all_delims delim ds = true -> no_delims delim w = true -> w <> [] ->
  is_delim delim c = true ->
  closed delim false (ds ++ w ++ c :: rest)
  = ds ++ w ++ NUL :: closed delim false rest.
Proof.
  intros Hds Hw Hne Hc.
  rewrite closed_app, closed_delims, closed_app, closed_word by assumption.
  rewrite ends_word by assumption. simpl. now rewrite Hc.
Qed.

Lemma starts_last (ds w : bytes) (off : nat) :
  all_delims delim ds = true -> no_delims delim w = true -> w <> [] ->
  starts delim false off (ds ++ w) = [(off + length ds)%nat].
Proof.
  intros Hds Hw Hne.
  rewrite starts_app, starts_delims, ends_delims_false by assumption.
  now apply starts_word.
Qed.

Lemma starts_more (ds w : bytes) (c : ascii) (rest : bytes) (off : nat) :
  all_delims delim ds = true -> no_delims delim w = true -> w <> [] ->
  is_delim delim c = true ->
  starts delim false off (ds ++ w ++ c :: rest)
  = (off + length ds)%nat
    :: starts delim false (S (off + length ds + length w)) rest.
Proof.
  intros Hds Hw Hne Hc.
  rewrite starts_app, starts_delims, ends_delims_false by assumption.
  rewrite starts_app, starts_word, ends_word by assumption.
  simpl. rewrite Hc. reflexivity.
Qed.

(** One call of [strtok], with the bytes it leaves. *)
Lemma strtok_exact (pre rem post : bytes) :
  nul_free rem = true ->
  (words delim rem = [] /\ closed delim false rem = rem
   /\ starts delim false (length pre) rem = []
   /\ exists save,
        strtok delim (pre ++ rem ++ NUL :: post) (length pre)
        = Done (None, pre ++ rem ++ NUL :: post, save))
  \/
  (exists w rem1 pre1 q,
     words delim rem = w :: words delim rem1
     /\ strtok delim (pre ++ rem ++ NUL :: post) (length pre)
        = Done (Some (PBuf q), pre1 ++ rem1 ++ NUL :: post, length pre1)
     /\ nul_free rem1 = true /\ (length rem1 < length rem)%nat
     /\ pre ++ closed delim false rem = pre1 ++ closed delim false rem1
     /\ starts delim false (length pre) rem
        = q :: starts delim false (length pre1) rem1).
Proof.
  intros Hnf.
  destruct (shape_total delim rem)
    as [Hb | ds w E Hds Hne Hw | ds w c rest E Hds Hne Hw Hc].
  - left. split; [now apply words_all_delims|].
    split; [now apply closed_delims|].
    split; [now apply starts_delims|].
    rewrite strtok_blank by assumption. eauto.
  - right. subst rem.
    rewrite !nul_free_app in Hnf. apply andb_true_iff in Hnf as [Hnds Hnw].
    exists w, [], (pre ++ ds ++ w), (length pre + length ds)%nat.
    split.
    { rewrite words_delims_app, words_word by auto. reflexivity. }
    split.
    { rewrite <- app_assoc, strtok_word by auto.
      rewrite is_nul_NUL, !length_app, <- !app_assoc, Nat.add_assoc.
      reflexivity. }
    split; [reflexivity|].
    split.
    { rewrite length_app. destruct w; [contradiction|simpl; lia]. }
    split.
    { rewrite closed_last by assumption. simpl.
      now rewrite app_nil_r. }
    now rewrite starts_last.
  - right. subst rem.
    rewrite !nul_free_app in Hnf. apply andb_true_iff in Hnf as [Hnds Hnw].
    apply andb_true_iff in Hnw as [Hnw Hnr].
    simpl in Hnr. apply andb_true_iff in Hnr as [Hnc Hnr].
    apply negb_true_iff in Hnc.
    exists w, rest, (pre ++ ds ++ w ++ [NUL]), (length pre + length ds)%nat.
    split.
    { rewrite words_delims_app, words_word_app by auto. reflexivity. }
    split.
    { replace (pre ++ (ds ++ w ++ c :: rest) ++ NUL :: post)
        with (pre ++ ds ++ w ++ c :: (rest ++ NUL :: post))
        by (rewrite <- !app_assoc; simpl; rewrite <- ?app_assoc; reflexivity).
      rewrite strtok_word by (auto; rewrite Hc; apply orb_true_r).
      rewrite Hnc.
      replace (length (pre ++ ds ++ w ++ [NUL]))
        with (S (length pre + length ds + length w))
        by (rewrite !length_app; simpl; lia).
      rewrite <- !app_assoc. reflexivity. }
    split; [assumption|].
    split; [rewrite !length_app; simpl; lia|].
    split.
    { rewrite closed_more by assumption. rewrite <- !app_assoc. reflexivity. }
    rewrite starts_more by assumption.
    replace (length (pre ++ ds ++ w ++ [NUL]))
      with (S (length pre + length ds + length w))
      by (rewrite !length_app; simpl; lia).
    reflexivity.
Qed.

(** The words of a string are as many as their starts. *)
Lemma starts_count :
  forall (n : nat) (s : bytes) (off : nat),
    (length s < n)%nat -> nul_free s = true ->
    length (starts delim false off s) = length (words delim s).
Proof.
  induction n as [|n IH]; intros s off Hn Hnf; [lia|].
  destruct (strtok_exact (repeat NUL off) s [] Hnf)
    as [(Hw & _ & Hs & _) | (w & rem1 & pre1 & q & Hw & _ & Hnf1 & Hlen & _ & Hs)];
    rewrite repeat_length in Hs; rewrite Hw, Hs; simpl; [reflexivity|].
  f_equal. apply IH; [lia|assumption].
Qed.

(** The loop when every word left has a slot: it stores them all. *)
Lemma tokenize_loop_exact (limit : Z) (post : bytes) :
  forall (fuel : nat) (rem pre : bytes) (q : nat)
         (done todo : list (option cptr)),
    (length rem < fuel)%nat ->
    nul_free rem = true ->
    Z.of_nat (length done) + Z.of_nat (S (length (words delim rem)))
    <= limit - 1 ->
    (S (length (words delim rem)) <= length todo)%nat ->
    tokenize_loop fuel delim limit (Some (PBuf q))
                  (pre ++ rem ++ NUL :: post) (length pre)
                  (done ++ todo) (Z.of_nat (length done))
    = Done (pre ++ closed delim false rem ++ NUL :: post,
            done ++ ptrs (q :: starts delim false (length pre) rem)
                 ++ skipn (S (length (words delim rem))) todo,
            Z.of_nat (length done + S (length (words delim rem)))).
Proof.
  induction fuel as [|fuel IH]; intros rem pre q done todo Hfuel Hnf Hlim Htodo;
    [lia|].
  cbn [tokenize_loop].
  replace (Z.of_nat (length done) <? limit - 1) with true
    by (symmetry; apply Z.ltb_lt; lia).
  destruct todo as [|x todo]; [simpl in Htodo; lia|].
  rewrite store_app. cbn [bind].
  destruct (strtok_exact pre rem post Hnf)
    as [(Hw & Hc & Hs & save & E)
       |(w1 & rem1 & pre1 & q1 & Hw & E & Hnf1 & Hlen1 & Hc & Hs)].
  - rewrite E. cbn [bind]. rewrite tokenize_loop_none.
    rewrite Hw, Hc, Hs. simpl. now rewrite Nat2Z.inj_add.
  - rewrite E. cbn [bind].
    assert (Hlen : Z.of_nat (length (done ++ [Some (PBuf q)]))
                   = Z.of_nat (length done) + 1)
      by (rewrite length_app; simpl; lia).
    rewrite Hw in *. simpl length in Hlim, Htodo.
    replace (done ++ Some (PBuf q) :: todo)
      with ((done ++ [Some (PBuf q)]) ++ todo) by now rewrite <- app_assoc.
    rewrite <- Hlen.
    rewrite (IH rem1 pre1 q1 (done ++ [Some (PBuf q)]) todo);
      try assumption; try lia.
    replace (pre ++ closed delim false rem ++ NUL :: post)
      with ((pre ++ closed delim false rem) ++ NUL :: post)
      by now rewrite <- app_assoc.
    rewrite Hs, Hc, <- (app_assoc pre1).
    replace (length (done ++ [Some (PBuf q)])
             + S (length (words delim rem1)))%nat
      with (length done + length (w1 :: words delim rem1)
            + 1)%nat by (rewrite length_app; simpl; lia).
    replace (length done + S (length (w1 :: words delim rem1)))%nat
      with (length done + length (w1 :: words delim rem1) + 1)%nat by lia.
    rewrite <- (app_assoc done). reflexivity.
Qed.

(** [tokenize] on a string all of whose words fit: the buffer it leaves
    and the pointers it stores. *)
Lemma tokenize_exact (s : bytes) (limit : Z) (tokens : list (option cptr)) :
  nul_free s = true ->
  Z.of_nat (length (words delim s)) <= limit - 1 ->
  (length (words delim s) < length tokens)%nat ->
  tokenize (s ++ [NUL]) delim tokens limit
  = Done (mkTokenized
            (if Z.of_nat (length (words delim s)) <? limit - 1 then 0 else -1)
            (closed delim false s ++ [NUL])
            (ptrs (starts delim false 0 s)
             ++ None :: skipn (S (length (words delim s))) tokens)
            (Z.of_nat (length (words delim s)))).
Proof.
  intros Hnf Hlim Hcap. unfold tokenize.
  destruct (strtok_exact [] s [] Hnf)
    as [(Hw & Hc & Hs & save & E)
       |(w1 & rem1 & pre1 & q1 & Hw & E & Hnf1 & Hlen1 & Hc & Hs)];
    simpl app in E, Hc; simpl length in E, Hs; rewrite E; cbn [bind].
  - rewrite tokenize_loop_none. cbn [bind].
    rewrite Hw, Hc, Hs in *. simpl length.
    destruct tokens as [|x tokens]; [simpl in Hcap; lia|].
    rewrite store_head. reflexivity.
  - rewrite Hw in *. simpl length in Hlim, Hcap.
    assert (F1 : (length rem1 < length (s ++ [NUL]))%nat)
      by (rewrite length_app; simpl; lia).
    assert (F3 : Z.of_nat (length (@nil (option cptr)))
                 + Z.of_nat (S (length (words delim rem1))) <= limit - 1)
      by (simpl length; lia).
    assert (F4 : (S (length (words delim rem1)) <= length tokens)%nat) by lia.
    assert (Eloop := tokenize_loop_exact limit [] _ rem1 pre1 q1 [] tokens
                       F1 Hnf1 F3 F4).
    cbn [app length Nat.add] in Eloop. change (Z.of_nat 0) with 0 in Eloop.
    rewrite Eloop. cbn [bind].
    assert (Hsplit :
              skipn (S (length (words delim rem1))) tokens
              = nth (S (length (words delim rem1))) tokens None
                  :: skipn (S (S (length (words delim rem1)))) tokens).
    { clear -Hcap. revert Hcap.
      generalize (S (length (words delim rem1))) as k. intros k.
      revert tokens. induction k as [|k IHk]; intros [|x t] H;
        simpl in H; try lia; [reflexivity|].
      simpl. apply IHk. lia. }
    rewrite Hsplit.
    set (P := ptrs (q1 :: starts delim false (length pre1) rem1)).
    assert (HP : Z.of_nat (S (length (words delim rem1)))
                 = Z.of_nat (length P)).
    { subst P. rewrite ptrs_length. simpl length.
      now rewrite (starts_count (S (length rem1)) rem1 _
                     (Nat.lt_succ_diag_r _) Hnf1). }
    rewrite HP, store_app. cbn [bind]. rewrite <- HP.
    subst P. rewrite Hs, Hc, <- app_assoc. reflexivity.
Qed.

End Exact.

(** ** The loop: launching a program *)

Lemma reads_last (b : bytes) (qs : list nat) (ws0 : list bytes) (wl : bytes) :
  reads b qs (ws0 ++ [wl]) ->
  exists qs0 ql, qs = qs0 ++ [ql] /\ reads b qs0 ws0
                 /\ load b (PBuf ql) = Done wl.
Proof.
  intros H. apply Forall2_app_inv_r in H as (qs0 & qs1 & H0 & H1 & ->).
  inversion H1 as [|ql w' qs2 ws2 Hl Hnil]. subst.
  inversion Hnil. subst. eauto.
Qed.

(** The child: [execvp] gets the first word as the file and the words as
    the argument vector, the last one dropped when it is [&]. *)
Lemma run_child_spec (os : OS) (w : world) (b : bytes)
    (command : option cptr) (qs : list nat) (ws : list bytes)
    (tail : list (option cptr)) (c : bytes) :
  reads b qs ws -> ws <> [] -> load_arg b command = Done c ->
  run_child os w b command (ptrs qs ++ None :: tail) (Z.of_nat (length ws))
  = match os_execvp os c (child_argv ws) with
    | None => Done (emit (Execvp c (child_argv ws) 0) w, Replaced)
    | Some e =>
        Done (emit (Perror [] (Zpos e))
                   (emit (Execvp c (child_argv ws) (Zpos e)) w),
              Exited (-1))
    end.
Proof.
  intros Hreads Hne Hc.
  destruct (exists_last Hne) as (ws0 & wl & ->).
  destruct (reads_last b qs ws0 wl Hreads) as (qs0 & ql & -> & Hreads0 & Hl).
  unfold run_child. rewrite ptrs_app, <- app_assoc. cbn [app].
  assert (Hidx : Z.of_nat (length (ws0 ++ [wl])) - 1
                 = Z.of_nat (length (ptrs qs0))).
  { rewrite ptrs_length, (reads_length _ _ _ Hreads0), length_app.
    simpl. lia. }
  rewrite Hidx, fetch_app. cbn [bind load_arg]. rewrite Hl. cbn [bind].
  unfold child_argv. rewrite last_last, removelast_last.
  destruct (bytes_eqb wl (str "&")).
  - rewrite store_app. cbn [bind]. rewrite Hc. cbn [bind].
    rewrite (read_argv_ptrs b qs0 ws0 _ Hreads0). cbn [bind]. reflexivity.
  - cbn [bind]. rewrite Hc. cbn [bind].
    replace (ptrs qs0 ++ Some (PBuf ql) :: None :: tail)
      with (ptrs (qs0 ++ [ql]) ++ None :: tail)
      by (now rewrite ptrs_app, <- app_assoc).
    rewrite (read_argv_ptrs b (qs0 ++ [ql]) (ws0 ++ [wl]) _ Hreads).
    cbn [bind]. reflexivity.
Qed.

(** A line of fewer than 2047 words in the argument array: the buffer and
    the pointers are those of [tokenize_exact], and the pointers read as
    the words. *)
Lemma tokenize_accepted_exact (sh : shell) (line : bytes) (ws : list bytes) :
  nul_free line = true ->
  words whitespace line = ws ->
  Z.of_nat (length ws) < BIG_NUM - 1 ->
  length (sh_args sh) = Z.to_nat BIG_NUM ->
  tokenize (line ++ [NUL]) (str " " ++ [LF]) (sh_args sh) BIG_NUM
  = Done (mkTokenized 0 (closed whitespace false line ++ [NUL])
            (ptrs (starts whitespace false 0 line)
             ++ None :: skipn (S (length ws)) (sh_args sh))
            (Z.of_nat (length ws)))
  /\ reads (closed whitespace false line ++ [NUL])
           (starts whitespace false 0 line) ws.
Proof.
  intros Hnf Hws Hcount Hargs.
  destruct (tokenize_accepted sh line ws Hnf Hws Hcount Hargs)
    as (b & qs & tail & Etok & Hreads & _).
  assert (Eexact := tokenize_exact whitespace line BIG_NUM (sh_args sh) Hnf).
  rewrite Hws in Eexact.
  replace (Z.of_nat (length ws) <? BIG_NUM - 1) with true in Eexact
    by (symmetry; apply Z.ltb_lt; lia).
  change (str " " ++ [LF]) with whitespace in *.
  rewrite Eexact in Etok by (try lia; rewrite Hargs; unfold BIG_NUM in *; lia).
  rewrite Eexact by (try lia; rewrite Hargs; unfold BIG_NUM in *; lia).
  split; [reflexivity|].
  injection Etok as Eb Et.
  apply app_eq_length_l in Et.
  - apply ptrs_inj in Et. now rewrite Eb, Et.
  - rewrite !ptrs_length, (reads_length _ _ _ Hreads).
    rewrite (starts_count whitespace (S (length line)) line 0
               (Nat.lt_succ_diag_r _) Hnf).
    now rewrite Hws.
Qed.

(** A line that names a program reaches [fork]. *)
Lemma dispatch_program (os : OS) (sh : shell) (line c : bytes)
    (rest : list bytes) :
  nul_free line = true ->
  words whitespace line = c :: rest ->
  c <> str "exit" -> c <> str "cd" ->
  Z.of_nat (length (words whitespace line)) < BIG_NUM - 1 ->
  length (sh_args sh) = Z.to_nat BIG_NUM ->
  exists b qs tail,
    b = closed whitespace false line ++ [NUL]
    /\ qs = starts whitespace false 0 line
    /\ reads b qs (c :: rest)
    /\ dispatch os sh line
       = (let n := Z.of_nat (length (words whitespace line)) in
          let args := ptrs qs ++ None :: tail in
          let '(errno, child_pid) :=
            match os_fork os with
            | inl e => (Zpos e, -1)
            | inr pid => (0, pid)
            end in
          let w := emit (Fork child_pid) (sh_world sh) in
          if child_pid =? 0 then
            '(w, st) <- run_child os w b (hd None (ptrs qs)) args n ;;
            Done (w, args, n, st)
          else if child_pid =? -1 then
            Done (emit (Perror (str "Fork failed: ") errno) w, args, n,
                  Exited EXIT_FAILURE)
          else
            w <- run_parent w b args n child_pid ;;
            Done (w, args, n, Running)).
Proof.
  intros Hnf Hws Hexit Hcd Hcount Hargs. rewrite Hws in *.
  destruct (tokenize_accepted_exact sh line _ Hnf Hws Hcount Hargs)
    as (Etok & Hreads).
  eexists. eexists. eexists.
  split; [reflexivity|]. split; [reflexivity|]. split; [exact Hreads|].
  unfold dispatch. rewrite Etok. cbn [bind tk_ret tk_buf tk_tokens tk_count].
  cbn [Z.eqb negb].
  inversion Hreads as [|q0 s0 qs' ws' Hq0 Hreads' Eqs Ews]. subst.
  cbn [ptrs map app hd]. rewrite fetch_head. cbn [bind load_arg].
  replace (Z.of_nat (length (c :: rest)) =? 0) with false
    by (symmetry; apply Z.eqb_neq; simpl length; lia).
  rewrite Hq0. cbn [bind].
  rewrite (bytes_eqb_false _ _ Hexit), (bytes_eqb_false _ _ Hcd).
  cbn [andb bind]. reflexivity.
Qed.

(** X14.  When [fork] fails, the shell reports it and ends with status 1;
    it does not go back to the prompt. *)
Theorem fork_failure_ends_the_shell (os : OS) (sh : shell) (line c : bytes)
    (rest : list bytes) (e : positive) :
  nul_free line = true ->
  words whitespace line = c :: rest ->
  c <> str "exit" -> c <> str "cd" ->
  Z.of_nat (length (words whitespace line)) < BIG_NUM - 1 ->
  length (sh_args sh) = Z.to_nat BIG_NUM ->
  os_fork os = inl e ->
  exists args,
    dispatch os sh line
    = Done (mkWorld (w_env (sh_world sh)) (w_cwd (sh_world sh))
                    (w_trace (sh_world sh)
                     ++ [Fork (-1); Perror (str "Fork failed: ") (Zpos e)]),
            args, Z.of_nat (length (words whitespace line)),
            Exited EXIT_FAILURE).
Proof.
  intros Hnf Hws Hexit Hcd Hcount Hargs Hfork.
  destruct (dispatch_program os sh line c rest Hnf Hws Hexit Hcd Hcount Hargs)
    as (b & qs & tail & _ & _ & _ & E).
  rewrite E, Hfork. cbv zeta. cbn [Z.eqb]. unfold emit.
  cbn [w_env w_cwd w_trace]. rewrite <- app_assoc. eexists. reflexivity.
Qed.

(** X15.  In the child, [execvp] is called with the first word of the line
    as the file and the words of the line as the arguments, the last word
    dropped when it is exactly [&] (an [&] anywhere else stays).  If
    [execvp] returns, the cause is reported and the child ends with the
    value [execvp] returned, -1. *)
Theorem child_runs_the_words (os : OS) (sh : shell) (line c : bytes)
    (rest : list bytes) :
  nul_free line = true ->
  words whitespace line = c :: rest ->
  c <> str "exit" -> c <> str "cd" ->
  Z.of_nat (length (words whitespace line)) < BIG_NUM - 1 ->
  length (sh_args sh) = Z.to_nat BIG_NUM ->
  os_fork os = inr 0 ->
  exists args,
    dispatch os sh line
    = let n := Z.of_nat (length (words whitespace line)) in
      let argv := child_argv (c :: rest) in
      let w := emit (Fork 0) (sh_world sh) in
      match os_execvp os c argv with
      | None => Done (emit (Execvp c argv 0) w, args, n, Replaced)
      | Some e =>
          Done (emit (Perror [] (Zpos e)) (emit (Execvp c argv (Zpos e)) w),
                args, n, Exited (-1))
      end.
Proof.
  intros Hnf Hws Hexit Hcd Hcount Hargs Hfork.
  destruct (dispatch_program os sh line c rest Hnf Hws Hexit Hcd Hcount Hargs)
    as (b & qs & tail & _ & _ & Hreads & E).
  rewrite E, Hfork. cbv zeta. cbn [Z.eqb].
  exists (ptrs qs ++ None :: tail).
  assert (Hcmd : load_arg b (hd None (ptrs qs)) = Done c).
  { inversion Hreads. subst. assumption. }
  rewrite Hws.
  rewrite (run_child_spec os _ b _ qs (c :: rest) tail c Hreads
             ltac:(discriminate) Hcmd).
  destruct (os_execvp os c (child_argv (c :: rest))); reflexivity.
Qed.

Lemma fork_failure_ends_the_shell_witness :
  nul_free (str "ls -l" ++ [LF]) = true
  /\ words whitespace (str "ls -l" ++ [LF]) = str "ls" :: [str "-l"]
  /\ os_fork demo_os_fork_fails = inl EAGAIN
  /\ exists args,
       dispatch demo_os_fork_fails (demo_shell (str "/x")) (str "ls -l" ++ [LF])
       = Done (mkWorld (w_env (sh_world (demo_shell (str "/x"))))
                       (w_cwd (sh_world (demo_shell (str "/x"))))
                       (w_trace (sh_world (demo_shell (str "/x")))
                        ++ [Fork (-1);
                            Perror (str "Fork failed: ") (Zpos EAGAIN)]),
               args,
               Z.of_nat (length (words whitespace (str "ls -l" ++ [LF]))),
               Exited EXIT_FAILURE).
Proof.
  split; [reflexivity|]. split; [reflexivity|]. split; [reflexivity|].
  apply (fork_failure_ends_the_shell demo_os_fork_fails (demo_shell (str "/x"))
           (str "ls -l" ++ [LF]) (str "ls") [str "-l"] EAGAIN).
  - reflexivity.
  - reflexivity.
  - discriminate.
  - discriminate.
  - vm_compute. reflexivity.
  - vm_compute. reflexivity.
  - reflexivity.
Defined.

Lemma child_runs_the_words_witness :
  nul_free (str "echo & hi  &" ++ [LF]) = true
  /\ words whitespace (str "echo & hi  &" ++ [LF])
     = str "echo" :: [str "&"; str "hi"; str "&"]
  /\ child_argv (str "echo" :: [str "&"; str "hi"; str "&"])
     = [str "echo"; str "&"; str "hi"]
  /\ os_fork demo_os_child = inr 0
  /\ exists args,
       dispatch demo_os_child (demo_shell (str "/x"))
                (str "echo & hi  &" ++ [LF])
       = Done (emit (Execvp (str "echo") [str "echo"; str "&"; str "hi"] 0)
                    (emit (Fork 0) (sh_world (demo_shell (str "/x")))),
               args, 4, Replaced).
Proof.
  split; [reflexivity|]. split; [reflexivity|]. split; [reflexivity|].
  split; [reflexivity|].
  destruct (child_runs_the_words demo_os_child (demo_shell (str "/x"))
              (str "echo & hi  &" ++ [LF]) (str "echo")
              [str "&"; str "hi"; str "&"]) as (args & E).
  - reflexivity.
  - reflexivity.
  - discriminate.
  - discriminate.
  - vm_compute. reflexivity.
  - vm_compute. reflexivity.
  - reflexivity.
  - exists args. rewrite E. reflexivity.
Defined.

(** ** The loop: does the parent wait? *)

Lemma not_ampersand (c : ascii) :
  is_delim whitespace c = true -> Ascii.eqb c "&" = false.
Proof.
  intros H. destruct (Ascii.eqb c "&") eqn:E; [|reflexivity].
  apply Ascii.eqb_eq in E. subst c. discriminate.
Qed.

(** The parent, with the last pointer singled out. *)
Lemma run_parent_last (w : world) (b : bytes) (qs0 : list nat) (ql : nat)
    (tail : list (option cptr)) (pid : Z) :
  run_parent w b (ptrs (qs0 ++ [ql]) ++ None :: tail)
             (Z.of_nat (length (qs0 ++ [ql]))) pid
  = (before <- ptr_pred (Some (PBuf ql)) ;;
     n <- strlen b before ;;
     c <- index b (Some (PBuf ql)) n ;;
     if negb (Ascii.eqb c "&"%char)
     then Done (emit Wait (emit IgnoreSigchld w))
     else Done (emit (Stdout (str "Job " ++ decimal pid ++ [LF]))
                     (emit IgnoreSigchld w))).
Proof.
  unfold run_parent. rewrite ptrs_app, <- app_assoc. cbn [app].
  replace (Z.of_nat (length (qs0 ++ [ql])) - 1)
    with (Z.of_nat (length (ptrs qs0)))
    by (rewrite ptrs_length, length_app; simpl; lia).
  rewrite fetch_app. reflexivity.
Qed.

(** What a line that names a program comes to in the parent. *)
Lemma dispatch_parent (os : OS) (sh : shell) (line c : bytes)
    (rest : list bytes) (pid : Z) (qs0 : list nat) (ql : nat) :
  nul_free line = true ->
  words whitespace line = c :: rest ->
  c <> str "exit" -> c <> str "cd" ->
  Z.of_nat (length (words whitespace line)) < BIG_NUM - 1 ->
  length (sh_args sh) = Z.to_nat BIG_NUM ->
  os_fork os = inr pid -> pid <> 0 -> pid <> -1 ->
  starts whitespace false 0 line = qs0 ++ [ql] ->
  exists args,
    dispatch os sh line
    = (let b := closed whitespace false line ++ [NUL] in
       let w := emit IgnoreSigchld (emit (Fork pid) (sh_world sh)) in
       before <- ptr_pred (Some (PBuf ql)) ;;
       n <- strlen b before ;;
       c <- index b (Some (PBuf ql)) n ;;
       Done (emit (if Ascii.eqb c "&"%char
                   then Stdout (str "Job " ++ decimal pid ++ [LF])
                   else Wait) w,
             args, Z.of_nat (length (words whitespace line)), Running)).
Proof.
  intros Hnf Hws Hexit Hcd Hcount Hargs Hfork Hp0 Hp1 Hstarts.
  destruct (dispatch_program os sh line c rest Hnf Hws Hexit Hcd Hcount Hargs)
    as (b & qs & tail & -> & -> & Hreads & E).
  exists (ptrs (starts whitespace false 0 line) ++ None :: tail).
  rewrite E, Hfork. cbv zeta.
  apply Z.eqb_neq in Hp0, Hp1. rewrite Hp0, Hp1.
  replace (length (words whitespace line))
    with (length (starts whitespace false 0 line))
    by (apply (starts_count whitespace (S (length line)) line 0
                 (Nat.lt_succ_diag_r _) Hnf)).
  rewrite Hstarts, run_parent_last.
  destruct (ptr_pred (Some (PBuf ql))) as [before| |]; cbn [bind];
    try reflexivity.
  destruct (strlen _ before) as [n| |]; cbn [bind]; try reflexivity.
  destruct (index _ _ n) as [x| |]; cbn [bind]; try reflexivity.
  destruct (Ascii.eqb x "&"); reflexivity.
Qed.

(** X16.  The last word follows a word after exactly one blank (the line
    is [body], ending in a word, a delimiter, the last word, and blanks or
    the newline).  Then the parent looks at the first byte of the last
    word: it announces the job when that byte is [&] and waits
    otherwise.  So [sleep 5 &] is not waited for, and neither is
    [echo &x]. *)
Theorem parent_looks_at_first_byte (os : OS) (sh : shell)
    (line body : bytes) (d x : ascii) (wl back : bytes)
    (c : bytes) (rest : list bytes) (pid : Z) :
  nul_free line = true ->
  line = body ++ d :: (x :: wl) ++ back ->
  ends_in_word whitespace false body = true ->
  is_delim whitespace d = true ->
  no_delims whitespace (x :: wl) = true ->
  all_delims whitespace back = true ->
  words whitespace line = c :: rest ->
  c <> str "exit" -> c <> str "cd" ->
  Z.of_nat (length (words whitespace line)) < BIG_NUM - 1 ->
  length (sh_args sh) = Z.to_nat BIG_NUM ->
  os_fork os = inr pid -> pid <> 0 -> pid <> -1 ->
  exists args,
    dispatch os sh line
    = Done (mkWorld (w_env (sh_world sh)) (w_cwd (sh_world sh))
              (w_trace (sh_world sh)
               ++ [Fork pid; IgnoreSigchld;
                   if Ascii.eqb x "&"%char
                   then Stdout (str "Job " ++ decimal pid ++ [LF])
                   else Wait]),
            args, Z.of_nat (length (words whitespace line)), Running).
Proof.
  intros Hnf Hline Hbody Hd Hwl Hback Hws Hexit Hcd Hcount Hargs Hfork Hp0 Hp1.
  assert (Hstarts : starts whitespace false 0 line
                    = starts whitespace false 0 body ++ [S (length body)]).
  { rewrite Hline, starts_app, Hbody. f_equal. cbn [starts]. rewrite Hd.
    rewrite starts_app, starts_word by (assumption || discriminate).
    rewrite starts_delims by assumption. simpl. f_equal; lia. }
  assert (Hclosed : closed whitespace false line ++ [NUL]
                    = (closed whitespace false body ++ [NUL])
                      ++ x :: wl ++ closed whitespace true back ++ [NUL]).
  { rewrite Hline, closed_app, Hbody. cbn [closed]. rewrite Hd.
    rewrite closed_app, (closed_word whitespace (x :: wl) Hwl).
    rewrite ends_word by (assumption || discriminate).
    rewrite <- !app_assoc. simpl. rewrite <- ?app_assoc. reflexivity. }
  destruct (dispatch_parent os sh line c rest pid _ _ Hnf Hws Hexit Hcd Hcount
              Hargs Hfork Hp0 Hp1 Hstarts) as (args & E).
  exists args. rewrite E. cbv zeta. cbn [ptr_pred bind].
  assert (Hlen : length (closed whitespace false body) = length body)
    by apply closed_length.
  unfold strlen. cbn [load_arg load].
  rewrite Hclosed, <- Hlen, <- app_assoc, skipn_length_app.
  assert (Hnul : forall r, c_str (NUL :: r) = Done []) by reflexivity.
  cbn [app]. rewrite Hnul. cbn [bind length index].
  replace (S (length (closed whitespace false body)) + 0)%nat
    with (length (closed whitespace false body ++ [NUL]) + 0)%nat
    by (rewrite length_app; simpl; lia).
  replace (closed whitespace false body
           ++ NUL :: x :: wl ++ closed whitespace true back ++ [NUL])
    with ((closed whitespace false body ++ [NUL])
          ++ x :: wl ++ closed whitespace true back ++ [NUL])
    by now rewrite <- app_assoc.
  rewrite peek_app_plus. cbn [peek nth_error bind].
  unfold emit. cbn [w_env w_cwd w_trace]. rewrite <- !app_assoc.
  reflexivity.
Qed.

(** X17.  The last word has more than one delimiter before it, or one
    delimiter and nothing else (the line is [front], empty or ending in a
    delimiter, one more delimiter, the last word, and at least the
    newline).  Then the parent looks at the byte after the end of the last
    word, which is never [&], and waits, also when the last word is
    [&]. *)
Theorem parent_waits_after_wide_gap (os : OS) (sh : shell)
    (line front : bytes) (d d1 : ascii) (wl back : bytes)
    (c : bytes) (rest : list bytes) (pid : Z) :
  nul_free line = true ->
  line = front ++ d :: wl ++ d1 :: back ->
  ends_in_word whitespace false front = false ->
  is_delim whitespace d = true ->
  wl <> [] -> no_delims whitespace wl = true ->
  is_delim whitespace d1 = true ->
  all_delims whitespace back = true ->
  words whitespace line = c :: rest ->
  c <> str "exit" -> c <> str "cd" ->
  Z.of_nat (length (words whitespace line)) < BIG_NUM - 1 ->
  length (sh_args sh) = Z.to_nat BIG_NUM ->
  os_fork os = inr pid -> pid <> 0 -> pid <> -1 ->
  exists args,
    dispatch os sh line
    = Done (mkWorld (w_env (sh_world sh)) (w_cwd (sh_world sh))
              (w_trace (sh_world sh) ++ [Fork pid; IgnoreSigchld; Wait]),
            args, Z.of_nat (length (words whitespace line)), Running).
Proof.
  intros Hnf Hline Hfront Hd Hne Hwl Hd1 Hback Hws Hexit Hcd Hcount Hargs
         Hfork Hp0 Hp1.
  assert (Hstarts : starts whitespace false 0 line
                    = starts whitespace false 0 front ++ [S (length front)]).
  { assert (Hdb : all_delims whitespace (d1 :: back) = true)
      by (unfold all_delims in *; cbn [forallb]; now rewrite Hd1, Hback).
    rewrite Hline, starts_app, Hfront. f_equal. cbn [starts]. rewrite Hd.
    rewrite starts_app, (starts_word whitespace wl _ Hwl Hne).
    rewrite (starts_delims whitespace _ Hdb).
    simpl. f_equal; lia. }
  assert (Hclosed : closed whitespace false line ++ [NUL]
                    = (closed whitespace false front ++ d :: wl ++ [NUL])
                      ++ back ++ [NUL]).
  { rewrite Hline, closed_app, Hfront. cbn [closed]. rewrite Hd.
    rewrite closed_app, (closed_word whitespace wl Hwl).
    rewrite ends_word by assumption.
    cbn [closed]. rewrite Hd1, (closed_delims whitespace back Hback).
    rewrite <- !app_assoc. simpl. rewrite <- ?app_assoc. reflexivity. }
  assert (Hnfw : nul_free (d :: wl) = true).
  { rewrite Hline in Hnf. rewrite nul_free_app in Hnf.
    apply andb_true_iff in Hnf as [_ Hnf].
    change (d :: wl ++ d1 :: back) with ((d :: wl) ++ d1 :: back) in Hnf.
    rewrite nul_free_app in Hnf. now apply andb_true_iff in Hnf as [Hnf _]. }
  destruct (dispatch_parent os sh line c rest pid _ _ Hnf Hws Hexit Hcd Hcount
              Hargs Hfork Hp0 Hp1 Hstarts) as (args & E).
  exists args. rewrite E. cbv zeta. cbn [ptr_pred bind].
  assert (Hlen : length (closed whitespace false front) = length front)
    by apply closed_length.
  unfold strlen. cbn [load_arg load].
  rewrite Hclosed.
  replace ((closed whitespace false front ++ d :: wl ++ [NUL]) ++ back ++ [NUL])
    with (closed whitespace false front
          ++ (d :: wl) ++ NUL :: (back ++ [NUL]))
    by (rewrite <- !app_assoc; simpl; rewrite <- ?app_assoc; reflexivity).
  rewrite <- Hlen, skipn_length_app, (c_str_app _ _ Hnfw). cbn [bind index].
  replace (closed whitespace false front ++ (d :: wl) ++ NUL :: back ++ [NUL])
    with ((closed whitespace false front ++ (d :: wl) ++ [NUL])
          ++ back ++ [NUL])
    by (rewrite <- !app_assoc; simpl; rewrite <- ?app_assoc; reflexivity).
  replace (S (length (closed whitespace false front)) + length (d :: wl))%nat
    with (length (closed whitespace false front ++ (d :: wl) ++ [NUL]) + 0)%nat
    by (rewrite !length_app; simpl; rewrite ?length_app; simpl; lia).
  rewrite peek_app_plus.
  assert (Hc : exists y, peek (back ++ [NUL]) 0 = Done y
                         /\ Ascii.eqb y "&" = false).
  { destruct back as [|y back']; simpl.
    - exists NUL. split; reflexivity.
    - exists y. split; [reflexivity|]. simpl in Hback.
      apply andb_true_iff in Hback as [Hy _]. now apply not_ampersand. }
  destruct Hc as (y & -> & Hy). cbn [bind]. rewrite Hy.
  unfold emit. cbn [w_env w_cwd w_trace]. rewrite <- !app_assoc.
  reflexivity.
Qed.

(** X18.  A program named alone on its line, from the first column on:
    the only word starts at the start of the buffer, [final_arg - 1]
    points before the buffer, and what the parent does is undefined. *)
Theorem parent_undefined_for_lone_word (os : OS) (sh : shell)
    (line wl back : bytes) (pid : Z) :
  nul_free line = true ->
  line = wl ++ back ->
  wl <> [] -> no_delims whitespace wl = true ->
  all_delims whitespace back = true ->
  wl <> str "exit" -> wl <> str "cd" ->
  length (sh_args sh) = Z.to_nat BIG_NUM ->
  os_fork os = inr pid -> pid <> 0 -> pid <> -1 ->
  dispatch os sh line = Undefined OutOfBounds.
Proof.
  intros Hnf Hline Hne Hwl Hback Hexit Hcd Hargs Hfork Hp0 Hp1.
  assert (Hws : words whitespace line = wl :: []).
  { rewrite Hline. destruct back as [|y back'].
    - rewrite app_nil_r. now apply words_word.
    - simpl in Hback. apply andb_true_iff in Hback as [Hy Hb].
      rewrite words_word_app by assumption. f_equal.
      now apply words_all_delims. }
  assert (Hstarts : starts whitespace false 0 line = [] ++ [0%nat]).
  { rewrite Hline, starts_app, starts_word by assumption.
    now rewrite starts_delims. }
  assert (Hcount : Z.of_nat (length (words whitespace line)) < BIG_NUM - 1)
    by (rewrite Hws; vm_compute; reflexivity).
  destruct (dispatch_parent os sh line wl [] pid [] 0%nat Hnf Hws Hexit Hcd
              Hcount Hargs Hfork Hp0 Hp1 Hstarts) as (args & E).
  rewrite E. reflexivity.
Qed.

Lemma parent_looks_at_first_byte_witness :
  str "sleep 5 &" ++ [LF] = str "sleep 5" ++ " "%char :: ("&"%char :: []) ++ [LF]
  /\ ends_in_word whitespace false (str "sleep 5") = true
  /\ words whitespace (str "sleep 5 &" ++ [LF])
     = str "sleep" :: [str "5"; str "&"]
  /\ os_fork (demo_os 4242) = inr 4242
  /\ exists args,
       dispatch (demo_os 4242) (demo_shell (str "/x")) (str "sleep 5 &" ++ [LF])
       = Done (mkWorld (w_env (sh_world (demo_shell (str "/x"))))
                       (w_cwd (sh_world (demo_shell (str "/x"))))
                       (w_trace (sh_world (demo_shell (str "/x")))
                        ++ [Fork 4242; IgnoreSigchld;
                            Stdout (str "Job " ++ decimal 4242 ++ [LF])]),
               args,
               Z.of_nat (length (words whitespace (str "sleep 5 &" ++ [LF]))),
               Running).
Proof.
  split; [reflexivity|]. split; [reflexivity|]. split; [reflexivity|].
  split; [reflexivity|].
  apply (parent_looks_at_first_byte (demo_os 4242) (demo_shell (str "/x"))
           (str "sleep 5 &" ++ [LF]) (str "sleep 5") " "%char "&"%char [] [LF]
           (str "sleep") [str "5"; str "&"] 4242).
  - reflexivity.
  - reflexivity.
  - reflexivity.
  - reflexivity.
  - reflexivity.
  - reflexivity.
  - reflexivity.
  - discriminate.
  - discriminate.
  - vm_compute. reflexivity.
  - vm_compute. reflexivity.
  - reflexivity.
  - discriminate.
  - discriminate.
Defined.

Lemma parent_waits_after_wide_gap_witness :
  str "sleep 5  &" ++ [LF]
  = str "sleep 5 " ++ " "%char :: str "&" ++ LF :: []
  /\ ends_in_word whitespace false (str "sleep 5 ") = false
  /\ words whitespace (str "sleep 5  &" ++ [LF])
     = str "sleep" :: [str "5"; str "&"]
  /\ os_fork (demo_os 4242) = inr 4242
  /\ exists args,
       dispatch (demo_os 4242) (demo_shell (str "/x")) (str "sleep 5  &" ++ [LF])
       = Done (mkWorld (w_env (sh_world (demo_shell (str "/x"))))
                       (w_cwd (sh_world (demo_shell (str "/x"))))
                       (w_trace (sh_world (demo_shell (str "/x")))
                        ++ [Fork 4242; IgnoreSigchld; Wait]),
               args,
               Z.of_nat (length (words whitespace (str "sleep 5  &" ++ [LF]))),
               Running).
Proof.
  split; [reflexivity|]. split; [reflexivity|]. split; [reflexivity|].
  split; [reflexivity|].
  apply (parent_waits_after_wide_gap (demo_os 4242) (demo_shell (str "/x"))
           (str "sleep 5  &" ++ [LF]) (str "sleep 5 ") " "%char LF (str "&") []
           (str "sleep") [str "5"; str "&"] 4242).
  - reflexivity.
  - reflexivity.
  - reflexivity.
  - reflexivity.
  - discriminate.
  - reflexivity.
  - reflexivity.
  - reflexivity.
  - reflexivity.
  - discriminate.
  - discriminate.
  - vm_compute. reflexivity.
  - vm_compute. reflexivity.
  - reflexivity.
  - discriminate.
  - discriminate.
Defined.

Lemma parent_undefined_for_lone_word_witness :
  nul_free (str "ls" ++ [LF]) = true
  /\ str "ls" ++ [LF] = str "ls" ++ [LF]
  /\ os_fork (demo_os 4242) = inr 4242
  /\ dispatch (demo_os 4242) (demo_shell (str "/x")) (str "ls" ++ [LF])
     = Undefined OutOfBounds.
Proof.
  split; [reflexivity|]. split; [reflexivity|]. split; [reflexivity|].
  apply (parent_undefined_for_lone_word (demo_os 4242) (demo_shell (str "/x"))
           (str "ls" ++ [LF]) (str "ls") [LF] 4242).
  - reflexivity.
  - reflexivity.
  - discriminate.
  - reflexivity.
  - reflexivity.
  - discriminate.
  - discriminate.
  - vm_compute. reflexivity.
  - reflexivity.
  - discriminate.
  - discriminate.
Defined.

(** ** [tokenize], byte by byte *)

(** X20.  What [tokenize] leaves when all words fit: the buffer is the
    string with the delimiter after each word replaced by NUL (delimiters
    before a word or after another delimiter stay), the array holds the
    offsets at which the words start, in order, then NULL, and the slots
    after that are untouched. *)
Theorem tokenize_closes_words_in_place (delim s : bytes) (limit : Z)
    (tokens : list (option cptr)) :
  nul_free s = true ->
  Z.of_nat (length (words delim s)) <= limit - 1 ->
  (length (words delim s) < length tokens)%nat ->
  exists t,
    tokenize (s ++ [NUL]) delim tokens limit = Done t
    /\ tk_buf t = closed delim false s ++ [NUL]
    /\ tk_tokens t
       = ptrs (starts delim false 0 s)
         ++ None :: skipn (S (length (words delim s))) tokens
    /\ length (starts delim false 0 s) = length (words delim s).
Proof.
  intros Hnf Hlim Hcap. eexists.
  split; [now apply tokenize_exact|]. cbn [tk_buf tk_tokens].
  split; [reflexivity|]. split; [reflexivity|].
  apply (starts_count delim (S (length s)) s 0 (Nat.lt_succ_diag_r _) Hnf).
Qed.

Lemma tokenize_closes_words_in_place_witness :
  nul_free (str " ls  -l " ++ [LF]) = true
  /\ exists t,
       tokenize ((str " ls  -l " ++ [LF]) ++ [NUL]) whitespace
                [None; None; None; Some (PLit (str "old"))] 4 = Done t
       /\ tk_buf t = str " ls" ++ NUL :: str " -l" ++ NUL :: LF :: [NUL]
       /\ tk_tokens t
          = [Some (PBuf 1); Some (PBuf 5); None; Some (PLit (str "old"))].
Proof.
  split; [reflexivity|].
  destruct (tokenize_closes_words_in_place whitespace (str " ls  -l " ++ [LF])
              4 [None; None; None; Some (PLit (str "old"))])
    as (t & E & Hb & Ht & _).
  - reflexivity.
  - vm_compute. discriminate.
  - vm_compute. lia.
  - exists t. split; [exact E|]. split; [rewrite Hb|rewrite Ht]; reflexivity.
Defined.

(** ** The loop: the argument array between passes *)

Lemma skipn_repeat_none {A : Type} (x : A) :
  forall n m, skipn n (repeat x m) = repeat x (m - n).
Proof.
  induction n as [|n IH]; intros [|m]; simpl; auto.
Qed.

Lemma clear_args_spec (items : list (option cptr)) :
  forall done rest : list (option cptr),
    clear_args (length items) (Z.of_nat (length done)) (done ++ items ++ rest)
    = Done (done ++ repeat None (length items) ++ rest).
Proof.
  induction items as [|x items IH]; intros done rest; [reflexivity|].
  cbn [length clear_args app]. rewrite store_app. cbn [bind].
  replace (Z.of_nat (length done) + 1)
    with (Z.of_nat (length (done ++ [None])))
    by (rewrite length_app; simpl; lia).
  replace (done ++ None :: items ++ rest)
    with ((done ++ [None]) ++ items ++ rest) by now rewrite <- app_assoc.
  rewrite IH, <- app_assoc. reflexivity.
Qed.

(** Whatever a line of fewer than 2047 words leads to, [command_args] and
    [arg_count] are those [tokenize] set. *)
Lemma dispatch_keeps_tokens (os : OS) (sh : shell) (line : bytes)
    (w : world) (args : list (option cptr)) (n : Z) (st : status) :
  nul_free line = true ->
  Z.of_nat (length (words whitespace line)) < BIG_NUM - 1 ->
  length (sh_args sh) = Z.to_nat BIG_NUM ->
  dispatch os sh line = Done (w, args, n, st) ->
  n = Z.of_nat (length (words whitespace line))
  /\ exists qs, length qs = length (words whitespace line)
                /\ args = ptrs qs ++ None
                          :: skipn (S (length (words whitespace line)))
                                   (sh_args sh).
Proof.
  intros Hnf Hcount Hargs.
  destruct (tokenize_accepted sh line _ Hnf eq_refl Hcount Hargs)
    as (b & qs & tail & Etok & Hreads & ->).
  assert (Hqs := reads_length _ _ _ Hreads).
  unfold dispatch. rewrite Etok. cbn [bind tk_ret tk_buf tk_tokens tk_count].
  cbn [Z.eqb negb].
  assert (Hdone : forall w' st',
             Done (w', ptrs qs ++ None
                       :: skipn (S (length (words whitespace line)))
                                (sh_args sh),
                   Z.of_nat (length (words whitespace line)), st')
             = Done (w, args, n, st) ->
             n = Z.of_nat (length (words whitespace line))
             /\ exists qs0 : list nat,
                  length qs0 = length (words whitespace line)
                  /\ args = ptrs qs0 ++ None
                            :: skipn (S (length (words whitespace line)))
                                     (sh_args sh)).
  { intros w' st' H. injection H as _ <- <- _. split; [reflexivity|].
    exists qs. auto. }
  set (A := ptrs qs ++ None :: skipn (S (length (words whitespace line)))
                                     (sh_args sh)) in *.
  set (N := Z.of_nat (length (words whitespace line))) in *.
  destruct (fetch A 0) as [command| |]; cbn [bind]; try discriminate.
  destruct (N =? 0); [apply Hdone|].
  destruct (load_arg b command) as [cmd| |]; cbn [bind]; try discriminate.
  destruct (bytes_eqb cmd (str "exit")); [apply Hdone|].
  destruct (bytes_eqb cmd (str "cd")); cbn [andb].
  - destruct (1 <? N).
    + destruct (fetch A 1) as [a1| |]; cbn [bind]; try discriminate.
      destruct (strlen b a1) as [len| |]; cbn [bind]; try discriminate.
      destruct (PATH_MAX <? Z.of_nat len); [apply Hdone|].
      destruct a1 as [p|]; cbn [bind].
      * destruct (load b p) as [s| |]; cbn [bind]; try discriminate.
        destruct (cd os (sh_world sh) (Some s)); cbn [bind];
          try discriminate. apply Hdone.
      * destruct (cd os (sh_world sh) None); cbn [bind];
          try discriminate. apply Hdone.
    + cbn [bind].
      destruct (fetch A 1) as [a1| |]; cbn [bind]; try discriminate.
      destruct a1 as [p|]; cbn [bind].
      * destruct (load b p) as [s| |]; cbn [bind]; try discriminate.
        destruct (cd os (sh_world sh) (Some s)); cbn [bind];
          try discriminate. apply Hdone.
      * destruct (cd os (sh_world sh) None); cbn [bind];
          try discriminate. apply Hdone.
  - cbn [bind].
    destruct (os_fork os) as [e|pid].
    + cbn [Z.eqb]. apply Hdone.
    + destruct (pid =? 0).
      * destruct (run_child _ _ _ _ _ _) as [[w' st']| |]; cbn [bind];
          try discriminate. apply Hdone.
      * destruct (pid =? -1); [apply Hdone|].
        destruct (run_parent _ _ _ _ _) as [w'| |]; cbn [bind];
          try discriminate. apply Hdone.
Qed.

(** X21.  The clean-up at the end of a pass: after a pass over a line of
    fewer than 2047 words that goes back to the prompt, the slots the line
    had filled, and the one after them, hold NULL, and the others are
    untouched.  An array that was all NULL before the pass is all NULL
    after it. *)
Theorem pass_clears_the_arguments (os : OS) (sh sh' : shell) (line : bytes) :
  nul_free line = true ->
  Z.of_nat (length (words whitespace line)) < BIG_NUM - 1 ->
  length (sh_args sh) = Z.to_nat BIG_NUM ->
  shell_iteration os sh line = Done (sh', Running) ->
  sh_args sh'
  = repeat None (S (length (words whitespace line)))
    ++ skipn (S (length (words whitespace line))) (sh_args sh)
  /\ (sh_args sh = fresh_args -> sh_args sh' = fresh_args).
Proof.
  intros Hnf Hcount Hargs. unfold shell_iteration.
  destruct (show_prompt os (sh_world sh)) as [w1| |]; cbn [bind];
    try discriminate.
  destruct (dispatch os (mkShell w1 (sh_args sh)) line)
    as [[[[w2 args] n] st]| |] eqn:Ed; cbn [bind]; try discriminate.
  destruct (dispatch_keeps_tokens os (mkShell w1 (sh_args sh)) line
              w2 args n st Hnf Hcount Hargs Ed)
    as (-> & qs & Hqs & ->).
  change (sh_args (mkShell w1 (sh_args sh))) with (sh_args sh).
  remember (skipn (S (length (words whitespace line))) (sh_args sh)) as tail
    eqn:Htail.
  destruct st; try discriminate.
  rewrite Nat2Z.id, <- Hqs, <- (ptrs_length qs).
  assert (Hclear := clear_args_spec (ptrs qs) [] (None :: tail)).
  cbn [app length] in Hclear. change (Z.of_nat 0) with 0 in Hclear.
  rewrite Hclear. cbn [bind].
  intros H. injection H as <-.
  change (sh_args (mkShell (emit Free w2)
                     (repeat None (length (ptrs qs)) ++ None :: tail)))
    with (repeat None (length (ptrs qs)) ++ None :: tail).
  assert (E : repeat None (length (ptrs qs)) ++ None :: tail
              = repeat None (S (length (ptrs qs))) ++ tail).
  { replace (S (length (ptrs qs))) with (length (ptrs qs) + 1)%nat by lia.
    rewrite repeat_app, <- app_assoc. reflexivity. }
  split; [exact E|].
  intros Hfresh. rewrite E, Htail, Hfresh. unfold fresh_args.
  rewrite skipn_repeat_none, <- repeat_app. f_equal.
  rewrite ptrs_length, Hqs. unfold BIG_NUM in *. lia.
Qed.

(** X22.  After a line of 2047 words or more nothing is cleared:
    [arg_count] was set to 0, so the first 2047 slots keep the pointers
    [tokenize] stored, into a line that has been freed. *)
Theorem long_line_leaves_its_pointers (os : OS) (sh : shell) (line : bytes)
    (w1 : world) :
  nul_free line = true ->
  BIG_NUM - 1 <= Z.of_nat (length (words whitespace line)) ->
  length (sh_args sh) = Z.to_nat BIG_NUM ->
  show_prompt os (sh_world sh) = Done w1 ->
  exists qs,
    length qs = Z.to_nat (BIG_NUM - 1)
    /\ shell_iteration os sh line
       = Done (mkShell (emit Free (emit (Stderr (str "Exceeded length" ++ [LF]))
                                        w1))
                       (ptrs qs ++ [None]),
               Running).
Proof.
  intros Hnf Hcount Hargs Hprompt. unfold shell_iteration.
  rewrite Hprompt. cbn [bind]. unfold dispatch. cbn [sh_world sh_args].
  change (str " " ++ [LF]) with whitespace.
  destruct (tokenize_spec whitespace line [] BIG_NUM (sh_args sh) Hnf)
    as (b & qs & Etok & Hqs & _ & _).
  { rewrite Hargs. unfold BIG_NUM in *. lia. }
  assert (Ek : Nat.min (length (words whitespace line))
                       (Z.to_nat (BIG_NUM - 1)) = Z.to_nat (BIG_NUM - 1))
    by lia.
  rewrite Ek in Etok, Hqs.
  replace (Z.of_nat (Z.to_nat (BIG_NUM - 1)) <? BIG_NUM - 1) with false in Etok
    by (symmetry; apply Z.ltb_ge; unfold BIG_NUM; lia).
  rewrite Etok. cbn [bind tk_ret tk_buf tk_tokens tk_count].
  change (negb (-1 =? 0)) with true. cbv iota.
  exists qs. split; [exact Hqs|].
  assert (Htail : skipn (S (Z.to_nat (BIG_NUM - 1))) (sh_args sh) = []).
  { apply skipn_all2. rewrite Hargs. unfold BIG_NUM. lia. }
  rewrite Htail.
  destruct qs as [|q0 qs].
  { unfold BIG_NUM in Hqs. simpl in Hqs. lia. }
  cbn [ptrs map app]. rewrite fetch_head. cbn [bind Z.eqb Z.to_nat clear_args].
  reflexivity.
Qed.

(** X23.  The prompt reads [HOME] unchecked: in a shell whose environment
    has no [HOME], every pass is undefined before a line is read, a NULL
    pointer being handed to [strcmp]. *)
Theorem prompt_needs_home (os : OS) (sh : shell) (line : bytes) :
  getenv (str "HOME") (w_env (sh_world sh)) = None ->
  Z.of_nat (length (w_cwd (sh_world sh))) < PATH_MAX ->
  shell_iteration os sh line = Undefined NullDeref.
Proof.
  intros Hh Hfit. unfold shell_iteration, show_prompt.
  rewrite (getcwd_fits _ Hfit), Hh. reflexivity.
Qed.

Lemma pass_clears_the_arguments_witness :
  nul_free (str "cd a b" ++ [LF]) = true
  /\ Z.of_nat (length (words whitespace (str "cd a b" ++ [LF]))) < BIG_NUM - 1
  /\ length (sh_args (demo_shell (str "/x"))) = Z.to_nat BIG_NUM
  /\ exists sh',
       shell_iteration (demo_os 4242) (demo_shell (str "/x"))
                       (str "cd a b" ++ [LF]) = Done (sh', Running)
       /\ w_cwd (sh_world sh') = str "/x/a"
       /\ sh_args sh' = fresh_args.
Proof.
  split; [reflexivity|].
  split; [vm_compute; reflexivity|].
  split; [vm_compute; reflexivity|].
  assert (E : exists sh',
             shell_iteration (demo_os 4242) (demo_shell (str "/x"))
                             (str "cd a b" ++ [LF]) = Done (sh', Running)
             /\ w_cwd (sh_world sh') = str "/x/a").
  { eexists. split; [vm_compute; reflexivity|reflexivity]. }
  destruct E as (sh' & E & Hcwd).
  exists sh'. split; [exact E|]. split; [exact Hcwd|].
  apply (pass_clears_the_arguments (demo_os 4242) (demo_shell (str "/x")) sh'
           (str "cd a b" ++ [LF])).
  - reflexivity.
  - vm_compute. reflexivity.
  - vm_compute. reflexivity.
  - exact E.
  - reflexivity.
Defined.

Lemma long_line_leaves_its_pointers_witness :
  nul_free (line_of_words 2047) = true
  /\ BIG_NUM - 1 <= Z.of_nat (length (words whitespace (line_of_words 2047)))
  /\ exists w1 qs,
       show_prompt (demo_os 4242) (sh_world (demo_shell (str "/x"))) = Done w1
       /\ length qs = Z.to_nat (BIG_NUM - 1)
       /\ shell_iteration (demo_os 4242) (demo_shell (str "/x"))
                          (line_of_words 2047)
          = Done (mkShell
                    (emit Free
                       (emit (Stderr (str "Exceeded length" ++ [LF])) w1))
                    (ptrs qs ++ [None]),
                  Running).
Proof.
  split; [vm_compute; reflexivity|].
  split; [vm_compute; discriminate|].
  assert (E : exists w1,
             show_prompt (demo_os 4242) (sh_world (demo_shell (str "/x")))
             = Done w1).
  { eexists. vm_compute. reflexivity. }
  destruct E as (w1 & E).
  destruct (long_line_leaves_its_pointers (demo_os 4242)
              (demo_shell (str "/x")) (line_of_words 2047) w1)
    as (qs & Hqs & Hrun).
  - vm_compute. reflexivity.
  - vm_compute. discriminate.
  - vm_compute. reflexivity.
  - exact E.
  - exists w1, qs. split; [exact E|]. split; [exact Hqs|exact Hrun].
Defined.

Lemma prompt_needs_home_witness :
  getenv (str "HOME") (w_env (sh_world (mkShell no_home_world fresh_args)))
  = None
  /\ Z.of_nat (length (w_cwd (sh_world (mkShell no_home_world fresh_args))))
     < PATH_MAX
  /\ shell_iteration (demo_os 4242) (mkShell no_home_world fresh_args)
                     (str "ls -l" ++ [LF]) = Undefined NullDeref.
Proof.
  split; [reflexivity|].
  split; [vm_compute; reflexivity|].
  apply (prompt_needs_home (demo_os 4242) (mkShell no_home_world fresh_args)
           (str "ls -l" ++ [LF])).
  - reflexivity.
  - vm_compute. reflexivity.
Defined.
